(** * unrealon-sdk: the streaming uploader and the interruptible task runner

    A shallow embedding of [unrealon/parsers/upload.py] (module [Upload])
    and of [TaskRunner.iterate] in [unrealon/runner.py] (module [Runner]),
    with the properties of the delivery pipeline and of the cooperative
    cancellation protocol stated over them; and of two of their users in
    [unrealon/parsers]: the interruptible sleep of [cli.py] (module [Cli])
    and the upload buffer of [BaseParser] in [base.py] (module [Base]).

    Conventions of the embedding.
    - A Python [str] is a [string]; one character of a [string] stands for
      one character of the Python string.
    - A Python [int] is a [Z].
    - The seconds handed to [time.sleep] and to [join] are rationals: every
      duration the code computes is a small integer multiple of 2.0 or a
      literal, which binary floating point represents exactly.
    - The collaborators the code is given (the upload function, the progress
      callback, [time.sleep], the service client) are section variables that
      act on an environment state [E]; every call of interest is recorded in
      a chronological trace of events. *)

From Stdlib Require Import QArith Qround Lqa.
From stdpp Require Import gmap strings list pretty.
Close Scope Q_scope.
Local Open Scope string_scope.
Local Open Scope list_scope.
Local Open Scope Z_scope.

(** ** Python values and strings *)

Module Py.

(** [needle in hay] on strings. *)
Fixpoint str_contains (needle hay : string) : bool :=
  String.prefix needle hay ||
  match hay with
  | EmptyString => false
  | String _ rest => str_contains needle rest
  end.

(** [s[:n]] for a non-negative [n]. *)
Fixpoint str_slice_to (n : nat) (s : string) : string :=
  match n, s with
  | S k, String c rest => String c (str_slice_to k rest)
  | _, _ => ""
  end.

(** [s * n]: the string [s] repeated [n] times. *)
Fixpoint str_repeat (s : string) (n : nat) : string :=
  match n with
  | O => ""
  | S k => s +:+ str_repeat s k
  end.

(** The values a record field holds, as far as the pipeline looks at them. *)
Inductive pyval :=
| VStr (s : string)
| VInt (z : Z)
| VNone.

(** [str(v)]. *)
Definition py_str (v : pyval) : string :=
  match v with
  | VStr s => s
  | VInt z => pretty z
  | VNone => "None"
  end.

(** [error or default] for [error : str | None]: [None] and the empty
    string are falsy. *)
Definition str_or (error : option string) (default : string) : string :=
  match error with
  | Some (String c rest) => String c rest
  | _ => default
  end.

(** A raised exception: its class name and [str(e)].  The exceptions of
    the model are instances of [Exception], the ones [except Exception]
    catches. *)
Record pyexn := PyExn { exn_class : string; exn_message : string }.

(** [range(n)]. *)
Definition py_range (n : Z) : list Z := Z.of_nat <$> seq 0 (Z.to_nat n).

End Py.

Import Py.

(** ** upload.py *)

Module Upload.

Definition PARALLEL_WORKERS : Z := 3.
Definition MAX_RETRIES : Z := 3.
Definition RETRY_DELAY : Q := (2 # 1)%Q.

(** [class StreamingStats] *)
Record StreamingStats := {
  pages : Z;
  items : Z;
  success : Z;
  failed : Z;
  skipped : Z;
  photos_added : Z;
  photos_failed : Z;
}.

Definition stats0 : StreamingStats :=
  {| pages := 0; items := 0; success := 0; failed := 0; skipped := 0;
     photos_added := 0; photos_failed := 0 |}.

(** A record is a [dict]; the pipeline reads its ["id"] only. *)
Abbreviation Item := (gmap string pyval).

(** [str(item.get("id", ""))] *)
Definition item_id (item : Item) : string :=
  py_str (default (VStr "") (item !! "id")).

(** What one call of the upload function does: it returns
    [(success, photos_added, photos_failed, error)] or it raises. *)
Inductive Outcome :=
| Returned (ok : bool) (added failed_photos : Z) (error : option string)
| Raised (e : pyexn).

(** The tuple [_upload_one] returns:
    [(item_id, success, photos_added, photos_failed, error)]. *)
Definition UploadTuple : Type := string * bool * Z * Z * option string.

(** The lines written to [self.log], by call site, with their numeric and
    identifier arguments (the session banner's [source_code] is left out). *)
Inductive LogLine :=
| LogSessionInit
| LogAddedExisting (n : nat)
| LogRetry (id : string) (attempt max_retries : Z)
| LogUploadError (id : string) (last_error : option string)
| LogThreadStarted
| LogWorkerError (e : pyexn)
| LogStarting
| LogPageAllDuplicates (page_num batch_skipped : Z)
| LogPageUploading (page_num : Z) (n : nat)
| LogPageDone (page_num batch_success batch_skipped : Z)
| LogForceFinishing
| LogWaiting
| LogThreadStopped
| LogComplete (n_items n_success n_failed n_skipped : Z)
| LogPhotos (added failed_photos : Z).

(** The trace: calls of the collaborators and blocking waits, in the order
    they happen.  [EvSkip] marks the point where [_upload_batch_sync] counts
    a record as a duplicate. *)
Inductive Event :=
| EvCall (item : Item)
| EvSleep (seconds : Q)
| EvSkip (item : Item)
| EvProgress (st : StreamingStats)
| EvQueueJoin
| EvThreadJoin (timeout : Q)
| EvLog (l : LogLine).

(** The upload-function calls of a trace, and its sleeps. *)
Definition calls (tr : list Event) : list Item :=
  omap (λ ev, match ev with EvCall item => Some item | _ => None end) tr.

Definition sleeps (tr : list Event) : list Q :=
  omap (λ ev, match ev with EvSleep d => Some d | _ => None end) tr.

Definition skips (tr : list Event) : list Item :=
  omap (λ ev, match ev with EvSkip item => Some item | _ => None end) tr.

(** The calls and sleeps of a trace, in their order. *)
Definition effects (tr : list Event) : list Event :=
  omap (λ ev, match ev with
              | EvCall _ | EvSleep _ => Some ev
              | _ => None
              end) tr.

(** The blocking calls of a trace: [Queue.join] and [Thread.join]. *)
Definition waits (tr : list Event) : list Event :=
  omap (λ ev, match ev with
              | EvQueueJoin | EvThreadJoin _ => Some ev
              | _ => None
              end) tr.

(** A computation either returns or raises. *)
Inductive Res (A : Type) :=
| Ok (a : A)
| Exc (e : pyexn).
Arguments Ok {A} a.
Arguments Exc {A} e.

(** A queued task: [(items, page_num)]. *)
Definition Task : Type := list Item * Z.

(** [self._upload_thread]: [None], a thread that [is_alive()], or a thread
    that has ended. *)
Inductive ThreadState := NoThread | Alive | Ended.

(** The fields of [StreamingUploader] that change or steer the pipeline.
    [_upload_queue] is the [queue.Queue], head first, [None] being the
    poison pill; [unfinished_tasks] is the counter [Queue.join] waits on;
    [in_flight] is the dispatcher thread's local [task], between its [get]
    and the end of [_upload_batch_sync]. *)
Record Uploader := {
  parallel_workers : Z;
  stats : StreamingStats;
  _existing_ids : gset string;
  _session_started : bool;
  _upload_queue : list (option Task);
  unfinished_tasks : nat;
  _upload_thread : ThreadState;
  _stop_event : bool;
  in_flight : option Task;
}.

(** Field updates of the uploader. *)
Definition set_stats (f : StreamingStats → StreamingStats) (u : Uploader) : Uploader :=
  {| parallel_workers := parallel_workers u;
     stats := f (stats u);
     _existing_ids := _existing_ids u;
     _session_started := _session_started u;
     _upload_queue := _upload_queue u;
     unfinished_tasks := unfinished_tasks u;
     _upload_thread := _upload_thread u;
     _stop_event := _stop_event u;
     in_flight := in_flight u |}.

Definition set_existing_ids (f : gset string → gset string) (u : Uploader) : Uploader :=
  {| parallel_workers := parallel_workers u;
     stats := stats u;
     _existing_ids := f (_existing_ids u);
     _session_started := _session_started u;
     _upload_queue := _upload_queue u;
     unfinished_tasks := unfinished_tasks u;
     _upload_thread := _upload_thread u;
     _stop_event := _stop_event u;
     in_flight := in_flight u |}.

Definition set_session_started (f : bool → bool) (u : Uploader) : Uploader :=
  {| parallel_workers := parallel_workers u;
     stats := stats u;
     _existing_ids := _existing_ids u;
     _session_started := f (_session_started u);
     _upload_queue := _upload_queue u;
     unfinished_tasks := unfinished_tasks u;
     _upload_thread := _upload_thread u;
     _stop_event := _stop_event u;
     in_flight := in_flight u |}.

Definition set_upload_queue (f : list (option Task) → list (option Task)) (u : Uploader) : Uploader :=
  {| parallel_workers := parallel_workers u;
     stats := stats u;
     _existing_ids := _existing_ids u;
     _session_started := _session_started u;
     _upload_queue := f (_upload_queue u);
     unfinished_tasks := unfinished_tasks u;
     _upload_thread := _upload_thread u;
     _stop_event := _stop_event u;
     in_flight := in_flight u |}.

Definition set_unfinished_tasks (f : nat → nat) (u : Uploader) : Uploader :=
  {| parallel_workers := parallel_workers u;
     stats := stats u;
     _existing_ids := _existing_ids u;
     _session_started := _session_started u;
     _upload_queue := _upload_queue u;
     unfinished_tasks := f (unfinished_tasks u);
     _upload_thread := _upload_thread u;
     _stop_event := _stop_event u;
     in_flight := in_flight u |}.

Definition set_upload_thread (f : ThreadState → ThreadState) (u : Uploader) : Uploader :=
  {| parallel_workers := parallel_workers u;
     stats := stats u;
     _existing_ids := _existing_ids u;
     _session_started := _session_started u;
     _upload_queue := _upload_queue u;
     unfinished_tasks := unfinished_tasks u;
     _upload_thread := f (_upload_thread u);
     _stop_event := _stop_event u;
     in_flight := in_flight u |}.

Definition set_stop_event (f : bool → bool) (u : Uploader) : Uploader :=
  {| parallel_workers := parallel_workers u;
     stats := stats u;
     _existing_ids := _existing_ids u;
     _session_started := _session_started u;
     _upload_queue := _upload_queue u;
     unfinished_tasks := unfinished_tasks u;
     _upload_thread := _upload_thread u;
     _stop_event := f (_stop_event u);
     in_flight := in_flight u |}.

Definition set_in_flight (f : option Task → option Task) (u : Uploader) : Uploader :=
  {| parallel_workers := parallel_workers u;
     stats := stats u;
     _existing_ids := _existing_ids u;
     _session_started := _session_started u;
     _upload_queue := _upload_queue u;
     unfinished_tasks := unfinished_tasks u;
     _upload_thread := _upload_thread u;
     _stop_event := _stop_event u;
     in_flight := f (in_flight u) |}.

(** [st.field += n] *)
Definition add_pages (n : Z) (st : StreamingStats) : StreamingStats :=
  {| pages := pages st + n;
     items := items st;
     success := success st;
     failed := failed st;
     skipped := skipped st;
     photos_added := photos_added st;
     photos_failed := photos_failed st |}.

Definition add_items (n : Z) (st : StreamingStats) : StreamingStats :=
  {| pages := pages st;
     items := items st + n;
     success := success st;
     failed := failed st;
     skipped := skipped st;
     photos_added := photos_added st;
     photos_failed := photos_failed st |}.

Definition add_success (n : Z) (st : StreamingStats) : StreamingStats :=
  {| pages := pages st;
     items := items st;
     success := success st + n;
     failed := failed st;
     skipped := skipped st;
     photos_added := photos_added st;
     photos_failed := photos_failed st |}.

Definition add_failed (n : Z) (st : StreamingStats) : StreamingStats :=
  {| pages := pages st;
     items := items st;
     success := success st;
     failed := failed st + n;
     skipped := skipped st;
     photos_added := photos_added st;
     photos_failed := photos_failed st |}.

Definition add_skipped (n : Z) (st : StreamingStats) : StreamingStats :=
  {| pages := pages st;
     items := items st;
     success := success st;
     failed := failed st;
     skipped := skipped st + n;
     photos_added := photos_added st;
     photos_failed := photos_failed st |}.

Definition add_photos_added (n : Z) (st : StreamingStats) : StreamingStats :=
  {| pages := pages st;
     items := items st;
     success := success st;
     failed := failed st;
     skipped := skipped st;
     photos_added := photos_added st + n;
     photos_failed := photos_failed st |}.

Definition add_photos_failed (n : Z) (st : StreamingStats) : StreamingStats :=
  {| pages := pages st;
     items := items st;
     success := success st;
     failed := failed st;
     skipped := skipped st;
     photos_added := photos_added st;
     photos_failed := photos_failed st + n |}.

Section Pipeline.

(** The environment: the remote sink, the clock, the cancellation source. *)
Context {E : Type}.

(** The collaborators.
    - [upload_func]: [self.upload_func].
    - [sleep]: [time.sleep].  It returns, or it raises: [cli._patch_sleep]
      replaces it by [_interruptible_sleep], which runs [check_interrupt]
      and so raises [StopInterrupt] on a stop request.
    - [on_progress]: [self.on_progress].
    - [completion_order]: the order in which the workers of one batch
      complete ([as_completed]); the thread pool decides it.
    - [done_within]: whether the batch in flight ends within the timeout of
      a [Thread.join]. *)
Record Collab := {
  upload_func : Item → E → Outcome * E;
  sleep : Q → E → option pyexn * E;
  on_progress : option (StreamingStats → E → option pyexn * E);
  completion_order : E → list Item → list Item;
  done_within : Q → E → bool;
}.

Variable c : Collab.

Record World := { env : E; trace : list Event }.

(** *** A state-and-exception monad *)

Definition M (S A : Type) : Type := S → Res A * S.

Definition ret {S A} (a : A) : M S A := λ w, (Ok a, w).
Definition raise {S A} (e : pyexn) : M S A := λ w, (Exc e, w).
Definition bind {S A B} (k : A → M S B) (m : M S A) : M S B :=
  λ w, match m w with
       | (Ok a, w') => k a w'
       | (Exc e, w') => (Exc e, w')
       end.

#[local] Instance M_ret {S} : MRet (M S) := @ret S.
#[local] Instance M_bind {S} : MBind (M S) := @bind S.

Definition emit (ev : Event) : M World unit :=
  λ w, (Ok tt, {| env := env w; trace := trace w ++ [ev] |}).

Definition log (l : LogLine) : M World unit := emit (EvLog l).

(** [self.upload_func(item)] *)
Definition call_upload (item : Item) : M World Outcome :=
  λ w, let '(o, e') := upload_func c item (env w) in
       (Ok o, {| env := e'; trace := trace w ++ [EvCall item] |}).

(** [time.sleep(seconds)] *)
Definition time_sleep (seconds : Q) : M World unit :=
  λ w, let '(r, e') := sleep c seconds (env w) in
       let w' := {| env := e'; trace := trace w ++ [EvSleep seconds] |} in
       match r with
       | None => (Ok tt, w')
       | Some e => (Exc e, w')
       end.

(** *** [_upload_one] *)

(** The retry test of [_upload_one], on the truncated message. *)
Definition is_transient (last_error : string) : bool :=
  str_contains "502" last_error || str_contains "503" last_error
  || str_contains "504" last_error.

(** How the [for attempt in range(MAX_RETRIES)] loop is left: by one of its
    [return]s, or by [break] (or exhaustion) with the current [last_error]. *)
Inductive LoopExit :=
| LoopReturn (r : UploadTuple)
| LoopBreak (last_error : option string).

Fixpoint attempt_loop (item : Item) (id : string) (attempts : list Z)
    (last_error : option string) : M World LoopExit :=
  match attempts with
  | [] => mret (LoopBreak last_error)
  | attempt :: rest =>
      o ← call_upload item;
      match o with
      | Returned ok added failed_photos error =>
          if ok then mret (LoopReturn (id, true, added, failed_photos, None))
          else mret (LoopReturn (id, false, 0, 0, Some (str_or error "upload failed")))
      | Raised e =>
          let last_error := str_slice_to 100 (exn_message e) in
          if is_transient last_error then
            if attempt <? MAX_RETRIES - 1 then
              log (LogRetry id (attempt + 1) MAX_RETRIES);;
              time_sleep (RETRY_DELAY * inject_Z (attempt + 1))%Q;;
              attempt_loop item id rest (Some last_error)
            else mret (LoopBreak (Some last_error))
          else mret (LoopBreak (Some last_error))
      end
  end.

Definition _upload_one (item : Item) : M World UploadTuple :=
  let id := item_id item in
  x ← attempt_loop item id (py_range MAX_RETRIES) None;
  match x with
  | LoopReturn r => mret r
  | LoopBreak last_error =>
      log (LogUploadError id last_error);;
      mret (id, false, 0, 0, last_error)
  end.

(** *** The uploader state and [_upload_batch_sync] *)

Record State := { up : Uploader; world : World }.

Definition lift {A} (m : M World A) : M State A :=
  λ s, let '(r, w) := m (world s) in (r, {| up := up s; world := w |}).

Definition modify_up (f : Uploader → Uploader) : M State unit :=
  λ s, (Ok tt, {| up := f (up s); world := world s |}).

Definition gets {A} (f : Uploader → A) : M State A := λ s, (Ok (f (up s)), s).

Definition when {S} (b : bool) (m : M S unit) : M S unit :=
  if b then m else mret tt.

Definition _should_skip (u : Uploader) (id : string) : bool :=
  bool_decide (id ∈ _existing_ids u).

(** The loop that fills [to_upload] and counts the duplicates. *)
Fixpoint filter_loop (batch to_upload : list Item) (batch_skipped : Z)
    : M State (list Item * Z) :=
  match batch with
  | [] => mret (to_upload, batch_skipped)
  | item :: rest =>
      skip ← gets (λ u, _should_skip u (item_id item));
      if skip : bool then
        modify_up (set_stats (add_skipped 1));;
        lift (emit (EvSkip item));;
        filter_loop rest to_upload (batch_skipped + 1)
      else filter_loop rest (to_upload ++ [item]) batch_skipped
  end.

(** The workers of one batch, each running [_upload_one] to its end, in
    the order in which they complete.  A worker's exception stays in its
    future. *)
Fixpoint run_workers (order : list Item) (w : World)
    : list (Res UploadTuple) * World :=
  match order with
  | [] => ([], w)
  | item :: rest =>
      let '(r, w1) := _upload_one item w in
      let '(rs, w2) := run_workers rest w1 in
      (r :: rs, w2)
  end.

(** [with ThreadPoolExecutor(max_workers=self.parallel_workers)]: the
    constructor raises [ValueError] unless [max_workers > 0]; leaving the
    block waits for every submitted worker. *)
Definition thread_pool (to_upload : list Item) : M State (list (Res UploadTuple)) :=
  λ s, if parallel_workers (up s) <=? 0
       then (Exc (PyExn "ValueError" "max_workers must be greater than 0"), s)
       else let order := completion_order c (env (world s)) to_upload in
            let '(rs, w) := run_workers order (world s) in
            (Ok rs, {| up := up s; world := w |}).

(** [for future in as_completed(futures)]: [future.result()] re-raises the
    exception of its worker, which ends the loop. *)
Fixpoint tally_loop (results : list (Res UploadTuple)) (batch_success : Z)
    : M State Z :=
  match results with
  | [] => mret batch_success
  | Exc e :: _ => raise e
  | Ok (id, ok, added, failed_photos, _) :: rest =>
      if ok : bool then
        modify_up (set_stats (add_success 1));;
        modify_up (set_stats (add_photos_added added));;
        modify_up (set_stats (add_photos_failed failed_photos));;
        modify_up (set_existing_ids (λ ids, ids ∪ {[ id ]}));;
        tally_loop rest (batch_success + 1)
      else
        modify_up (set_stats (add_failed 1));;
        tally_loop rest batch_success
  end.

(** [if self.on_progress: self.on_progress(self.stats)] *)
Definition call_on_progress : M State unit :=
  λ s, match on_progress c with
       | None => (Ok tt, s)
       | Some f =>
           let '(r, e') := f (stats (up s)) (env (world s)) in
           let s' := {| up := up s;
                        world := {| env := e';
                                    trace := trace (world s) ++ [EvProgress (stats (up s))] |} |} in
           match r with
           | None => (Ok tt, s')
           | Some e => (Exc e, s')
           end
       end.

Definition _upload_batch_sync (batch : list Item) (page_num : Z) : M State Z :=
  modify_up (set_stats (add_pages 1));;
  '(to_upload, batch_skipped) ← filter_loop batch [] 0;
  match to_upload with
  | [] =>
      when (0 <? page_num) (lift (log (LogPageAllDuplicates page_num batch_skipped)));;
      mret 0
  | _ :: _ =>
      modify_up (set_stats (add_items (Z.of_nat (length to_upload))));;
      when (0 <? page_num) (lift (log (LogPageUploading page_num (length to_upload))));;
      results ← thread_pool to_upload;
      batch_success ← tally_loop results 0;
      when (0 <? page_num) (lift (log (LogPageDone page_num batch_success batch_skipped)));;
      call_on_progress;;
      mret batch_success
  end.

(** *** The queue and the dispatcher thread *)

(** [Queue.put(x)] and [Queue.task_done()] *)
Definition queue_put (x : option Task) (u : Uploader) : Uploader :=
  set_unfinished_tasks S (set_upload_queue (λ q, q ++ [x]) u).

Definition task_done (u : Uploader) : Uploader := set_unfinished_tasks Nat.pred u.

Definition on_up (f : Uploader → Uploader) (s : State) : State :=
  {| up := f (up s); world := world s |}.

Definition say (ev : Event) (s : State) : State :=
  {| up := up s; world := {| env := env (world s); trace := trace (world s) ++ [ev] |} |}.

(** One step of [_upload_worker], the dispatcher thread; [None] when the
    thread is not running or waits in [get] on an empty queue.
    - with a task in hand: [_upload_batch_sync], then [task_done()], or, on
      an exception, the [except Exception] clause, which logs and goes on;
    - otherwise the [while] test, then [get]: the poison pill ends the
      thread, a task is taken in hand. *)
Definition worker_step (s : State) : option State :=
  match _upload_thread (up s) with
  | Alive =>
      match in_flight (up s) with
      | Some (batch, page_num) =>
          match _upload_batch_sync batch page_num s with
          | (Ok _, s') => Some (on_up (λ u, set_in_flight (λ _, None) (task_done u)) s')
          | (Exc e, s') =>
              Some (say (EvLog (LogWorkerError e)) (on_up (set_in_flight (λ _, None)) s'))
          end
      | None =>
          if _stop_event (up s) then Some (on_up (set_upload_thread (λ _, Ended)) s)
          else match _upload_queue (up s) with
               | [] => None
               | None :: rest =>
                   Some (on_up (λ u, set_upload_thread (λ _, Ended)
                                       (set_upload_queue (λ _, rest) u)) s)
               | Some task :: rest =>
                   Some (on_up (λ u, set_in_flight (λ _, Some task)
                                       (set_upload_queue (λ _, rest) u)) s)
               end
      end
  | _ => None
  end.

(** The dispatcher left to run for at most [fuel] steps. *)
Fixpoint worker_run (fuel : nat) (s : State) : State :=
  match fuel with
  | O => s
  | S k => match worker_step s with
           | None => s
           | Some s' => worker_run k s'
           end
  end.

(** A bound on the steps the dispatcher can take without a new [put]. *)
Definition worker_fuel (s : State) : nat :=
  (2 * length (_upload_queue (up s)) + 2)%nat.

(** *** The public operations *)

(** [__init__] *)
Definition new_uploader (workers : Z) (e : E) : State :=
  {| up := {| parallel_workers := workers; stats := stats0; _existing_ids := ∅;
              _session_started := false; _upload_queue := []; unfinished_tasks := 0;
              _upload_thread := NoThread; _stop_event := false; in_flight := None |};
     world := {| env := e; trace := [EvLog LogSessionInit] |} |}.

Definition add_existing_ids (ids : gset string) (s : State) : State :=
  say (EvLog (LogAddedExisting (size ids)))
      (on_up (set_existing_ids (λ old, old ∪ ids)) s).

Definition _start_upload_thread (s : State) : State :=
  match _upload_thread (up s) with
  | Alive => s
  | _ =>
      say (EvLog LogThreadStarted)
          (on_up (λ u, set_upload_thread (λ _, Alive) (set_stop_event (λ _, false) u)) s)
  end.

Definition upload_batch (batch : list Item) (page_num : Z) (s : State) : State :=
  match batch with
  | [] => s
  | _ :: _ =>
      let s1 :=
        if _session_started (up s) then s
        else _start_upload_thread
               (say (EvLog LogStarting) (on_up (set_session_started (λ _, true)) s)) in
      on_up (queue_put (Some (batch, page_num))) s1
  end.

(** [self._upload_thread.join(timeout)]: the caller waits while the
    dispatcher runs; a dispatcher with a batch in hand gets to its end only
    if the batch is done within the timeout. *)
Definition thread_join (timeout : Q) (s : State) : State :=
  let s1 := say (EvThreadJoin timeout) s in
  match in_flight (up s1) with
  | Some _ =>
      if done_within c timeout (env (world s1)) then worker_run (worker_fuel s1) s1
      else s1
  | None => worker_run (worker_fuel s1) s1
  end.

Definition abort (s : State) : State :=
  let s1 := on_up (set_stop_event (λ _, true)) s in
  let s2 := on_up (λ u, Nat.iter (length (_upload_queue u)) task_done
                          (set_upload_queue (λ _, []) u)) s1 in
  match _upload_thread (up s2) with
  | Alive => thread_join (1 # 1)%Q (on_up (queue_put None) s2)
  | _ => s2
  end.

(** A blocking call returns, or never does. *)
Inductive Completion :=
| Returns (s : State)
| Hangs (s : State).

(** [self._upload_queue.join()]: while the caller waits for
    [unfinished_tasks] to reach zero, the dispatcher runs. *)
Fixpoint queue_join (fuel : nat) (s : State) : Completion :=
  match unfinished_tasks (up s) with
  | O => Returns s
  | S _ =>
      match fuel with
      | O => Hangs s
      | S k => match worker_step s with
               | None => Hangs s
               | Some s' => queue_join k s'
               end
      end
  end.

Definition finish_log (s : State) : State :=
  let st := stats (up s) in
  say (EvLog (LogPhotos (photos_added st) (photos_failed st)))
      (say (EvLog (LogComplete (items st) (success st) (failed st) (skipped st))) s).

(** [finish]; the statistics it returns are [stats (up s)] of the state it
    returns. *)
Definition finish (duration : string) (force : bool) (s : State) : Completion :=
  match _upload_thread (up s) with
  | Alive =>
      if force then Returns (finish_log (abort (say (EvLog LogForceFinishing) s)))
      else
        let s1 := say EvQueueJoin (say (EvLog LogWaiting) s) in
        match queue_join (worker_fuel s1) s1 with
        | Returns s2 =>
            let s3 := thread_join (10 # 1)%Q (on_up (queue_put None) s2) in
            Returns (finish_log (say (EvLog LogThreadStopped) s3))
        | Hangs s2 => Hangs s2
        end
  | _ => Returns (finish_log s)
  end.

(** *** Sessions: the producer's calls interleaved with dispatcher steps *)

Inductive Action :=
| ActAddExistingIds (ids : gset string)
| ActUploadBatch (batch : list Item) (page_num : Z)
| ActWorker
| ActAbort.

Definition step (s : State) (a : Action) : State :=
  match a with
  | ActAddExistingIds ids => add_existing_ids ids s
  | ActUploadBatch batch page_num => upload_batch batch page_num s
  | ActWorker => default s (worker_step s)
  | ActAbort => abort s
  end.

Definition run (s : State) (acts : list Action) : State := foldl step s acts.

(** The records handed to [upload_batch] in a list of actions. *)
Definition enqueued (acts : list Action) : list Item :=
  acts ≫= (λ a, match a with ActUploadBatch batch _ => batch | _ => [] end).

End Pipeline.

Arguments Collab E : clear implicits.
Arguments World E : clear implicits.
Arguments State E : clear implicits.
Arguments Completion E : clear implicits.

(** The two parts of a batch, given the identifiers already delivered. *)
Definition duplicates (ids : gset string) (batch : list Item) : list Item :=
  filter (λ item, item_id item ∈ ids) batch.

Definition fresh (ids : gset string) (batch : list Item) : list Item :=
  filter (λ item, item_id item ∉ ids) batch.

(** What the body of the tally loop does with one tuple. *)
Definition tally_one (u : Uploader) (t : UploadTuple) : Uploader :=
  let '(id, ok, added, failed_photos, _) := t in
  if ok : bool then
    set_existing_ids (λ ids, ids ∪ {[ id ]})
      (set_stats (add_photos_failed failed_photos)
         (set_stats (add_photos_added added) (set_stats (add_success 1) u)))
  else set_stats (add_failed 1) u.

(** The tuples the tally loop gets to: those before the first exception. *)
Fixpoint tallied (results : list (Res UploadTuple)) : list UploadTuple :=
  match results with
  | Ok t :: rest => t :: tallied rest
  | _ => []
  end.

Fixpoint first_exc (results : list (Res UploadTuple)) : option pyexn :=
  match results with
  | [] => None
  | Ok _ :: rest => first_exc rest
  | Exc e :: _ => Some e
  end.

Definition tuple_ok (t : UploadTuple) : bool := t.1.1.1.2.

(** The number of delivered records among tuples. *)
Definition delivered (ts : list UploadTuple) : Z :=
  Z.of_nat (length (filter (λ t, tuple_ok t = true) ts)).

(** The fields of the uploader that the tally leaves alone. *)
Definition same_control (u u' : Uploader) : Prop :=
  parallel_workers u' = parallel_workers u ∧
  _session_started u' = _session_started u ∧
  _upload_queue u' = _upload_queue u ∧
  unfinished_tasks u' = unfinished_tasks u ∧
  _upload_thread u' = _upload_thread u ∧
  _stop_event u' = _stop_event u ∧
  in_flight u' = in_flight u.

(** The photo counts of a tuple are not negative. *)
Definition tuple_nonneg (t : UploadTuple) : Prop := 0 ≤ t.1.1.2 ∧ 0 ≤ t.1.2.

(** The upload function reports no negative number of photos on a success
    (the photo counts of a failure are not read). *)
Definition photos_nonneg {E} (c : Collab E) : Prop :=
  ∀ item e added failed_photos err e',
    upload_func c item e = (Returned true added failed_photos err, e') →
    0 ≤ added ∧ 0 ≤ failed_photos.

(** The order of completion is an order of the submitted records. *)
Definition fair_pool {E} (c : Collab E) : Prop :=
  ∀ e l, completion_order c e l ≡ₚ l.

(** No counter of [b] is below its value in [a]: the five counters of
    batches and records, and the two counters of photos. *)
Definition core_le (a b : StreamingStats) : Prop :=
  pages a ≤ pages b ∧ items a ≤ items b ∧ success a ≤ success b ∧
  failed a ≤ failed b ∧ skipped a ≤ skipped b.

Definition photos_le (a b : StreamingStats) : Prop :=
  photos_added a ≤ photos_added b ∧ photos_failed a ≤ photos_failed b.

Definition stats_le (a b : StreamingStats) : Prop := core_le a b ∧ photos_le a b.

(** From [s] to [s'] no counter of batches and records went down and no
    identifier was lost; no counter at all. *)
Definition grows_core {E} (s s' : State E) : Prop :=
  core_le (stats (up s)) (stats (up s')) ∧ _existing_ids (up s) ⊆ _existing_ids (up s').

Definition grows {E} (s s' : State E) : Prop :=
  stats_le (stats (up s)) (stats (up s')) ∧ _existing_ids (up s) ⊆ _existing_ids (up s').

(** The state a blocking call ends in, or is stuck in. *)
Definition final_state {E} (x : Completion E) : State E :=
  match x with Returns s | Hangs s => s end.

(** A change that leaves the statistics alone, loses no identifier and adds
    neither a call of the upload function nor a duplicate mark. *)
Definition quiet {E} (s s' : State E) : Prop :=
  stats (up s') = stats (up s) ∧ _existing_ids (up s) ⊆ _existing_ids (up s') ∧
  ∃ tr, trace (world s') = trace (world s) ++ tr ∧ calls tr = [] ∧ skips tr = [].

(** The records of a queue entry, and the records the pipeline holds:
    those of the task in the dispatcher's hand and those still queued. *)
Definition task_items (x : option Task) : list Item :=
  match x with
  | Some (batch, _) => batch
  | None => []
  end.

Definition pending_items (u : Uploader) : list Item :=
  task_items (in_flight u) ++ (_upload_queue u ≫= task_items).

(** The entries [task_done] has still to be called for, were every
    dispatch to end well. *)
Definition pending_count (u : Uploader) : nat :=
  (length (_upload_queue u) + match in_flight u with Some _ => 1 | None => 0 end)%nat.

(** A record is accounted for in a trace: it was marked as a duplicate or
    the upload function was called for it. *)
Definition accounted (tr : list Event) (item : Item) : Prop :=
  item ∈ skips tr ∨ item ∈ calls tr.

(** The trace of [s'] continues the trace of [s]. *)
Definition extends {E} (s s' : State E) : Prop :=
  ∃ tr, trace (world s') = trace (world s) ++ tr.

(** From [s] to [s'] no identifier was lost and no record was delivered
    whose identifier was known in [s]. *)
Definition never_redelivers {E} (s s' : State E) : Prop :=
  _existing_ids (up s) ⊆ _existing_ids (up s') ∧
  ∃ tr, trace (world s') = trace (world s) ++ tr ∧
        ∀ item, item ∈ calls tr → item_id item ∉ _existing_ids (up s).

(** What holds of the uploader while batches are enqueued and dispatched,
    [seen] being the records enqueued so far: [unfinished_tasks] covers the
    pending entries; when it covers nothing else, every record seen is
    accounted for or pending; nobody asked the dispatcher to stop; and the
    dispatcher runs from the first batch on. *)
Definition session_inv {E} (seen : list Item) (s : State E) : Prop :=
  (pending_count (up s) ≤ unfinished_tasks (up s))%nat ∧
  (unfinished_tasks (up s) = pending_count (up s) →
   ∀ item, item ∈ seen →
     accounted (trace (world s)) item ∨ item ∈ pending_items (up s)) ∧
  _stop_event (up s) = false ∧
  (None ∉ _upload_queue (up s)) ∧
  (if _session_started (up s) then _upload_thread (up s) = Alive
   else seen = [] ∧ _upload_queue (up s) = [] ∧ in_flight (up s) = None ∧
        unfinished_tasks (up s) = 0%nat ∧ _upload_thread (up s) = NoThread).

(** Nothing escapes a dispatch: the sleeps return and so does the progress
    callback. *)
Definition no_escape {E} (c : Collab E) : Prop :=
  (∀ d e, (sleep c d e).1 = None) ∧
  (∀ f st e, on_progress c = Some f → (f st e).1 = None).

(** The upload function delivers every record, whatever the state of the
    environment. *)
Definition always_succeeds {E} (c : Collab E) : Prop :=
  ∀ item e, ∃ added failed_photos err e',
    upload_func c item e = (Returned true added failed_photos err, e').

(** The progress callback, if there is one, returns. *)
Definition progress_returns {E} (c : Collab E) : Prop :=
  ∀ f st e, on_progress c = Some f → (f st e).1 = None.

(** The dispatcher serves: its thread is alive, no stop was requested and
    no poison pill is queued. *)
Definition serving {E} (s : State E) : Prop :=
  _upload_thread (up s) = Alive ∧ _stop_event (up s) = false ∧
  Forall is_Some (_upload_queue (up s)).

(** The actions of a session that only enqueues: no [abort]. *)
Definition enqueues_only (acts : list Action) : Prop :=
  Forall (λ a, a ≠ ActAbort) acts.

(** An extension of the trace in which no record is delivered or marked. *)
Definition idle (tr : list Event) : Prop := calls tr = [] ∧ skips tr = [].

(** The caller blocked at most once, in a [Thread.join] of one second. *)
Definition bounded_wait (tr : list Event) : Prop :=
  waits tr = [] ∨ waits tr = [EvThreadJoin (1 # 1)%Q].

(** What a forced shutdown leaves of the state [s0] it started from: the
    dispatcher has ended or was told to stop, and either nothing was
    dispatched since, or the batch that was in the dispatcher's hand in
    [s0] was, and nothing else. *)
Inductive forced {E} (c : Collab E) (s0 s : State E) : Prop :=
| forced_held tr :
    trace (world s) = trace (world s0) ++ tr → idle tr → bounded_wait tr →
    stats (up s) = stats (up s0) → _existing_ids (up s) = _existing_ids (up s0) →
    in_flight (up s) = in_flight (up s0) →
    (_upload_thread (up s) = Alive → _stop_event (up s) = true) →
    forced c s0 s
| forced_done batch page_num s1 r s2 tr1 tr2 :
    in_flight (up s0) = Some (batch, page_num) →
    trace (world s1) = trace (world s0) ++ tr1 → idle tr1 →
    stats (up s1) = stats (up s0) → _existing_ids (up s1) = _existing_ids (up s0) →
    _upload_batch_sync c batch page_num s1 = (r, s2) →
    trace (world s) = trace (world s2) ++ tr2 → idle tr2 →
    stats (up s) = stats (up s2) →
    bounded_wait (tr1 ++ tr2) →
    in_flight (up s) = None →
    (_upload_thread (up s) = Alive → _stop_event (up s) = true) →
    forced c s0 s.

(** What may have happened between [s0] and [s] when the batches queued
    in [s0] were discarded: the caller blocked at most once, for a second;
    the only records marked or delivered are those of the batch that was in
    the dispatcher's hand in [s0]; the statistics are those of [s0], or
    those of [s0] after the dispatch of that batch. *)
Definition only_in_flight {E} (c : Collab E) (s0 s : State E) : Prop :=
  (∃ tr, trace (world s) = trace (world s0) ++ tr ∧ bounded_wait tr ∧
         ∀ item, item ∈ calls tr ∨ item ∈ skips tr →
                 item ∈ task_items (in_flight (up s0))) ∧
  (in_flight (up s0) = None → stats (up s) = stats (up s0)) ∧
  (stats (up s) = stats (up s0) ∨
   ∃ batch page_num s1 r s2,
     in_flight (up s0) = Some (batch, page_num) ∧
     stats (up s1) = stats (up s0) ∧ _existing_ids (up s1) = _existing_ids (up s0) ∧
     _upload_batch_sync c batch page_num s1 = (r, s2) ∧
     stats (up s) = stats (up s2)).

(** The operations of the pipeline, as changes of its state: the public
    calls and the dispatcher's steps, [finish], the dispatch of one batch,
    the delivery of one record. *)
Inductive pipeline_op {E} (c : Collab E) : State E → State E → Prop :=
| op_step s a : pipeline_op c s (step c s a)
| op_finish s duration force : pipeline_op c s (final_state (finish c duration force s))
| op_batch batch page_num s r s' :
    _upload_batch_sync c batch page_num s = (r, s') → pipeline_op c s s'
| op_one item s : pipeline_op c s (lift (_upload_one c item) s).2.

End Upload.

(** ** runner.py: [TaskRunner.iterate] *)

Module Runner.

(** What the generator and its collaborators do, in order: [next] on the
    underlying iterator (an element, or [None] for [StopIteration]),
    [check_interrupt] (returning, or raising), and a [yield]. *)
Inductive Event (T : Type) :=
| EvNext (x : option T)
| EvCheck (raised : option pyexn)
| EvYield (x : T).
Arguments EvNext {T} x.
Arguments EvCheck {T} raised.
Arguments EvYield {T} x.

(** The elements pulled from the iterator, and the elements yielded. *)
Definition pulls {T} (tr : list (Event T)) : list T :=
  omap (λ ev, match ev with EvNext (Some x) => Some x | _ => None end) tr.

Definition yields {T} (tr : list (Event T)) : list T :=
  omap (λ ev, match ev with EvYield x => Some x | _ => None end) tr.

Definition checks {T} (tr : list (Event T)) : list (option pyexn) :=
  omap (λ ev, match ev with EvCheck r => Some r | _ => None end) tr.

(** What [next(gen)] gives its caller. *)
Inductive NextResult (T : Type) :=
| Yielded (x : T)
| StopIteration
| Raises (e : pyexn).
Arguments Yielded {T} x.
Arguments StopIteration {T}.
Arguments Raises {T} e.

(** The elements among the results of successive [next(gen)] calls. *)
Definition yielded {T} (rs : list (NextResult T)) : list T :=
  omap (λ r, match r with Yielded x => Some x | _ => None end) rs.

(** How a run of [next(gen)] calls ends once the generator has stopped
    yielding: not yet, or with [StopIteration] for good, or with the
    exception of the interrupt check and [StopIteration] ever after. *)
Definition closing {T} (tail : list (NextResult T)) : Prop :=
  tail = [] ∨ (∃ m, tail = replicate (S m) StopIteration) ∨
  (∃ e m, tail = Raises e :: replicate m StopIteration).

(** A generator object: not started, suspended at its [yield], or closed
    (it returned or raised). *)
Inductive GenPhase := GenCreated | GenSuspended | GenClosed.

Section Iterate.

(** The element type, the state of the iterator over [items], and the
    state of the service client. *)
Context {T I C : Type}.

(** [next] on the iterator of [items]: an element and the iterator's new
    state, or [None] when it is exhausted. *)
Variable next_item : I → option (T * I).

(** [self._client.check_interrupt()], of the service client: it returns
    (after waiting while paused), or it raises. *)
Variable check_interrupt : C → option pyexn * C.

(** The slots of [TaskRunner] ([_client] is [client] below). *)
Record TaskRunner := {
  _current_item : option T;
  _items_processed : Z;
}.

(** The runner, its client, and one generator made by [iterate(items)]. *)
Record State := {
  runner : TaskRunner;
  client : C;
  phase : GenPhase;
  source : I;
  trace : list (Event T);
}.

(** [runner.iterate(items)]: a generator object; nothing runs yet. *)
Definition iterate (r : TaskRunner) (cl : C) (items : I) : State :=
  {| runner := r; client := cl; phase := GenCreated; source := items; trace := [] |}.

(** [next(gen)]: the body of [iterate] from where it stands to its next
    [yield], its end, or an exception. *)
Definition gen_next (s : State) : NextResult T * State :=
  match phase s with
  | GenClosed => (StopIteration, s)
  | ph =>
      (* resuming after [yield item]: [self._items_processed += 1] *)
      let r := match ph with
               | GenSuspended =>
                   {| _current_item := _current_item (runner s);
                      _items_processed := _items_processed (runner s) + 1 |}
               | _ => runner s
               end in
      match next_item (source s) with
      | None =>
          (StopIteration,
           {| runner := r; client := client s; phase := GenClosed;
              source := source s; trace := trace s ++ [EvNext None] |})
      | Some (item, src) =>
          match check_interrupt (client s) with
          | (Some e, cl) =>
              (Raises e,
               {| runner := r; client := cl; phase := GenClosed; source := src;
                  trace := trace s ++ [EvNext (Some item); EvCheck (Some e)] |})
          | (None, cl) =>
              (Yielded item,
               {| runner := {| _current_item := Some item;
                               _items_processed := _items_processed r |};
                  client := cl; phase := GenSuspended; source := src;
                  trace := trace s ++ [EvNext (Some item); EvCheck None; EvYield item] |})
          end
      end
  end.

(** [n] calls of [next(gen)] in a row, with their results. *)
Fixpoint nexts (n : nat) (s : State) : list (NextResult T) * State :=
  match n with
  | O => ([], s)
  | S k =>
      let '(r, s1) := gen_next s in
      let '(rs, s2) := nexts k s1 in
      (r :: rs, s2)
  end.

(** The first [n] elements of the iterator, in its order. *)
Fixpoint unroll (n : nat) (i : I) : list T :=
  match n with
  | O => []
  | S k => match next_item i with
           | None => []
           | Some (x, i') => x :: unroll k i'
           end
  end.

(** The shape of a trace in which every [yield] of an element comes right
    after a [check_interrupt] that returned, itself right after the pull of
    that element, and in which nothing follows a raising check or the end
    of the iterator. *)
Inductive checked_trace : list (Event T) → Prop :=
| checked_nil : checked_trace []
| checked_end : checked_trace [EvNext None]
| checked_stop x e : checked_trace [EvNext (Some x); EvCheck (Some e)]
| checked_yield x tr :
    checked_trace tr →
    checked_trace (EvNext (Some x) :: EvCheck None :: EvYield x :: tr).

End Iterate.

Arguments TaskRunner T : clear implicits.
Arguments State T I C : clear implicits.

End Runner.

(** ** Concrete collaborators and records, for the scenarios *)

Module Scenario.
Import Upload.

(** [{"id": id}] *)
Definition record (id : string) : Item := {[ "id" := VStr id ]}.

(** A [time.sleep] that is not interrupted. *)
Definition quiet_sleep {E} (seconds : Q) (e : E) : option pyexn * E := (None, e).

(** A [time.sleep] patched to raise [StopInterrupt]. *)
Definition stopped_sleep {E} (seconds : Q) (e : E) : option pyexn * E :=
  (Some (PyExn "StopInterrupt" "stop requested"), e).

(** An upload function with an undisturbed environment: no progress
    callback, workers completing in submission order. *)
Definition collab_of {E} (f : Item → E → Outcome * E) : Collab E :=
  {| upload_func := f; sleep := quiet_sleep; on_progress := None;
     completion_order := λ _ l, l; done_within := λ _ _, true |}.

Definition always_ok : Collab unit :=
  collab_of (λ _ e, (Returned true 0 0 None, e)).

Definition always_503 : Collab unit :=
  collab_of (λ _ e, (Raised (PyExn "HTTPError" "503 Service Unavailable"), e)).

Definition always_400 : Collab unit :=
  collab_of (λ _ e, (Raised (PyExn "HTTPError" "400 Bad Request"), e)).

(** A message that carries its status code after a hundred characters. *)
Definition late_503_message : string := str_repeat "x" 100 +:+ "503".

Definition late_503 : Collab unit :=
  collab_of (λ _ e, (Raised (PyExn "HTTPError" late_503_message), e)).

(** An upload function that reports one photo less than it had. *)
Definition negative_photos : Collab unit :=
  collab_of (λ _ e, (Returned true (-1) 0 None, e)).

(** Record ["a"] is delivered, with two photos added and one failed;
    every other record is refused, with negative photo counts in the
    answer. *)
Definition refused_negative : Collab unit :=
  collab_of (λ item e,
    if bool_decide (item_id item = "a")
    then (Returned true 2 1 None, e)
    else (Returned false (-1) (-1) (Some "refused"), e)).

(** Record ["a"] meets a 503 and an interrupted back-off sleep; every
    other record is delivered. *)
Definition interrupted : Collab unit :=
  {| upload_func := λ item e,
       if bool_decide (item_id item = "a")
       then (Raised (PyExn "HTTPError" "503 Service Unavailable"), e)
       else (Returned true 0 0 None, e);
     sleep := stopped_sleep; on_progress := None;
     completion_order := λ _ l, l; done_within := λ _ _, true |}.

Definition world0 : World unit := {| env := tt; trace := [] |}.

(** Records "a" and "b" enqueued as one batch, the dispatcher having taken
    the batch in hand. *)
Definition two_records : list Item := [record "a"; record "b"].

Definition in_hand (c : Collab unit) : State unit :=
  run c (new_uploader PARALLEL_WORKERS tt) [ActUploadBatch two_records 0; ActWorker].

(** A session: a batch, a step of the dispatcher, another batch. *)
Definition two_batches : list Action :=
  [ActUploadBatch [record "a"] 1; ActWorker; ActUploadBatch [record "b"] 2].

End Scenario.

(** ** Bookkeeping of sessions *)

Module Tally.
Import Upload.

(** What the retry loop does when every attempt meets a transient error
    and no sleep is interrupted: a call for each attempt, and a back-off
    sleep after each attempt but the last one allowed. *)
Fixpoint retry_script (item : Item) (attempts : list Z) : list Event :=
  match attempts with
  | [] => []
  | attempt :: rest =>
      EvCall item ::
      (if attempt <? MAX_RETRIES - 1
       then EvSleep (RETRY_DELAY * inject_Z (attempt + 1))%Q :: retry_script item rest
       else [])
  end.

(** The identifiers handed to [add_existing_ids] in a list of actions. *)
Definition seeded (acts : list Action) : gset string :=
  ⋃ ((λ a, match a with ActAddExistingIds ids => ids | _ => ∅ end) <$> acts).

(** Some call of the upload function for the record returns success. *)
Definition confirmed {E} (c : Collab E) (item : Item) : Prop :=
  ∃ e added failed_photos err e',
    upload_func c item e = (Returned true added failed_photos err, e').

(** Every identifier of the set is one of [seed] or the identifier of a
    record the upload function was called for and confirmed. *)
Definition ids_justified {E} (c : Collab E) (seed : gset string) (s : State E) : Prop :=
  ∀ id, id ∈ _existing_ids (up s) →
    id ∈ seed ∨
    ∃ item, item_id item = id ∧ item ∈ calls (trace (world s)) ∧ confirmed c item.

(** From [s] to [s'] the upload function was called at most [MAX_RETRIES]
    times for each record added to [items]. *)
Definition within_budget {E} (s s' : State E) : Prop :=
  Z.of_nat (length (calls (trace (world s')))) - Z.of_nat (length (calls (trace (world s))))
    ≤ MAX_RETRIES * (items (stats (up s')) - items (stats (up s))).

(** With a pool size that is not positive in [s], nothing is delivered
    from [s] to [s']. *)
Definition nothing_delivered {E} (s s' : State E) : Prop :=
  parallel_workers (up s) ≤ 0 →
  parallel_workers (up s') ≤ 0 ∧
  calls (trace (world s')) = calls (trace (world s)) ∧
  success (stats (up s')) = success (stats (up s)) ∧
  failed (stats (up s')) = failed (stats (up s)).

(** The seedings of a list of actions are all admitted by [seed_ok]. *)
Definition seeds_ok (seed_ok : gset string → Prop) (acts : list Action) : Prop :=
  ∀ ids, ActAddExistingIds ids ∈ acts → seed_ok ids.

(** An uploader whose session has started and whose dispatcher is not
    running: the state [finish] leaves once the dispatcher has ended. *)
Definition spent {E} (s : State E) : Prop :=
  _session_started (up s) = true ∧ _upload_thread (up s) ≠ Alive.

(** [unfinished_tasks] exceeds the entries that are pending by at least
    [k]: [k] calls of [task_done] are owed and will not be made. *)
Definition slack {E} (k : nat) (s : State E) : Prop :=
  (pending_count (up s) + k ≤ unfinished_tasks (up s))%nat.

(** The batches handed to [upload_batch] that were not empty. *)
Definition batches (acts : list Action) : list (list Item) :=
  omap (λ a, match a with
             | ActUploadBatch (x :: l) _ => Some (x :: l)
             | _ => None
             end) acts.

(** The statistics against what was enqueued, [n_batches] non-empty
    batches holding [n_records] records: every batch is counted in [pages]
    or pending, every record is counted in [items] or [skipped] or pending,
    and the records counted in [items] cover those in [success] and
    [failed], exactly so while no call of [task_done] is owed. *)
Definition ledger {E} (n_batches n_records : nat) (s : State E) : Prop :=
  let st := stats (up s) in
  pages st + Z.of_nat (pending_count (up s)) = Z.of_nat n_batches ∧
  items st + skipped st + Z.of_nat (length (pending_items (up s))) = Z.of_nat n_records ∧
  0 ≤ success st ∧ 0 ≤ failed st ∧ success st + failed st ≤ items st ∧
  (unfinished_tasks (up s) = pending_count (up s) → success st + failed st = items st).

(** The statistics handed to the progress callback, call by call. *)
Definition progress_calls (tr : list Event) : list StreamingStats :=
  omap (λ ev, match ev with EvProgress st => Some st | _ => None end) tr.

End Tally.

(** ** More collaborators and records *)

Module Examples.
Import Upload.

(** An upload function that meets a 503 on its first two calls and
    delivers from the third on; the environment counts the calls. *)
Definition flaky : Collab nat :=
  {| upload_func := λ _ n,
       if (n <? 2)%nat
       then (Raised (PyExn "HTTPError" "503 Service Unavailable"), S n)
       else (Returned true 4 1 None, S n);
     sleep := Scenario.quiet_sleep; on_progress := None;
     completion_order := λ _ l, l; done_within := λ _ _, true |}.

(** An upload function that always succeeds, with a progress callback
    that returns. *)
Definition with_progress : Collab unit :=
  {| upload_func := λ _ e, (Returned true 2 0 None, e);
     sleep := Scenario.quiet_sleep;
     on_progress := Some (λ _ e, (None, e));
     completion_order := λ _ l, l; done_within := λ _ _, true |}.

(** Two records without an ["id"] key. *)
Definition anonymous (url : string) : Item := {[ "url" := VStr url ]}.

(** A session: identifiers seeded, two batches, the dispatcher running
    between the calls. *)
Definition seeded_session : list Action :=
  [ActAddExistingIds {[ "b" ]};
   ActUploadBatch [Scenario.record "a"; Scenario.record "b"] 1; ActWorker; ActWorker;
   ActUploadBatch [Scenario.record "c"] 2].

End Examples.

(** ** cli.py: the interruptible sleep *)

Module Cli.

(** What [_interruptible_sleep] does, in order: calls of
    [_current_monitor.check_interrupt()], which return or raise, and calls
    of [_original_sleep], the [time.sleep] of the standard library. *)
Inductive Event :=
| EvCheck (raised : option pyexn)
| EvSleep (seconds : Q).

(** The durations handed to [_original_sleep], and the checks made. *)
Definition slept (tr : list Event) : list Q :=
  omap (λ ev, match ev with EvSleep d => Some d | _ => None end) tr.

Definition checks (tr : list Event) : list (option pyexn) :=
  omap (λ ev, match ev with EvCheck r => Some r | _ => None end) tr.

(** The sum of a list of durations. *)
Definition total (l : list Q) : Q := foldr Qplus 0%Q l.

(** The trace of a sleep that went through the chunks [chunks], each
    after a check that returned, and ended as [r] says: by returning, or by
    the exception of one more check. *)
Definition polled (chunks : list Q) (r : option pyexn) : list Event :=
  (chunks ≫= (λ d, [EvCheck None; EvSleep d])) ++
  match r with
  | Some e => [EvCheck (Some e)]
  | None => []
  end.

Section Sleep.

Context {E : Type}.

(** [_original_sleep(seconds)] for [seconds >= 0]. *)
Variable _original_sleep : Q → E → E.

Record World := { env : E; trace : list Event }.

(** [min(0.5, remaining)] *)
Definition chunk_of (remaining : Q) : Q :=
  if Qle_bool (1 # 2) remaining then (1 # 2)%Q else remaining.

(** The loop [while remaining > 0] of [_interruptible_sleep], for at most
    [fuel] turns; [None] if the turns run out.  [check] is
    [_current_monitor.check_interrupt].

    [remaining] is a rational where the code has a binary float.  The
    chunk is 0.5 or [remaining] itself, and for a float below 2^52 the
    difference [remaining - chunk] is a float again, so that no turn of
    the loop rounds: the rationals follow the code for every duration
    below 2^52 seconds, and the properties of the loop are stated for
    these durations only.  (From 2^53 on, [remaining - 0.5] rounds back to
    [remaining] and the loop of the code does not end; the model does not
    cover these durations.) *)
Fixpoint sleep_loop (check : E → option pyexn * E) (fuel : nat) (remaining : Q)
    (w : World) : option (option pyexn * World) :=
  if Qle_bool remaining 0 then Some (None, w)
  else
    match fuel with
    | O => None
    | S k =>
        match check (env w) with
        | (Some e, e1) =>
            Some (Some e, {| env := e1; trace := trace w ++ [EvCheck (Some e)] |})
        | (None, e1) =>
            let chunk := chunk_of remaining in
            sleep_loop check k (remaining - chunk)%Q
              {| env := _original_sleep chunk e1;
                 trace := trace w ++ [EvCheck None; EvSleep chunk] |}
        end
    end.

(** The turns the loop can take: one for each half second begun. *)
Definition sleep_turns (seconds : Q) : nat := Z.to_nat (Qceiling (seconds * (2 # 1))).

(** [_interruptible_sleep(seconds)], [_current_monitor] being [None] or a
    monitor, given by its [check_interrupt].  Without a monitor it is the
    original sleep, which raises [ValueError] for a negative duration. *)
Definition _interruptible_sleep (_current_monitor : option (E → option pyexn * E))
    (seconds : Q) (w : World) : option (option pyexn * World) :=
  match _current_monitor with
  | None =>
      if Qle_bool 0 seconds
      then Some (None, {| env := _original_sleep seconds (env w);
                          trace := trace w ++ [EvSleep seconds] |})
      else Some (Some (PyExn "ValueError" "sleep length must be non-negative"), w)
  | Some check => sleep_loop check (sleep_turns seconds) seconds w
  end.

(** [time.sleep] once [_patch_sleep(monitor)] has replaced it. *)
Definition patched_sleep (check : E → option pyexn * E) (seconds : Q) (w : World)
    : option pyexn * World :=
  default (None, w) (_interruptible_sleep (Some check) seconds w).

End Sleep.

Arguments World E : clear implicits.

(** A monitor for which a stop was requested: its check raises. *)
Definition stop_requested : unit → option pyexn * unit :=
  λ e, (Some (PyExn "StopInterrupt" "Stop requested"), e).

(** The collaborators of an uploader that runs with [time.sleep] patched:
    the upload function and the progress callback act on the environment,
    the sleeps go through [_interruptible_sleep]. *)
Definition patched {E} (_original_sleep : Q → E → E) (check : E → option pyexn * E)
    (upload_func : Upload.Item → E → Upload.Outcome * E) : Upload.Collab (World E) :=
  {| Upload.upload_func := λ item w,
       let '(o, e') := upload_func item (env w) in
       (o, {| env := e'; trace := trace w |});
     Upload.sleep := patched_sleep _original_sleep check;
     Upload.on_progress := None;
     Upload.completion_order := λ _ l, l;
     Upload.done_within := λ _ _, true |}.

End Cli.

(** ** base.py: the upload buffer of [BaseParser] *)

Module Base.
Import Upload.

Section Parser.

Context {E : Type}.
Variable c : Collab E.

(** The fields of [BaseParser] that buffer and upload: the class constant
    [UPLOAD_BATCH_SIZE], the [StreamingUploader] the parser was given (or
    [None]) with its state, and the buffer.  [log] holds the arguments of
    the "Upload complete" lines written to the parser's logger. *)
Record BaseParser := {
  UPLOAD_BATCH_SIZE : Z;
  uploader : option (State E);
  _upload_buffer : list Item;
  log : list (Z * Z * Z);
}.

(** [__init__], as far as uploading goes: an empty buffer. *)
Definition new_parser (batch_size : Z) (u : option (State E)) : BaseParser :=
  {| UPLOAD_BATCH_SIZE := batch_size; uploader := u; _upload_buffer := []; log := [] |}.

Definition _flush_upload_buffer (page_num : Z) (p : BaseParser) : BaseParser :=
  match uploader p with
  | None => p
  | Some u =>
      match _upload_buffer p with
      | [] => p
      | _ :: _ =>
          {| UPLOAD_BATCH_SIZE := UPLOAD_BATCH_SIZE p;
             uploader := Some (upload_batch (_upload_buffer p) page_num u);
             _upload_buffer := [];
             log := log p |}
      end
  end.

Definition _upload_item (transformed : Item) (p : BaseParser) : BaseParser :=
  match uploader p with
  | None => p
  | Some _ =>
      let p1 := {| UPLOAD_BATCH_SIZE := UPLOAD_BATCH_SIZE p;
                   uploader := uploader p;
                   _upload_buffer := _upload_buffer p ++ [transformed];
                   log := log p |} in
      if (0 <? UPLOAD_BATCH_SIZE p1)
         && (UPLOAD_BATCH_SIZE p1 <=? Z.of_nat (length (_upload_buffer p1)))
      then _flush_upload_buffer 0 p1
      else p1
  end.

(** [_finish_upload] returns the statistics (or [None] without an
    uploader), or it does not return, [finish] being blocked. *)
Inductive Finished :=
| Done (result : option StreamingStats) (p : BaseParser)
| Blocked (p : BaseParser).

Definition _finish_upload (duration : string) (force : bool) (p : BaseParser) : Finished :=
  let p1 := _flush_upload_buffer 0 p in
  match uploader p1 with
  | Some u =>
      match finish c duration force u with
      | Returns u' =>
          let st := stats (up u') in
          Done (Some st)
               {| UPLOAD_BATCH_SIZE := UPLOAD_BATCH_SIZE p1;
                  uploader := Some u';
                  _upload_buffer := _upload_buffer p1;
                  log := log p1 ++ [(success st, failed st, photos_added st)] |}
      | Hangs u' =>
          Blocked {| UPLOAD_BATCH_SIZE := UPLOAD_BATCH_SIZE p1;
                     uploader := Some u';
                     _upload_buffer := _upload_buffer p1;
                     log := log p1 |}
      end
  | None => Done None p1
  end.

(** What happens to a parser while it runs: a record is handed to
    [_upload_item], the buffer is flushed, or the dispatcher thread of its
    uploader takes a step. *)
Inductive Action :=
| ActUploadItem (transformed : Item)
| ActFlush (page_num : Z)
| ActDispatcher.

Definition step (p : BaseParser) (a : Action) : BaseParser :=
  match a with
  | ActUploadItem transformed => _upload_item transformed p
  | ActFlush page_num => _flush_upload_buffer page_num p
  | ActDispatcher =>
      match uploader p with
      | Some u =>
          {| UPLOAD_BATCH_SIZE := UPLOAD_BATCH_SIZE p;
             uploader := Some (Upload.step c u ActWorker);
             _upload_buffer := _upload_buffer p;
             log := log p |}
      | None => p
      end
  end.

Definition run (p : BaseParser) (acts : list Action) : BaseParser := foldl step p acts.

(** The records handed to [_upload_item] in a list of actions. *)
Definition handed (acts : list Action) : list Item :=
  omap (λ a, match a with ActUploadItem item => Some item | _ => None end) acts.

(** The actions that do not flush by hand. *)
Definition no_flush (acts : list Action) : Prop :=
  Forall (λ a, match a with ActFlush _ => False | _ => True end) acts.

End Parser.

Arguments BaseParser E : clear implicits.
Arguments Finished E : clear implicits.

(** What a parser with batch size [size] and buffer [buffer] asks of its
    uploader during [acts]: the batches it enqueues, and the steps of the
    dispatcher in between. *)
Fixpoint asked (size : Z) (buffer : list Item) (acts : list Action)
    : list Upload.Action :=
  match acts with
  | [] => []
  | ActUploadItem transformed :: rest =>
      let buffer := buffer ++ [transformed] in
      if (0 <? size) && (size <=? Z.of_nat (length buffer))
      then ActUploadBatch buffer 0 :: asked size [] rest
      else asked size buffer rest
  | ActFlush page_num :: rest =>
      match buffer with
      | [] => asked size [] rest
      | _ :: _ => ActUploadBatch buffer page_num :: asked size [] rest
      end
  | ActDispatcher :: rest => ActWorker :: asked size buffer rest
  end.

(** The batches of a list of uploader actions. *)
Definition batches_of (acts : list Upload.Action) : list (list Item) :=
  omap (λ a, match a with ActUploadBatch batch _ => Some batch | _ => None end) acts.

(** A parser at work: three records handed over, the dispatcher taking
    two steps after the second. *)
Definition three_records : list Action :=
  [ActUploadItem (Scenario.record "a"); ActUploadItem (Scenario.record "b");
   ActDispatcher; ActDispatcher; ActUploadItem (Scenario.record "c")].

End Base.

(** ** Facts on strings *)

Module PyFacts.

Lemma prefix_app_r (p s t : string) :
  String.prefix p s = true → String.prefix p (s +:+ t) = true.
Proof.
  revert s. induction p as [|a p IH]; intros [|b s]; simpl; try done.
  - intros _. by destruct t.
  - destruct (Ascii.ascii_dec a b); [apply IH | done].
Qed.

Lemma str_contains_app_r (needle s t : string) :
  str_contains needle s = true → str_contains needle (s +:+ t) = true.
Proof.
  induction s as [|a s IH]; simpl.
  - rewrite orb_false_r. destruct needle; [|done]. intros _. by destruct t.
  - intros [Hp|Hc]%orb_true_iff; apply orb_true_iff.
    + left. by apply (prefix_app_r needle (String a s) t).
    + right. by apply IH.
Qed.

Lemma str_slice_to_app (n : nat) (s : string) :
  ∃ rest, s = str_slice_to n s +:+ rest.
Proof.
  revert s. induction n as [|n IH]; intros s.
  - by exists s.
  - destruct s as [|a s]; [by exists ""|].
    destruct (IH s) as [rest Hrest]. exists rest.
    change (String a s = String a (str_slice_to n s +:+ rest)). by f_equal.
Qed.

(** A marker found in [s[:n]] is found in [s]. *)
Lemma str_contains_slice (needle : string) (n : nat) (s : string) :
  str_contains needle (str_slice_to n s) = true → str_contains needle s = true.
Proof.
  intros H. destruct (str_slice_to_app n s) as [rest Hrest].
  rewrite Hrest. by apply str_contains_app_r.
Qed.

Lemma str_slice_to_slice (n m : nat) (s : string) :
  (n ≤ m)%nat → str_slice_to n (str_slice_to m s) = str_slice_to n s.
Proof.
  revert m s. induction n as [|n IH]; intros m s Hle; [done|].
  destruct m as [|m]; [lia|]. destruct s as [|a s]; [done|].
  simpl. f_equal. apply IH. lia.
Qed.

End PyFacts.

(** ** Properties of the streaming uploader *)

Module UploadSpec.
Import Upload PyFacts.

#[local] Arguments str_slice_to : simpl never.
#[local] Arguments str_contains : simpl never.

Lemma calls_app (tr1 tr2 : list Event) : calls (tr1 ++ tr2) = calls tr1 ++ calls tr2.
Proof. apply omap_app. Qed.

Lemma sleeps_app (tr1 tr2 : list Event) : sleeps (tr1 ++ tr2) = sleeps tr1 ++ sleeps tr2.
Proof. apply omap_app. Qed.

Lemma effects_app (tr1 tr2 : list Event) :
  effects (tr1 ++ tr2) = effects tr1 ++ effects tr2.
Proof. apply omap_app. Qed.

Lemma skips_marks (l : list Item) : skips (EvSkip <$> l) = l.
Proof.
  induction l as [|x l IH]; [done|].
  change (x :: skips (EvSkip <$> l) = x :: l). by rewrite IH.
Qed.

Lemma calls_marks (l : list Item) : calls (EvSkip <$> l) = [].
Proof. by induction l. Qed.

Lemma waits_app (tr1 tr2 : list Event) : waits (tr1 ++ tr2) = waits tr1 ++ waits tr2.
Proof. apply omap_app. Qed.

Lemma waits_marks (l : list Item) : waits (EvSkip <$> l) = [].
Proof. by induction l. Qed.

Lemma skips_app (tr1 tr2 : list Event) : skips (tr1 ++ tr2) = skips tr1 ++ skips tr2.
Proof. apply omap_app. Qed.

Section UploadOne.

Context {E : Type} (c : Collab E).

(** One turn of the retry loop, by what the upload function does. *)
Lemma attempt_returned item id attempt rest last_error w ok added failed_photos error e' :
  upload_func c item (env w) = (Returned ok added failed_photos error, e') →
  attempt_loop c item id (attempt :: rest) last_error w =
    (Ok (LoopReturn (if ok then (id, true, added, failed_photos, None)
                     else (id, false, 0, 0, Some (str_or error "upload failed")))),
     {| env := e'; trace := trace w ++ [EvCall item] |}).
Proof.
  intros Hf. simpl. unfold mbind, M_bind, bind, call_upload. rewrite Hf.
  by destruct ok.
Qed.

Lemma attempt_break item id attempt rest last_error w e e' :
  upload_func c item (env w) = (Raised e, e') →
  is_transient (str_slice_to 100 (exn_message e)) = false ∨ MAX_RETRIES - 1 ≤ attempt →
  attempt_loop c item id (attempt :: rest) last_error w =
    (Ok (LoopBreak (Some (str_slice_to 100 (exn_message e)))),
     {| env := e'; trace := trace w ++ [EvCall item] |}).
Proof.
  intros Hf Hstop. simpl. unfold mbind, M_bind, bind, call_upload. rewrite Hf.
  destruct (is_transient _) eqn:Ht; [|done].
  destruct Hstop as [|Hlast]; [done|].
  by rewrite (proj2 (Z.ltb_ge _ _) Hlast).
Qed.

Lemma attempt_retry item id attempt rest last_error w e e' e'' :
  upload_func c item (env w) = (Raised e, e') →
  is_transient (str_slice_to 100 (exn_message e)) = true →
  attempt < MAX_RETRIES - 1 →
  sleep c (RETRY_DELAY * inject_Z (attempt + 1))%Q e' = (None, e'') →
  attempt_loop c item id (attempt :: rest) last_error w =
    attempt_loop c item id rest (Some (str_slice_to 100 (exn_message e)))
      {| env := e'';
         trace := trace w ++ [EvCall item; EvLog (LogRetry id (attempt + 1) MAX_RETRIES);
                              EvSleep (RETRY_DELAY * inject_Z (attempt + 1))%Q] |}.
Proof.
  intros Hf Ht Hlt Hs. simpl.
  unfold mbind, M_bind, bind, call_upload, log, emit, time_sleep. rewrite Hf, Ht.
  rewrite (proj2 (Z.ltb_lt _ _) Hlt). simpl. rewrite Hs. simpl.
  by rewrite <- !app_assoc.
Qed.

Lemma attempt_interrupted item id attempt rest last_error w e e' x e'' :
  upload_func c item (env w) = (Raised e, e') →
  is_transient (str_slice_to 100 (exn_message e)) = true →
  attempt < MAX_RETRIES - 1 →
  sleep c (RETRY_DELAY * inject_Z (attempt + 1))%Q e' = (Some x, e'') →
  attempt_loop c item id (attempt :: rest) last_error w =
    (Exc x,
     {| env := e'';
        trace := trace w ++ [EvCall item; EvLog (LogRetry id (attempt + 1) MAX_RETRIES);
                             EvSleep (RETRY_DELAY * inject_Z (attempt + 1))%Q] |}).
Proof.
  intros Hf Ht Hlt Hs. simpl.
  unfold mbind, M_bind, bind, call_upload, log, emit, time_sleep. rewrite Hf, Ht.
  rewrite (proj2 (Z.ltb_lt _ _) Hlt). simpl. rewrite Hs. simpl.
  by rewrite <- !app_assoc.
Qed.

Lemma py_range_MAX_RETRIES : py_range MAX_RETRIES = [0; 1; 2].
Proof. reflexivity. Qed.

(** A failed tuple, once tallied, adds one to [failed] and nothing else. *)
Lemma tally_failed id error (b : Z) (s : State E) :
  tally_loop [Ok (id, false, 0, 0, error)] b s = (Ok b, on_up (set_stats (add_failed 1)) s).
Proof. reflexivity. Qed.

(** A terminal first attempt: one call, no sleep, a failed tuple. *)
Lemma upload_one_terminal item w o e' :
  upload_func c item (env w) = (o, e') →
  match o with
  | Raised e => is_transient (str_slice_to 100 (exn_message e)) = false
  | Returned ok _ _ _ => ok = false
  end →
  ∃ error w',
    _upload_one c item w = (Ok (item_id item, false, 0, 0, error), w') ∧
    env w' = e' ∧
    effects (trace w') = effects (trace w) ++ [EvCall item] ∧
    match o with
    | Raised e => error = Some (str_slice_to 100 (exn_message e))
    | Returned _ _ _ err => error = Some (str_or err "upload failed")
    end.
Proof.
  intros Hf Ho. unfold _upload_one. rewrite py_range_MAX_RETRIES.
  unfold mbind at 1, M_bind at 1, bind at 1.
  destruct o as [ok added failed_photos error|e].
  - subst ok. erewrite attempt_returned by exact Hf.
    eexists _, _. split; [reflexivity|]. simpl.
    by rewrite effects_app.
  - erewrite attempt_break; [|exact Hf|by left].
    eexists _, _. split; [reflexivity|]. simpl.
    rewrite !effects_app. simpl. by rewrite app_nil_r.
Qed.

Lemma not_transient_slice (n : nat) (msg : string) :
  is_transient msg = false → is_transient (str_slice_to n msg) = false.
Proof.
  unfold is_transient. intros H.
  apply orb_false_iff in H as [[H2 H3]%orb_false_iff H4].
  repeat (apply orb_false_iff; split);
    (apply not_true_is_false; intros Hc%str_contains_slice; congruence).
Qed.

(** Three transient failures in a row, with back-off sleeps that return:
    the whole trace of [_upload_one]. *)
Lemma upload_one_exhausted item w :
  (∀ e, ∃ x e', upload_func c item e = (Raised x, e') ∧
                is_transient (str_slice_to 100 (exn_message x)) = true) →
  (∀ d e, (sleep c d e).1 = None) →
  ∃ error w',
    _upload_one c item w = (Ok (item_id item, false, 0, 0, Some error), w') ∧
    trace w' = trace w ++
      [EvCall item; EvLog (LogRetry (item_id item) 1 MAX_RETRIES);
       EvSleep (RETRY_DELAY * inject_Z 1)%Q;
       EvCall item; EvLog (LogRetry (item_id item) 2 MAX_RETRIES);
       EvSleep (RETRY_DELAY * inject_Z 2)%Q;
       EvCall item; EvLog (LogUploadError (item_id item) (Some error))].
Proof.
  intros Hf Hs. unfold _upload_one. rewrite py_range_MAX_RETRIES.
  unfold mbind at 1, M_bind at 1, bind at 1.
  destruct (Hf (env w)) as (x1 & e1 & Hf1 & Ht1).
  destruct (sleep c (RETRY_DELAY * inject_Z (0 + 1))%Q e1) as [r1 e1'] eqn:Hs1.
  pose proof (Hs (RETRY_DELAY * inject_Z (0 + 1))%Q e1) as Hr1.
  rewrite Hs1 in Hr1. simpl in Hr1. subst r1.
  erewrite attempt_retry; [|exact Hf1|exact Ht1|done|exact Hs1].
  destruct (Hf e1') as (x2 & e2 & Hf2 & Ht2).
  destruct (sleep c (RETRY_DELAY * inject_Z (1 + 1))%Q e2) as [r2 e2'] eqn:Hs2.
  pose proof (Hs (RETRY_DELAY * inject_Z (1 + 1))%Q e2) as Hr2.
  rewrite Hs2 in Hr2. simpl in Hr2. subst r2.
  erewrite attempt_retry; [|exact Hf2|exact Ht2|done|exact Hs2].
  destruct (Hf e2') as (x3 & e3 & Hf3 & Ht3).
  erewrite attempt_break; [|exact Hf3|by right].
  eexists _, _. split; [reflexivity|]. simpl.
  by rewrite <- !app_assoc.
Qed.

(** C2, amended.  When every call of the upload function for a record
    raises an exception whose message carries "502", "503" or "504" within
    its first 100 characters, and the back-off sleeps return, [_upload_one]
    calls the upload function exactly [MAX_RETRIES] = 3 times for the
    record, sleeping [RETRY_DELAY * k] before the k-th retry; the tuple it
    returns is a failure, which the tally of [_upload_batch_sync] counts by
    adding one to [failed] and nothing to [success]. *)
Theorem upload_one_retry_bound item w :
  (∀ e, ∃ x e', upload_func c item e = (Raised x, e') ∧
                is_transient (str_slice_to 100 (exn_message x)) = true) →
  (∀ d e, (sleep c d e).1 = None) →
  ∃ error w',
    _upload_one c item w = (Ok (item_id item, false, 0, 0, Some error), w') ∧
    calls (trace w') = calls (trace w) ++ replicate (Z.to_nat MAX_RETRIES) item ∧
    effects (trace w') = effects (trace w) ++
      [EvCall item; EvSleep (RETRY_DELAY * inject_Z 1)%Q;
       EvCall item; EvSleep (RETRY_DELAY * inject_Z 2)%Q;
       EvCall item] ∧
    ∀ (s : State E) b,
      ∃ s', tally_loop [Ok (item_id item, false, 0, 0, Some error)] b s = (Ok b, s') ∧
            failed (stats (up s')) = failed (stats (up s)) + 1 ∧
            success (stats (up s')) = success (stats (up s)).
Proof.
  intros Hf Hs. destruct (upload_one_exhausted item w Hf Hs) as (error & w' & Hrun & Htr).
  exists error, w'. split; [exact Hrun|]. rewrite Htr, calls_app, effects_app.
  repeat split; try reflexivity.
  intros s b. eexists. by rewrite tally_failed.
Qed.

(** C3.  When the upload function raises an exception whose message holds
    none of "502", "503", "504", or returns [success = False], [_upload_one]
    has called it exactly once for the record, without sleeping or retrying;
    the tuple it returns is a failure, which the tally counts by adding one
    to [failed]. *)
Theorem upload_one_no_retry item w o e' :
  upload_func c item (env w) = (o, e') →
  match o with
  | Raised e => is_transient (exn_message e) = false
  | Returned ok _ _ _ => ok = false
  end →
  ∃ error w',
    _upload_one c item w = (Ok (item_id item, false, 0, 0, error), w') ∧
    calls (trace w') = calls (trace w) ++ [item] ∧
    effects (trace w') = effects (trace w) ++ [EvCall item] ∧
    ∀ (s : State E) b,
      ∃ s', tally_loop [Ok (item_id item, false, 0, 0, error)] b s = (Ok b, s') ∧
            failed (stats (up s')) = failed (stats (up s)) + 1 ∧
            success (stats (up s')) = success (stats (up s)).
Proof.
  intros Hf Ho.
  destruct (upload_one_terminal item w o e' Hf) as (error & w' & Hrun & _ & Heff & _).
  { destruct o; [done|]. by apply not_transient_slice. }
  exists error, w'. split; [exact Hrun|]. split; [|split; [exact Heff|]].
  - unfold _upload_one in Hrun. rewrite py_range_MAX_RETRIES in Hrun.
    unfold mbind at 1, M_bind at 1, bind at 1 in Hrun.
    destruct o as [ok added failed_photos err|e].
    + subst ok. erewrite attempt_returned in Hrun by exact Hf.
      injection Hrun as _ <-. simpl. by rewrite calls_app.
    + erewrite attempt_break in Hrun; [|exact Hf|left; by apply not_transient_slice].
      injection Hrun as _ <-. simpl. rewrite !calls_app. simpl. by rewrite app_nil_r.
  - intros s b. eexists. by rewrite tally_failed.
Qed.

(** C10.  The retry test reads the first 100 characters of the message
    only.  A message holds a marker only at or after position 100 when it
    holds one and its first 102 characters hold none (an occurrence that
    starts before position 100 ends before position 102); there is such a
    message, and for every exception with such a message the record is not
    retried: the upload function is called exactly once and the tuple is a
    failure that carries the truncated message. *)
Theorem retry_test_reads_first_100 :
  (∃ msg, is_transient msg = true ∧ is_transient (str_slice_to 102 msg) = false) ∧
  ∀ item w x e',
    is_transient (exn_message x) = true →
    is_transient (str_slice_to 102 (exn_message x)) = false →
    upload_func c item (env w) = (Raised x, e') →
    ∃ w',
      _upload_one c item w =
        (Ok (item_id item, false, 0, 0, Some (str_slice_to 100 (exn_message x))), w') ∧
      effects (trace w') = effects (trace w) ++ [EvCall item].
Proof.
  split.
  - exists Scenario.late_503_message. by vm_compute.
  - intros item w x e' _ Hlate Hf.
    destruct (upload_one_terminal item w (Raised x) e' Hf) as (error & w' & Hrun & _ & Heff & ->).
    { rewrite <- (str_slice_to_slice 100 102) by lia. by apply not_transient_slice. }
    by exists w'.
Qed.

End UploadOne.

(** *** One batch *)

Lemma set_stats_add_skipped_0 (u : Uploader) : set_stats (add_skipped 0) u = u.
Proof.
  destruct u as [? st ? ? ? ? ? ? ?]. destruct st. unfold set_stats, add_skipped. simpl.
  by rewrite Z.add_0_r.
Qed.

Lemma set_stats_add_skipped_twice (a b : Z) (u : Uploader) :
  set_stats (add_skipped a) (set_stats (add_skipped b) u) = set_stats (add_skipped (b + a)) u.
Proof.
  destruct u as [? st ? ? ? ? ? ? ?]. destruct st. unfold set_stats, add_skipped. simpl.
  by rewrite Z.add_assoc.
Qed.

Lemma tally_one_spec (u : Uploader) (t : UploadTuple) :
  let u' := tally_one u t in
  same_control u u' ∧
  pages (stats u') = pages (stats u) ∧
  items (stats u') = items (stats u) ∧
  skipped (stats u') = skipped (stats u) ∧
  success (stats u') = success (stats u) + delivered [t] ∧
  failed (stats u') = failed (stats u) + (1 - delivered [t]) ∧
  photos_added (stats u') = photos_added (stats u) + (if tuple_ok t then t.1.1.2 else 0) ∧
  photos_failed (stats u') = photos_failed (stats u) + (if tuple_ok t then t.1.2 else 0) ∧
  _existing_ids u' = _existing_ids u ∪ (if tuple_ok t then {[ t.1.1.1.1 ]} else ∅).
Proof.
  destruct t as [[[[id ok] added] failed_photos] error]. destruct u as [? st ? ? ? ? ? ? ?].
  destruct st. destruct ok; unfold same_control, delivered; simpl;
    (split; [done|]); do 7 (split; [lia|]); [done|by rewrite (right_id_L ∅ (∪))].
Qed.

Lemma foldl_tally_spec (ts : list UploadTuple) (u : Uploader) :
  let u' := foldl tally_one u ts in
  same_control u u' ∧
  pages (stats u') = pages (stats u) ∧
  items (stats u') = items (stats u) ∧
  skipped (stats u') = skipped (stats u) ∧
  success (stats u') = success (stats u) + delivered ts ∧
  failed (stats u') = failed (stats u) + (Z.of_nat (length ts) - delivered ts) ∧
  (Forall tuple_nonneg ts →
     photos_added (stats u) ≤ photos_added (stats u') ∧
     photos_failed (stats u) ≤ photos_failed (stats u')) ∧
  _existing_ids u ⊆ _existing_ids u' ∧
  (∀ id, id ∈ _existing_ids u' →
     id ∈ _existing_ids u ∨ ∃ t, t ∈ ts ∧ tuple_ok t = true ∧ t.1.1.1.1 = id).
Proof.
  revert u. induction ts as [|t ts IH]; intros u.
  - unfold same_control, delivered. simpl.
    split; [done|]. do 5 (split; [lia|]). split; [intros _; lia|]. split; [done|]. by left.
  - cbn [foldl]. specialize (IH (tally_one u t)). cbv zeta in IH.
    destruct IH as (Hc & Hp & Hi & Hk & Hs & Hf & Hph & Hsub & Hnew).
    destruct (tally_one_spec u t) as (Hc1 & Hp1 & Hi1 & Hk1 & Hs1 & Hf1 & Hpa1 & Hpf1 & Hid1).
    assert (Hd : delivered (t :: ts) = delivered [t] + delivered ts).
    { unfold delivered. rewrite !filter_cons, filter_nil.
      destruct (decide (tuple_ok t = true)); simpl; lia. }
    cbv zeta. unfold same_control in *. rewrite Hd. cbn [length].
    split; [intuition congruence|]. do 5 (split; [lia|]). split; [|split].
    + intros [Ht Hts]%Forall_cons. destruct (Hph Hts) as [Ha Hb].
      destruct Ht as [Ht1 Ht2]. destruct (tuple_ok t); split; lia.
    + intros x Hx. apply Hsub. rewrite Hid1. apply elem_of_union. by left.
    + intros id [Hin|(t' & ? & ? & ?)]%Hnew.
      * rewrite Hid1 in Hin. destruct (tuple_ok t) eqn:Hok.
        -- apply elem_of_union in Hin as [Hin| ->%elem_of_singleton]; [by left|].
           right. exists t. split; [by left|done].
        -- left. by rewrite (right_id_L ∅ (∪)) in Hin.
      * right. exists t'. split; [by right|done].
Qed.

Section Batch.

Context {E : Type} (c : Collab E).

(** The filter loop splits the batch by the identifiers known when it
    starts: the duplicates are counted and marked, the rest is kept in
    order. *)
Lemma filter_loop_spec (batch to_upload : list Item) (k : Z) (s : State E) :
  filter_loop batch to_upload k s =
    (Ok (to_upload ++ fresh (_existing_ids (up s)) batch,
         k + Z.of_nat (length (duplicates (_existing_ids (up s)) batch))),
     {| up := set_stats (add_skipped (Z.of_nat (length (duplicates (_existing_ids (up s)) batch))))
                        (up s);
        world := {| env := env (world s);
                    trace := trace (world s)
                               ++ (EvSkip <$> duplicates (_existing_ids (up s)) batch) |} |}).
Proof.
  revert to_upload k s. induction batch as [|item rest IH]; intros to_upload k s.
  - simpl. rewrite set_stats_add_skipped_0, !app_nil_r, Z.add_0_r.
    by destruct s as [u [e tr]].
  - cbn [filter_loop]. unfold fresh, duplicates. rewrite !filter_cons.
    unfold mbind at 1, M_bind at 1, bind at 1, gets at 1, _should_skip.
    destruct (decide (item_id item ∈ _existing_ids (up s))) as [Hin|Hnin].
    + rewrite bool_decide_true by done. rewrite decide_False by (intros Hc; by apply Hc).
      unfold mbind at 1, M_bind at 1, bind at 1, modify_up at 1.
      unfold mbind at 1, M_bind at 1, bind at 1, lift at 1, emit at 1.
      cbn [world up env trace]. rewrite IH. cbn [world up env trace _existing_ids set_stats].
      fold (duplicates (_existing_ids (up s)) rest) (fresh (_existing_ids (up s)) rest).
      rewrite set_stats_add_skipped_twice. cbn [length fmap list_fmap].
      rewrite <- app_assoc, Nat2Z.inj_succ, <- Z.add_1_l, Z.add_assoc. reflexivity.
    + rewrite bool_decide_false by done. rewrite decide_True by done.
      rewrite IH. rewrite <- app_assoc. done.
Qed.

(** The tally loop applies [tally_one] to the tuples before the first
    exception, which it re-raises. *)
Lemma tally_loop_spec (results : list (Res UploadTuple)) (b : Z) (s : State E) :
  tally_loop results b s =
    (match first_exc results with
     | Some e => Exc e
     | None => Ok (b + delivered (tallied results))
     end,
     on_up (λ u, foldl tally_one u (tallied results)) s).
Proof.
  revert b s. induction results as [|[t|e] rest IH]; intros b s.
  - simpl. unfold delivered. simpl. rewrite Z.add_0_r. by destruct s.
  - destruct t as [[[[id ok] added] failed_photos] error].
    cbn [tally_loop first_exc tallied foldl]. destruct ok.
    + unfold mbind, M_bind, bind, modify_up. rewrite IH.
      unfold on_up, delivered. cbn [up world tally_one]. rewrite filter_cons.
      unfold tuple_ok at 2 4. cbn [fst snd]. rewrite decide_True by done.
      destruct (first_exc rest); [done|].
      cbn [length]. by rewrite Nat2Z.inj_succ, <- Z.add_1_l, Z.add_assoc.
    + unfold mbind, M_bind, bind, modify_up. rewrite IH.
      unfold on_up, delivered. cbn [up world tally_one]. rewrite filter_cons.
      unfold tuple_ok at 2 4. cbn [fst snd]. rewrite decide_False by done.
      done.
  - by destruct s.
Qed.

(** What the retry loop leaves in the trace: calls for its record only,
    at least one if there is an attempt to make, and no duplicate mark. *)
Lemma attempt_loop_spec item id attempts last_error (w : World E) r w' :
  attempt_loop c item id attempts last_error w = (r, w') →
  ∃ tr n,
    trace w' = trace w ++ tr ∧
    skips tr = [] ∧ waits tr = [] ∧ calls tr = replicate n item ∧
    (attempts ≠ [] → (0 < n)%nat) ∧
    match r with
    | Ok (LoopReturn t) => t.1.1.1.1 = id
    | _ => True
    end.
Proof.
  revert last_error w. induction attempts as [|attempt rest IH]; intros last_error w.
  - intros [= <- <-]. exists [], 0%nat. simpl. by rewrite app_nil_r.
  - cbn [attempt_loop]. unfold mbind at 1, M_bind at 1, bind at 1, call_upload at 1.
    destruct (upload_func c item (env w)) as [[ok added failed_photos error|e] e'] eqn:Hf.
    + intros Hrun. exists [EvCall item], 1%nat.
      destruct ok; injection Hrun as <- <-; simpl; repeat split; done || (intros; lia).
    + destruct (is_transient _) eqn:Ht; [destruct (attempt <? MAX_RETRIES - 1) eqn:Hlt|].
      * unfold mbind at 1, M_bind at 1, bind at 1, log at 1, emit at 1.
        unfold mbind at 1, M_bind at 1, bind at 1, time_sleep at 1. cbn [env trace].
        destruct (sleep c _ e') as [[x|] e''] eqn:Hs.
        -- intros [= <- <-]. eexists _, 1%nat. cbn [trace]. rewrite <- !app_assoc.
           split; [reflexivity|]. repeat split; done || (intros; lia).
        -- intros Hrun. apply IH in Hrun as (tr & n & Htr & Hsk & Hwt & Hc & _ & Hid).
           exists ([EvCall item; EvLog (LogRetry id (attempt + 1) MAX_RETRIES);
                    EvSleep (RETRY_DELAY * inject_Z (attempt + 1))%Q] ++ tr), (S n).
           rewrite Htr. cbn [trace]. rewrite <- !app_assoc.
           split; [reflexivity|]. rewrite skips_app, waits_app, calls_app, Hsk, Hwt, Hc.
           repeat split; done || (intros; lia).
      * intros [= <- <-]. exists [EvCall item], 1%nat.
        simpl; repeat split; done || (intros; lia).
      * intros [= <- <-]. exists [EvCall item], 1%nat.
        simpl; repeat split; done || (intros; lia).
Qed.

(** A worker calls the upload function for its record, at least once, and
    for no other; its tuple carries the record's identifier. *)
Lemma upload_one_spec item (w : World E) r w' :
  _upload_one c item w = (r, w') →
  ∃ tr n,
    trace w' = trace w ++ tr ∧
    skips tr = [] ∧ waits tr = [] ∧ calls tr = replicate (S n) item ∧
    match r with
    | Ok t => t.1.1.1.1 = item_id item
    | Exc _ => True
    end.
Proof.
  unfold _upload_one. rewrite py_range_MAX_RETRIES.
  unfold mbind at 1, M_bind at 1, bind at 1.
  destruct (attempt_loop c item (item_id item) [0; 1; 2] None w) as [[[t|le]|e] w1] eqn:Hloop;
    apply attempt_loop_spec in Hloop as (tr & n & Htr & Hsk & Hwt & Hc & Hn & Hid);
    specialize (Hn ltac:(done)); destruct n as [|n]; try lia.
  - intros [= <- <-]. by exists tr, n.
  - unfold mbind, M_bind, bind, log, emit. intros [= <- <-].
    exists (tr ++ [EvLog (LogUploadError (item_id item) le)]), n. cbn [trace].
    rewrite Htr, <- app_assoc, skips_app, waits_app, calls_app, Hsk, Hwt, Hc. simpl.
    by rewrite app_nil_r.
  - intros [= <- <-]. by exists tr, n.
Qed.

(** The workers of a batch call the upload function for exactly the
    records they were given, and return one result per record. *)
Lemma run_workers_spec (order : list Item) (w : World E) rs w' :
  run_workers c order w = (rs, w') →
  ∃ tr,
    trace w' = trace w ++ tr ∧
    skips tr = [] ∧ waits tr = [] ∧
    (∀ item, item ∈ calls tr ↔ item ∈ order) ∧
    length rs = length order.
Proof.
  revert w rs w'. induction order as [|item rest IH]; intros w rs w'.
  - intros [= <- <-]. exists []. simpl. rewrite app_nil_r. repeat split; try done; set_solver.
  - cbn [run_workers].
    destruct (_upload_one c item w) as [r w1] eqn:Hone.
    destruct (run_workers c rest w1) as [rs' w2] eqn:Hrest.
    intros [= <- <-].
    apply upload_one_spec in Hone as (tr1 & n & Htr1 & Hsk1 & Hwt1 & Hc1 & _).
    apply IH in Hrest as (tr2 & Htr2 & Hsk2 & Hwt2 & Hc2 & Hlen).
    exists (tr1 ++ tr2). rewrite Htr2, Htr1, <- app_assoc.
    rewrite skips_app, waits_app, calls_app, Hsk1, Hsk2, Hwt1, Hwt2, Hc1.
    repeat split; try done; [| |simpl; by rewrite Hlen].
    + intros [Hin|Hin]%elem_of_app.
      * apply elem_of_replicate in Hin as [-> _]. by left.
      * right. by apply Hc2.
    + intros [->|Hin]%elem_of_cons; apply elem_of_app.
      * left. simpl. by left.
      * right. by apply Hc2.
Qed.

Lemma match_nonempty {A B} (l : list A) (a b : B) :
  l ≠ [] → match l with [] => a | _ :: _ => b end = b.
Proof. by destruct l. Qed.

Lemma when_log (b : bool) (l : LogLine) (s : State E) :
  when b (lift (log l)) s =
    (Ok tt, {| up := up s;
               world := {| env := env (world s);
                           trace := trace (world s) ++ (if b then [EvLog l] else []) |} |}).
Proof. destruct b; [done|]. destruct s as [u [e tr]]. simpl. by rewrite app_nil_r. Qed.

Lemma call_on_progress_spec (s : State E) r s' :
  call_on_progress c s = (r, s') →
  up s' = up s ∧
  (∃ tr, trace (world s') = trace (world s) ++ tr ∧ skips tr = [] ∧ waits tr = [] ∧
         calls tr = []) ∧
  (r = Ok tt ∨ ∃ f st e x e', on_progress c = Some f ∧ f st e = (Some x, e') ∧ r = Exc x).
Proof.
  unfold call_on_progress. destruct (on_progress c) as [f|].
  - destruct (f _ _) as [[e|] e'] eqn:Hf; intros [= <- <-]; (split; [done|]);
      (split; [by exists [EvProgress (stats (up s))]|]); [right|by left].
    by eexists f, _, _, e, e'.
  - intros [= <- <-]. split; [done|]. split; [|by left]. exists []. by rewrite app_nil_r.
Qed.

Lemma set_stats_set_stats (f g : StreamingStats → StreamingStats) (u : Uploader) :
  set_stats f (set_stats g u) = set_stats (λ st, f (g st)) u.
Proof. by destruct u. Qed.

Lemma add_items_0 (st : StreamingStats) : add_items 0 st = st.
Proof. destruct st. unfold add_items. simpl. by rewrite Z.add_0_r. Qed.

(** The dispatch of a batch with a record to deliver and a pool of
    positive size, as one equation: the workers run from the world the
    filter loop left, their tuples are tallied up to the first exception,
    and only a tally that got to its end is followed by the page line and
    the progress callback. *)
Lemma batch_sync_unfold (batch : list Item) (page_num : Z) (s : State E) :
  let ids := _existing_ids (up s) in
  let to_upload := fresh ids batch in
  let dups := duplicates ids batch in
  let u1 := set_stats (λ st, add_items (Z.of_nat (length to_upload))
                               (add_skipped (Z.of_nat (length dups)) (add_pages 1 st)))
                      (up s) in
  let w0 := {| env := env (world s);
               trace := trace (world s) ++ (EvSkip <$> dups) ++
                        (if 0 <? page_num
                         then [EvLog (LogPageUploading page_num (length to_upload))]
                         else []) |} in
  to_upload ≠ [] → 0 < parallel_workers (up s) →
  _upload_batch_sync c batch page_num s =
    let '(rs, w1) := run_workers c (completion_order c (env (world s)) to_upload) w0 in
    let u2 := foldl tally_one u1 (tallied rs) in
    match first_exc rs with
    | Some e => (Exc e, {| up := u2; world := w1 |})
    | None =>
        let v := delivered (tallied rs) in
        let w2 := {| env := env w1;
                     trace := trace w1 ++
                       (if 0 <? page_num
                        then [EvLog (LogPageDone page_num v (Z.of_nat (length dups)))]
                        else []) |} in
        match call_on_progress c {| up := u2; world := w2 |} with
        | (Ok _, sp) => (Ok v, sp)
        | (Exc x, sp) => (Exc x, sp)
        end
    end.
Proof.
  intros ids to_upload dups u1 w0 Hfr Hpw. unfold _upload_batch_sync.
  unfold mbind at 1, M_bind at 1, bind at 1, modify_up at 1.
  unfold mbind at 1, M_bind at 1, bind at 1.
  rewrite filter_loop_spec. cbn [up world _existing_ids set_stats app].
  fold ids to_upload dups. rewrite set_stats_set_stats.
  rewrite (match_nonempty _ _ _ Hfr).
  unfold mbind at 1, M_bind at 1, bind at 1, modify_up at 1.
  unfold mbind at 1, M_bind at 1, bind at 1. rewrite when_log.
  cbn [up world env trace]. rewrite set_stats_set_stats.
  unfold mbind at 1, M_bind at 1, bind at 1, thread_pool at 1.
  cbn [up world env trace parallel_workers set_stats].
  rewrite (proj2 (Z.leb_gt _ _) Hpw). rewrite <- app_assoc. fold u1 w0.
  destruct (run_workers c _ w0) as [rs w1] eqn:Hw.
  unfold mbind at 1, M_bind at 1, bind at 1. rewrite tally_loop_spec.
  unfold on_up. cbn [up world].
  destruct (first_exc rs) as [e|] eqn:Hexc; [done|].
  unfold mbind at 1, M_bind at 1, bind at 1. rewrite when_log.
  unfold mbind at 1, M_bind at 1, bind at 1. cbn [up world env trace].
  rewrite !Z.add_0_l.
  destruct (call_on_progress c _) as [[[]|x] sp]; done.
Qed.

Lemma batch_sync_spec (batch : list Item) (page_num : Z) (s : State E) r s' :
  _upload_batch_sync c batch page_num s = (r, s') →
  let ids := _existing_ids (up s) in
  let order := completion_order c (env (world s)) (fresh ids batch) in
  ∃ rs tr,
    up s' = foldl tally_one
              (set_stats (λ st, add_items (Z.of_nat (length (fresh ids batch)))
                                  (add_skipped (Z.of_nat (length (duplicates ids batch)))
                                     (add_pages 1 st))) (up s))
              (tallied rs) ∧
    trace (world s') = trace (world s) ++ (EvSkip <$> duplicates ids batch) ++ tr ∧
    (skips tr = [] ∧ waits tr = []) ∧
    (∀ v, r = Ok v → first_exc rs = None ∧ v = delivered (tallied rs)) ∧
    (∀ e, first_exc rs = Some e → r = Exc e) ∧
    ((fresh ids batch = [] ∧ rs = [] ∧ calls tr = [] ∧ r = Ok 0)
     ∨ (fresh ids batch ≠ [] ∧ parallel_workers (up s) ≤ 0 ∧ rs = [] ∧ calls tr = []
        ∧ ∃ e, r = Exc e)
     ∨ (fresh ids batch ≠ [] ∧ 0 < parallel_workers (up s) ∧
        (∃ w0 w1, run_workers c order w0 = (rs, w1)) ∧
        length rs = length order ∧ (∀ item, item ∈ calls tr ↔ item ∈ order) ∧
        (first_exc rs = None →
           (∃ v, r = Ok v) ∨
           ∃ f st e x e', on_progress c = Some f ∧ f st e = (Some x, e') ∧ r = Exc x))).
Proof.
  intros Hrun ids order. unfold _upload_batch_sync in Hrun.
  unfold mbind at 1, M_bind at 1, bind at 1, modify_up at 1 in Hrun.
  unfold mbind at 1, M_bind at 1, bind at 1 in Hrun.
  rewrite filter_loop_spec in Hrun. cbn [up world _existing_ids set_stats app] in Hrun.
  fold ids in Hrun. rewrite set_stats_set_stats in Hrun.
  destruct (decide (fresh ids batch = [])) as [Hfr|Hfr].
  - rewrite Hfr in Hrun |- *.
    unfold mbind at 1, M_bind at 1, bind at 1 in Hrun. rewrite when_log in Hrun.
    injection Hrun as <- <-. eexists [], _. cbn [up world trace foldl tallied length].
    split; [|split; [rewrite <- app_assoc; reflexivity|]].
    { unfold set_stats. f_equal. by rewrite add_items_0. }
    split; [by destruct (0 <? page_num)|].
    split; [by intros v [= <-]|]. split; [done|]. left.
    by destruct (0 <? page_num).
  - rewrite (match_nonempty _ _ _ Hfr) in Hrun.
    unfold mbind at 1, M_bind at 1, bind at 1, modify_up at 1 in Hrun.
    unfold mbind at 1, M_bind at 1, bind at 1 in Hrun. rewrite when_log in Hrun.
    cbn [up world env trace] in Hrun. rewrite set_stats_set_stats in Hrun.
    unfold mbind at 1, M_bind at 1, bind at 1, thread_pool at 1 in Hrun.
    cbn [up world env trace parallel_workers set_stats] in Hrun.
    destruct (parallel_workers (up s) <=? 0) eqn:Hpw.
    + injection Hrun as <- <-. eexists [], _. cbn [up world trace foldl tallied length].
      split; [done|]. split; [rewrite <- app_assoc; reflexivity|].
      split; [by destruct (0 <? page_num)|].
      split; [done|]. split; [done|]. right; left.
      repeat split; [done|lia|by destruct (0 <? page_num)|by eexists].
    + fold order in Hrun.
      destruct (run_workers c order _) as [rs w1] eqn:Hw.
      destruct (run_workers_spec _ _ _ _ Hw) as (tr1 & Htr1 & Hsk1 & Hwt1 & Hc1 & Hlen).
      cbn [trace] in Htr1.
      unfold mbind at 1, M_bind at 1, bind at 1 in Hrun. rewrite tally_loop_spec in Hrun.
      unfold on_up in Hrun. cbn [up world] in Hrun.
      assert (Hpw' : 0 < parallel_workers (up s)) by (apply Z.leb_gt in Hpw; lia).
      destruct (first_exc rs) as [e|] eqn:Hexc.
      * injection Hrun as <- <-. exists rs, ((if 0 <? page_num
          then [EvLog (LogPageUploading page_num (length (fresh ids batch)))] else []) ++ tr1).
        cbn [up world]. split; [done|]. split; [by rewrite Htr1, <- !app_assoc|].
        split; [rewrite skips_app, waits_app, Hsk1, Hwt1; by destruct (0 <? page_num)|].
        split; [by intros v [=]|]. split; [intros; congruence|]. right; right.
        split; [done|]. split; [done|]. split; [by eexists _, _|]. split; [done|].
        split; [|congruence].
        intros item. rewrite calls_app. destruct (0 <? page_num); simpl; by apply Hc1.
      * unfold mbind at 1, M_bind at 1, bind at 1 in Hrun. rewrite when_log in Hrun.
        unfold mbind at 1, M_bind at 1, bind at 1 in Hrun. cbn [up world] in Hrun.
        destruct (call_on_progress c _) as [rp sp] eqn:Hp.
        apply call_on_progress_spec in Hp as (Hup & (tr2 & Htr2 & Hsk2 & Hwt2 & Hc2) & Hrp).
        cbn [up world trace] in Hup, Htr2.
        exists rs, ((if 0 <? page_num
          then [EvLog (LogPageUploading page_num (length (fresh ids batch)))] else []) ++ tr1
          ++ (if 0 <? page_num
              then [EvLog (LogPageDone page_num (0 + delivered (tallied rs))
                             (0 + Z.of_nat (length (duplicates ids batch))))] else []) ++ tr2).
        assert (up s' = up sp ∧ world s' = world sp ∧
                (∀ v, r = Ok v → v = delivered (tallied rs)) ∧
                ((∃ v, r = Ok v) ∨
                 ∃ f st e x e', on_progress c = Some f ∧ f st e = (Some x, e') ∧ r = Exc x))
          as (-> & -> & Hv & Hres).
        { destruct Hrp as [->|(f & st & e & x & e' & Hf1 & Hf2 & ->)];
            injection Hrun as <- <-; repeat split; try done.
          - by intros ? [= <-].
          - left. by eexists.
          - right. by eexists f, st, e, x, e'. }
        split; [done|]. split; [by rewrite Htr2, Htr1, <- !app_assoc|].
        split; [rewrite !skips_app, !waits_app, Hsk1, Hsk2, Hwt1, Hwt2;
                by destruct (0 <? page_num)|].
        split; [intros v Hr; split; [done|by apply Hv]|]. split; [intros; congruence|]. right; right.
        split; [done|]. split; [done|]. split; [by eexists _, _|]. split; [done|].
        split; [|by intros _].
        intros item. rewrite !calls_app, Hc2. destruct (0 <? page_num); simpl;
          rewrite ?app_nil_r; by apply Hc1.
Qed.

(** Where the tuples come from: a tuple that reports success repeats what a
    call of the upload function for the record returned. *)
Lemma attempt_loop_tuple item id attempts last_error (w : World E) t w' :
  attempt_loop c item id attempts last_error w = (Ok (LoopReturn t), w') →
  (∃ err, t = (id, false, 0, 0, err)) ∨
  (∃ e added failed_photos err e',
     upload_func c item e = (Returned true added failed_photos err, e') ∧
     t = (id, true, added, failed_photos, None)).
Proof.
  revert last_error w. induction attempts as [|attempt rest IH]; intros last_error w.
  - intros [=].
  - cbn [attempt_loop]. unfold mbind at 1, M_bind at 1, bind at 1, call_upload at 1.
    destruct (upload_func c item (env w)) as [[ok added failed_photos error|e] e'] eqn:Hf.
    + destruct ok; intros [= <- <-]; [right|left]; eauto 10.
    + destruct (is_transient _); [destruct (attempt <? MAX_RETRIES - 1)|]; try (by intros [=]).
      unfold mbind at 1, M_bind at 1, bind at 1, log at 1, emit at 1.
      unfold mbind at 1, M_bind at 1, bind at 1, time_sleep at 1. cbn [env trace].
      destruct (sleep c _ e') as [[x|] e'']; [by intros [=]|]. apply IH.
Qed.

Lemma upload_one_tuple item (w : World E) t w' :
  _upload_one c item w = (Ok t, w') →
  (∃ err, t = (item_id item, false, 0, 0, err)) ∨
  (∃ e added failed_photos err e',
     upload_func c item e = (Returned true added failed_photos err, e') ∧
     t = (item_id item, true, added, failed_photos, None)).
Proof.
  unfold _upload_one. unfold mbind at 1, M_bind at 1, bind at 1.
  destruct (attempt_loop c item (item_id item) _ None w) as [[[t'|le]|e] w1] eqn:Hloop.
  - intros [= <- <-]. by eapply attempt_loop_tuple.
  - unfold mbind, M_bind, bind, log, emit. intros [= <- <-]. left. by eexists.
  - intros [=].
Qed.

(** A property of every worker's result holds of the results of a batch. *)
Lemma run_workers_results (P : Item → Res UploadTuple → Prop) (order : list Item)
    (w : World E) rs w' :
  (∀ item w0 r w1, _upload_one c item w0 = (r, w1) → P item r) →
  run_workers c order w = (rs, w') →
  Forall2 P order rs.
Proof.
  intros HP. revert w rs w'. induction order as [|item rest IH]; intros w rs w'.
  - intros [= <- <-]. constructor.
  - cbn [run_workers].
    destruct (_upload_one c item w) as [r w1] eqn:Hone.
    destruct (run_workers c rest w1) as [rs' w2] eqn:Hrest.
    intros [= <- <-]. constructor; [by eapply HP|by eapply IH].
Qed.

Lemma tallied_Forall (P : UploadTuple → Prop) (order : list Item)
    (rs : list (Res UploadTuple)) :
  Forall2 (λ _ r, match r with Ok t => P t | Exc _ => True end) order rs →
  Forall P (tallied rs).
Proof.
  induction 1 as [|item r order rs Hr _ IH]; [constructor|].
  destruct r; [by constructor|constructor].
Qed.

Lemma tallied_length (rs : list (Res UploadTuple)) :
  (length (tallied rs) ≤ length rs)%nat.
Proof. induction rs as [|[t|e] rs IH]; simpl; lia. Qed.

Lemma delivered_bounds (ts : list UploadTuple) :
  0 ≤ delivered ts ≤ Z.of_nat (length ts).
Proof. unfold delivered. pose proof (length_filter (λ t, tuple_ok t = true) ts). lia. Qed.

(** With photo counts that are not negative, the tuples of the workers
    have photo counts that are not negative. *)
Lemma run_workers_nonneg (order : list Item) (w : World E) rs w' :
  photos_nonneg c →
  run_workers c order w = (rs, w') →
  Forall tuple_nonneg (tallied rs).
Proof.
  intros Hnn Hw. apply (tallied_Forall _ order).
  eapply run_workers_results; [|exact Hw].
  intros item w0 r w1 H. destruct r as [t|]; [|done].
  apply upload_one_tuple in H as [[err ->]|(e & a & f & err & e' & Hf & ->)].
  - by split.
  - by apply Hnn in Hf.
Qed.

(** A batch never lowers a counter of batches and records nor forgets an
    identifier; it lowers no photo counter either if the upload function
    reports no negative photo count. *)
Lemma batch_sync_grows (batch : list Item) (page_num : Z) (s : State E) r s' :
  _upload_batch_sync c batch page_num s = (r, s') →
  grows_core s s' ∧ (photos_nonneg c → grows s s') ∧ same_control (up s) (up s').
Proof.
  intros Hrun.
  destruct (batch_sync_spec _ _ _ _ _ Hrun) as (rs & tr & Hup & _ & _ & _ & _ & Hcase).
  assert (Hts : photos_nonneg c → Forall tuple_nonneg (tallied rs)).
  { intros Hnn.
    destruct Hcase as [(_ & -> & _)|[(_ & _ & -> & _)|(_ & _ & (w0 & w1 & Hw) & _)]];
      [constructor|constructor|by eapply run_workers_nonneg]. }
  match type of Hup with _ = foldl _ ?u _ =>
    destruct (foldl_tally_spec (tallied rs) u) as (Hc & Hp & Hi & Hk & Hs & Hf & Hph & Hsub & _) end.
  rewrite <- Hup in *.
  pose proof (delivered_bounds (tallied rs)).
  cbn [stats set_stats pages items skipped success failed photos_added photos_failed
       add_items add_skipped add_pages _existing_ids] in *.
  assert (Hcore : core_le (stats (up s)) (stats (up s'))).
  { unfold core_le. repeat split; lia. }
  split; [by split|]. split; [|done].
  intros Hnn. destruct (Hph (Hts Hnn)) as [Hpa Hpf].
  split; [split; [exact Hcore|by split]|done].
Qed.

Lemma tallied_all (rs : list (Res UploadTuple)) :
  first_exc rs = None → length (tallied rs) = length rs.
Proof. induction rs as [|[t|e] rs IH]; simpl; [done| |done]. intros H. by rewrite IH. Qed.

(** The dispatch of one batch, seen from outside: the duplicates are
    marked and counted, the upload function is called for records of the
    other part only, and for all of them when the dispatch returns. *)
Lemma batch_sync_dedup (batch : list Item) (page_num : Z) (s : State E) r s' :
  fair_pool c →
  _upload_batch_sync c batch page_num s = (r, s') →
  let ids := _existing_ids (up s) in
  ∃ tr n_ok n_failed,
    trace (world s') = trace (world s) ++ tr ∧
    skips tr = duplicates ids batch ∧
    (∀ item, item ∈ calls tr → item ∈ fresh ids batch) ∧
    ((∃ v, r = Ok v) → ∀ item, item ∈ fresh ids batch → item ∈ calls tr) ∧
    pages (stats (up s')) = pages (stats (up s)) + 1 ∧
    skipped (stats (up s')) =
      skipped (stats (up s)) + Z.of_nat (length (duplicates ids batch)) ∧
    items (stats (up s')) = items (stats (up s)) + Z.of_nat (length (fresh ids batch)) ∧
    success (stats (up s')) = success (stats (up s)) + n_ok ∧
    failed (stats (up s')) = failed (stats (up s)) + n_failed ∧
    0 ≤ n_ok ∧ 0 ≤ n_failed ∧ n_ok + n_failed ≤ Z.of_nat (length (fresh ids batch)) ∧
    (∀ v, r = Ok v → v = n_ok ∧ n_ok + n_failed = Z.of_nat (length (fresh ids batch))).
Proof.
  intros Hfair Hrun ids.
  destruct (batch_sync_spec _ _ _ _ _ Hrun)
    as (rs & tr & Hup & Htr & [Hsk Hwt] & Hok & _ & Hcase). fold ids in Hup, Htr, Hcase.
  match type of Hup with _ = foldl _ ?u _ =>
    destruct (foldl_tally_spec (tallied rs) u) as (_ & Hp & Hi & Hk & Hs & Hf & _) end.
  rewrite <- Hup in *.
  cbn [stats set_stats pages items skipped success failed add_items add_skipped add_pages] in *.
  pose proof (delivered_bounds (tallied rs)) as Hd.
  pose proof (tallied_length rs) as Hlen.
  exists ((EvSkip <$> duplicates ids batch) ++ tr), (delivered (tallied rs)),
    (Z.of_nat (length (tallied rs)) - delivered (tallied rs)).
  rewrite skips_app, calls_app, skips_marks, calls_marks, Hsk, app_nil_r. cbn [app].
  split; [done|]. split; [done|].
  assert ((length rs ≤ length (fresh ids batch))%nat ∧
                  (∀ item, item ∈ calls tr → item ∈ fresh ids batch) ∧
                  ((∃ v, r = Ok v) → ∀ item, item ∈ fresh ids batch → item ∈ calls tr) ∧
                  ((∃ v, r = Ok v) → length rs = length (fresh ids batch))) as (Hl & Hc1 & Hc2 & Hl2).
  { destruct Hcase as [(Hfr & -> & -> & _)|[(_ & _ & -> & -> & (e & ->))|
                       (_ & _ & _ & Hl & Hc & _)]].
    - rewrite Hfr. simpl. split; [lia|]. split; [intros item []%elem_of_nil|].
      split; [intros _ item []%elem_of_nil|done].
    - simpl. split; [lia|]. split; [intros item []%elem_of_nil|].
      split; by intros [v [=]].
    - rewrite (Hfair _ _) in Hl. split; [lia|]. split; [|split; [|done]].
      + intros item Hin%Hc. by rewrite (Hfair _ _) in Hin.
      + intros _ item Hin. apply Hc. by rewrite (Hfair _ _). }
  split; [done|]. split; [done|]. do 5 (split; [lia|]). split; [lia|]. split; [lia|].
  split; [lia|]. intros v Hr. destruct (Hok v Hr) as [Hnone ->]. split; [done|].
  rewrite (tallied_all _ Hnone), (Hl2 (ex_intro _ _ Hr)). lia.
Qed.

End Batch.

(** *** Counters and identifiers only grow *)

Lemma iter_task_done (n : nat) (u : Uploader) :
  Nat.iter n task_done u = set_unfinished_tasks (λ k, (k - n)%nat) u.
Proof.
  induction n as [|n IH].
  - destruct u. unfold set_unfinished_tasks. simpl. by rewrite Nat.sub_0_r.
  - change (Nat.iter (S n) task_done u) with (task_done (Nat.iter n task_done u)).
    rewrite IH. destruct u. unfold task_done, set_unfinished_tasks.
    simpl. f_equal. lia.
Qed.

Section Monotone.

Context {E : Type} (c : Collab E).

(** A relation between states that every batch respects, and every quiet
    change. *)
Variable R : State E → State E → Prop.
Hypothesis R_refl : ∀ s, R s s.
Hypothesis R_trans : ∀ s1 s2 s3, R s1 s2 → R s2 s3 → R s1 s3.
Hypothesis R_quiet : ∀ s s', quiet s s' → R s s'.
Hypothesis R_batch : ∀ batch page_num s r s',
  _upload_batch_sync c batch page_num s = (r, s') → R s s'.
Hypothesis R_one : ∀ item s r w',
  _upload_one c item (world s) = (r, w') → R s {| up := up s; world := w' |}.

Lemma on_up_R (f : Uploader → Uploader) (s : State E) :
  stats (f (up s)) = stats (up s) →
  _existing_ids (up s) ⊆ _existing_ids (f (up s)) →
  R s (on_up f s).
Proof.
  intros Hs Hi. apply R_quiet. split; [done|]. split; [done|].
  exists []. by rewrite app_nil_r.
Qed.

Lemma say_R (ev : Event) (s : State E) :
  calls [ev] = [] → skips [ev] = [] → R s (say ev s).
Proof. intros Hc Hk. apply R_quiet. split; [done|]. split; [done|]. by exists [ev]. Qed.

Lemma finish_log_R (s : State E) : R s (finish_log s).
Proof. unfold finish_log. cbv zeta. eapply R_trans; [|by apply say_R]. by apply say_R. Qed.

Lemma queue_put_R (x : option Task) (s : State E) : R s (on_up (queue_put x) s).
Proof. by apply on_up_R. Qed.

Lemma worker_step_R (s s' : State E) : worker_step c s = Some s' → R s s'.
Proof.
  unfold worker_step.
  destruct (_upload_thread (up s)); try done.
  destruct (in_flight (up s)) as [[batch page_num]|].
  - destruct (_upload_batch_sync c batch page_num s) as [[v|e] s1] eqn:Hrun;
      intros [= <-]; apply R_batch in Hrun; (eapply R_trans; [exact Hrun|]).
    + by apply on_up_R.
    + eapply R_trans; [|by apply say_R]. by apply on_up_R.
  - destruct (_stop_event (up s)); [intros [= <-]; by apply on_up_R|].
    destruct (_upload_queue (up s)) as [|[task|] rest]; [done| |];
      intros [= <-]; by apply on_up_R.
Qed.

Lemma worker_run_R (fuel : nat) (s : State E) : R s (worker_run c fuel s).
Proof.
  revert s. induction fuel as [|fuel IH]; intros s; [apply R_refl|].
  cbn [worker_run]. destruct (worker_step c s) as [s1|] eqn:Hstep; [|apply R_refl].
  eapply R_trans; [by eapply worker_step_R|apply IH].
Qed.

Lemma thread_join_R (timeout : Q) (s : State E) : R s (thread_join c timeout s).
Proof.
  unfold thread_join. cbv zeta.
  destruct (in_flight _); [destruct (done_within _ _ _)|]; try (by apply say_R);
    (eapply R_trans; [|apply worker_run_R]); by apply say_R.
Qed.

Lemma abort_R (s : State E) : R s (abort c s).
Proof.
  unfold abort. cbv zeta.
  match goal with |- context [_upload_thread (up ?s2)] =>
    assert (Hg : R s s2) by
      (eapply R_trans; [|apply on_up_R; cbn [up on_up]; by rewrite iter_task_done];
       by apply on_up_R);
    destruct (_upload_thread (up s2)); try done end.
  eapply R_trans; [exact Hg|]. eapply R_trans; [|apply thread_join_R]. apply queue_put_R.
Qed.

Lemma queue_join_R (fuel : nat) (s : State E) : R s (final_state (queue_join c fuel s)).
Proof.
  revert s. induction fuel as [|fuel IH]; intros s; cbn [queue_join];
    destruct (unfinished_tasks (up s)); try apply R_refl.
  destruct (worker_step c s) as [s1|] eqn:Hstep; [|apply R_refl].
  eapply R_trans; [by eapply worker_step_R|apply IH].
Qed.

Lemma finish_R (duration : string) (force : bool) (s : State E) :
  R s (final_state (finish c duration force s)).
Proof.
  unfold finish. destruct (_upload_thread (up s)); try apply finish_log_R.
  destruct force.
  - cbn [final_state]. eapply R_trans; [|apply finish_log_R].
    eapply R_trans; [|apply abort_R]. by apply say_R.
  - cbv zeta. match goal with |- context [queue_join c ?f ?s1] =>
      pose proof (queue_join_R f s1) as Hq;
      assert (Hg : R s s1) by (eapply R_trans; [|by apply say_R]; by apply say_R);
      destruct (queue_join c f s1) as [s2|s2] end; cbn [final_state] in *.
    + eapply R_trans; [exact Hg|]. eapply R_trans; [exact Hq|].
      eapply R_trans; [|apply finish_log_R]. eapply R_trans; [|by apply say_R].
      eapply R_trans; [|apply thread_join_R]. apply queue_put_R.
    + by eapply R_trans.
Qed.

Lemma upload_batch_R (batch : list Item) (page_num : Z) (s : State E) :
  R s (upload_batch batch page_num s).
Proof.
  unfold upload_batch. destruct batch; [apply R_refl|]. cbv zeta.
  eapply R_trans; [|apply queue_put_R].
  destruct (_session_started (up s)); [apply R_refl|].
  assert (Hin : R s (say (EvLog LogStarting) (on_up (set_session_started (λ _, true)) s))).
  { eapply R_trans; [|by apply say_R]. by apply on_up_R. }
  unfold _start_upload_thread. destruct (_upload_thread _); try done;
    (eapply R_trans; [exact Hin|]); (eapply R_trans; [|by apply say_R]); by apply on_up_R.
Qed.

Lemma step_R (s : State E) (a : Action) : R s (step c s a).
Proof.
  destruct a as [ids|batch page_num| |]; cbn [step].
  - unfold add_existing_ids. eapply R_trans; [|by apply say_R].
    apply on_up_R; [done|]. simpl. apply union_subseteq_l.
  - apply upload_batch_R.
  - destruct (worker_step c s) as [s'|] eqn:Hstep; [by eapply worker_step_R|apply R_refl].
  - apply abort_R.
Qed.

Lemma run_R (acts : list Action) (s : State E) : R s (run c s acts).
Proof.
  revert s. induction acts as [|a acts IH]; intros s; [apply R_refl|].
  cbn [run foldl]. eapply R_trans; [apply step_R|apply IH].
Qed.

Lemma pipeline_op_R (s s' : State E) : pipeline_op c s s' → R s s'.
Proof.
  intros [s0 a|s0 duration force|batch page_num s0 r s1 Hrun|item s0].
  - apply step_R.
  - apply finish_R.
  - by eapply R_batch.
  - unfold lift. destruct (_upload_one c item (world s0)) as [r w1] eqn:Hone.
    by eapply R_one.
Qed.

End Monotone.

Section Grows.

Context {E : Type} (c : Collab E).

Lemma grows_core_refl (s : State E) : grows_core s s.
Proof. unfold grows_core, core_le. repeat split; lia || done. Qed.

Lemma grows_core_trans (s1 s2 s3 : State E) :
  grows_core s1 s2 → grows_core s2 s3 → grows_core s1 s3.
Proof.
  unfold grows_core, core_le. intros [H1 I1] [H2 I2]. split; [|by etrans].
  repeat split; lia.
Qed.

Lemma grows_refl (s : State E) : grows s s.
Proof. unfold grows, stats_le, core_le, photos_le. repeat split; lia || done. Qed.

Lemma grows_trans (s1 s2 s3 : State E) : grows s1 s2 → grows s2 s3 → grows s1 s3.
Proof.
  unfold grows, stats_le, core_le, photos_le. intros [H1 I1] [H2 I2]. split; [|by etrans].
  repeat split; lia.
Qed.

(** C7, amended.  No operation of the pipeline ([add_existing_ids],
    [upload_batch], [abort], a step of the dispatcher, [finish], the
    dispatch of a batch, the delivery of a record) lowers [pages], [items],
    [success], [failed] or [skipped], or removes an identifier from
    [_existing_ids]; and none lowers [photos_added] or [photos_failed]
    provided the upload function reports no negative photo count on a
    success. *)
Theorem counters_and_ids_only_grow (s s' : State E) :
  pipeline_op c s s' →
  grows_core s s' ∧ (photos_nonneg c → grows s s').
Proof.
  intros Hop. split.
  - revert Hop. apply pipeline_op_R.
    + apply grows_core_refl.
    + apply grows_core_trans.
    + intros s1 s2 (Hs & Hi & _). split; [|done]. rewrite Hs. apply (grows_core_refl s1).
    + intros batch page_num s1 r s2 Hrun.
      by apply (batch_sync_grows c) in Hrun as (Hg & _ & _).
    + intros item s1 r w' _. apply (grows_core_refl s1).
  - intros Hnn. revert Hop. apply pipeline_op_R.
    + apply grows_refl.
    + apply grows_trans.
    + intros s1 s2 (Hs & Hi & _). split; [|done]. rewrite Hs. apply (grows_refl s1).
    + intros batch page_num s1 r s2 Hrun.
      apply (batch_sync_grows c) in Hrun as (_ & Hg & _). by apply Hg.
    + intros item s1 r w' _. apply (grows_refl s1).
Qed.

End Grows.

(** *** The dispatcher, case by case *)

Section Dispatcher.

Context {E : Type} (c : Collab E).

Lemma worker_step_take (s : State E) task rest :
  _upload_thread (up s) = Alive → in_flight (up s) = None →
  _stop_event (up s) = false → _upload_queue (up s) = Some task :: rest →
  worker_step c s =
    Some (on_up (λ u, set_in_flight (λ _, Some task) (set_upload_queue (λ _, rest) u)) s).
Proof. intros Ht Hi Hs Hq. unfold worker_step. by rewrite Ht, Hi, Hs, Hq. Qed.

Lemma worker_step_pill (s : State E) rest :
  _upload_thread (up s) = Alive → in_flight (up s) = None →
  _stop_event (up s) = false → _upload_queue (up s) = None :: rest →
  worker_step c s =
    Some (on_up (λ u, set_upload_thread (λ _, Ended) (set_upload_queue (λ _, rest) u)) s).
Proof. intros Ht Hi Hs Hq. unfold worker_step. by rewrite Ht, Hi, Hs, Hq. Qed.

Lemma worker_step_stop (s : State E) :
  _upload_thread (up s) = Alive → in_flight (up s) = None → _stop_event (up s) = true →
  worker_step c s = Some (on_up (set_upload_thread (λ _, Ended)) s).
Proof. intros Ht Hi Hs. unfold worker_step. by rewrite Ht, Hi, Hs. Qed.

Lemma worker_step_batch (s : State E) batch page_num r s' :
  _upload_thread (up s) = Alive → in_flight (up s) = Some (batch, page_num) →
  _upload_batch_sync c batch page_num s = (r, s') →
  worker_step c s =
    Some match r with
         | Ok _ => on_up (λ u, set_in_flight (λ _, None) (task_done u)) s'
         | Exc e => say (EvLog (LogWorkerError e)) (on_up (set_in_flight (λ _, None)) s')
         end.
Proof. intros Ht Hi Hrun. unfold worker_step. rewrite Ht, Hi, Hrun. by destruct r. Qed.

Lemma worker_step_not_alive (s : State E) :
  _upload_thread (up s) ≠ Alive → worker_step c s = None.
Proof. intros Ht. unfold worker_step. by destruct (_upload_thread (up s)). Qed.

Lemma queue_join_next (fuel : nat) (s s1 : State E) :
  unfinished_tasks (up s) ≠ 0%nat → worker_step c s = Some s1 →
  queue_join c (S fuel) s = queue_join c fuel s1.
Proof.
  intros Hu Hstep. cbn [queue_join]. rewrite Hstep.
  by destruct (unfinished_tasks (up s)).
Qed.

Lemma queue_join_done (fuel : nat) (s : State E) :
  unfinished_tasks (up s) = 0%nat → queue_join c fuel s = Returns s.
Proof. intros Hu. destruct fuel; cbn [queue_join]; by rewrite Hu. Qed.

(** The join that follows the poison pill: an idle dispatcher takes the
    pill and ends. *)
Lemma thread_join_pill (timeout : Q) (s : State E) :
  _upload_thread (up s) = Alive → in_flight (up s) = None →
  _stop_event (up s) = false → _upload_queue (up s) = [] →
  thread_join c timeout (on_up (queue_put None) s) =
    on_up (λ u, set_upload_thread (λ _, Ended) (set_upload_queue (λ _, []) u))
      (say (EvThreadJoin timeout) (on_up (queue_put None) s)).
Proof.
  intros Ht Hi Hs Hq. unfold thread_join. cbv zeta.
  cbn [up say on_up queue_put in_flight set_unfinished_tasks set_upload_queue].
  rewrite Hi. unfold worker_fuel.
  cbn [up say on_up queue_put _upload_queue set_unfinished_tasks set_upload_queue].
  rewrite Hq. cbn [app length Nat.mul Nat.add worker_run].
  erewrite worker_step_pill; [|by cbn; rewrite ?Ht, ?Hi, ?Hs, ?Hq..].
  by rewrite worker_step_not_alive.
Qed.

End Dispatcher.

(** *** Sessions *)

Section Session.

Context {E : Type} (c : Collab E).

Lemma extends_refl (s : State E) : extends s s.
Proof. exists []. by rewrite app_nil_r. Qed.

Lemma extends_trans (s1 s2 s3 : State E) : extends s1 s2 → extends s2 s3 → extends s1 s3.
Proof. intros [tr1 H1] [tr2 H2]. exists (tr1 ++ tr2). by rewrite H2, H1, app_assoc. Qed.

Lemma extends_quiet (s s' : State E) : quiet s s' → extends s s'.
Proof. intros (_ & _ & tr & Htr & _). by exists tr. Qed.

Lemma extends_batch batch page_num (s : State E) r s' :
  _upload_batch_sync c batch page_num s = (r, s') → extends s s'.
Proof.
  intros Hrun. destruct (batch_sync_spec c _ _ _ _ _ Hrun) as (rs & tr & _ & Htr & _).
  by eexists.
Qed.

Lemma accounted_extends (s s' : State E) item :
  extends s s' → accounted (trace (world s)) item → accounted (trace (world s')) item.
Proof.
  intros [tr ->] [H|H]; [left|right].
  - rewrite skips_app. apply elem_of_app. by left.
  - rewrite calls_app. apply elem_of_app. by left.
Qed.

Lemma batch_parts (ids : gset string) (batch : list Item) item :
  item ∈ batch → item ∈ duplicates ids batch ∨ item ∈ fresh ids batch.
Proof.
  intros Hin. unfold duplicates, fresh.
  destruct (decide (item_id item ∈ ids)); [left|right]; by apply list_elem_of_filter.
Qed.

(** A dispatch that returns accounts for every record of its batch. *)
Lemma batch_sync_accounts batch page_num (s : State E) v s' item :
  fair_pool c →
  _upload_batch_sync c batch page_num s = (Ok v, s') →
  item ∈ batch → accounted (trace (world s')) item.
Proof.
  intros Hfair Hrun Hin.
  destruct (batch_sync_dedup c _ _ _ _ _ Hfair Hrun)
    as (tr & n1 & n2 & -> & Hsk & _ & Hcalls & _).
  destruct (batch_parts (_existing_ids (up s)) batch item Hin) as [Hd|Hf]; [left|right].
  - rewrite skips_app, Hsk. apply elem_of_app. by right.
  - rewrite calls_app. apply elem_of_app. right. apply Hcalls; [by eexists|done].
Qed.

Lemma worker_step_inv (seen : list Item) (s s1 : State E) :
  fair_pool c → session_inv seen s → worker_step c s = Some s1 → session_inv seen s1.
Proof.
  intros Hfair (I1 & I2 & Istop & Ipill & Istart). unfold worker_step.
  destruct (_upload_thread (up s)) eqn:Hthread; try done.
  destruct (in_flight (up s)) as [[batch page_num]|] eqn:Hfl.
  - assert (Hstarted : _session_started (up s) = true).
    { destruct (_session_started (up s)); [done|]. by destruct Istart as (_ & _ & ? & _). }
    destruct (_upload_batch_sync c batch page_num s) as [r s'] eqn:Hrun.
    pose proof (extends_batch _ _ _ _ _ Hrun) as Hext.
    destruct (batch_sync_grows c _ _ _ _ _ Hrun) as (_ & _ & Hc).
    destruct Hc as (Hpw & Hss & Hq & Hu & Ht & Hse & Hif).
    unfold pending_count, pending_items in *. rewrite Hfl in *.
    destruct r as [v|e]; intros [= <-]; unfold session_inv, pending_count, pending_items;
      cbn [up world on_up say set_in_flight task_done set_unfinished_tasks in_flight
           _upload_queue unfinished_tasks _stop_event _session_started _upload_thread
           env trace]; rewrite ?Hq, ?Hu, ?Hse, ?Hss, ?Ht.
    + split; [lia|]. split; [|by rewrite Hstarted in *].
      intros Heq item Hseen. destruct (I2 ltac:(lia) item Hseen) as [Hacc|Hpend].
      * left. by eapply accounted_extends.
      * cbn [task_items] in Hpend. apply elem_of_app in Hpend as [Hb|Hq'].
        -- left. by eapply batch_sync_accounts.
        -- by right.
    + split; [lia|]. split; [intros; lia|]. by rewrite Hstarted in *.
  - rewrite Istop. destruct (_upload_queue (up s)) as [|[task|] rest] eqn:Hq; [done| |].
    + intros [= <-]. unfold session_inv, pending_count, pending_items in *.
      cbn [up world on_up set_in_flight set_upload_queue in_flight
           _upload_queue unfinished_tasks _stop_event _session_started _upload_thread].
      rewrite Hfl, Hq in *. cbn [length task_items app mbind list_bind] in *.
      split; [lia|]. split; [|split; [done|split]].
      * intros Heq item Hseen. destruct (I2 ltac:(lia) item Hseen) as [Hacc|Hpend]; [by left|].
        by right.
      * intros Hin. apply Ipill. by right.
      * destruct (_session_started (up s)); [done|]. by destruct Istart as (_ & ? & _).
    + exfalso. apply Ipill. by left.
Qed.

Lemma worker_step_alive (seen : list Item) (s s1 : State E) :
  session_inv seen s → worker_step c s = Some s1 → _upload_thread (up s1) = Alive.
Proof.
  intros (_ & _ & Istop & Ipill & _). unfold worker_step.
  destruct (_upload_thread (up s)) eqn:Hthread; try done.
  destruct (in_flight (up s)) as [[batch page_num]|] eqn:Hfl.
  - destruct (_upload_batch_sync c batch page_num s) as [r s'] eqn:Hrun.
    destruct (batch_sync_grows c _ _ _ _ _ Hrun) as (_ & _ & Hc).
    destruct Hc as (_ & _ & _ & _ & Ht & _).
    destruct r; intros [= <-]; cbn; congruence.
  - rewrite Istop. destruct (_upload_queue (up s)) as [|[task|] rest] eqn:Hq; [done| |].
    + by intros [= <-].
    + exfalso. apply Ipill. by left.
Qed.

(** The invariant looks at the control fields and at the trace only. *)
Lemma session_inv_same (seen : list Item) (s s' : State E) :
  session_inv seen s → same_control (up s) (up s') → extends s s' → session_inv seen s'.
Proof.
  intros (I1 & I2 & Istop & Ipill & Istart) (Hpw & Hss & Hq & Hu & Ht & Hse & Hif) Hext.
  unfold session_inv, pending_count, pending_items in *.
  rewrite Hss, Hq, Hu, Ht, Hse, Hif. split; [done|]. split; [|done].
  intros Heq item Hseen. destruct (I2 Heq item Hseen) as [Hacc|Hpend]; [left|by right].
  by eapply accounted_extends.
Qed.

Lemma upload_batch_inv (seen : list Item) (s : State E) batch page_num :
  session_inv seen s → session_inv (seen ++ batch) (upload_batch batch page_num s).
Proof.
  intros Hinv. destruct batch as [|x l]; [by rewrite app_nil_r|].
  unfold upload_batch. cbv zeta. set (batch := x :: l).
  match goal with |- session_inv _ (on_up _ ?t) => remember t as s1 eqn:Hs1 end.
  assert (_session_started (up s1) = true ∧ _upload_thread (up s1) = Alive ∧
          _stop_event (up s1) = false ∧ _upload_queue (up s1) = _upload_queue (up s) ∧
          unfinished_tasks (up s1) = unfinished_tasks (up s) ∧
          in_flight (up s1) = in_flight (up s) ∧ extends s s1)
    as (Hss & Ht & Hse & Hq & Hu & Hif & Hext).
  { subst s1. destruct Hinv as (_ & _ & Istop & _ & Istart).
    destruct (_session_started (up s)) eqn:Hstarted.
    - repeat split; try done. apply extends_refl.
    - unfold _start_upload_thread.
      cbn [up on_up say set_session_started _upload_thread].
      destruct (_upload_thread (up s)) eqn:Hth; cbn; rewrite ?Hth; repeat split; try done.
      + exists [EvLog LogStarting; EvLog LogThreadStarted]. cbn. by rewrite <- app_assoc.
      + by exists [EvLog LogStarting].
      + exists [EvLog LogStarting; EvLog LogThreadStarted]. cbn. by rewrite <- app_assoc. }
  clear Hs1. destruct Hinv as (I1 & I2 & Istop & Ipill & Istart).
  unfold session_inv, pending_count, pending_items in *.
  cbn [up world on_up queue_put set_unfinished_tasks set_upload_queue in_flight
       _upload_queue unfinished_tasks _stop_event _session_started _upload_thread].
  rewrite Hss, Ht, Hse, Hq, Hu, Hif, length_app. cbn [length].
  split; [lia|]. split; [|split; [done|split; [|done]]].
  - intros Heq item [Hseen|Hnew]%elem_of_app.
    + destruct (I2 ltac:(lia) item Hseen) as [Hacc|Hpend].
      * left. by eapply accounted_extends.
      * right. rewrite bind_app. apply elem_of_app in Hpend as [?|?];
          apply elem_of_app; [by left|right]. apply elem_of_app. by left.
    + right. rewrite bind_app. apply elem_of_app. right. apply elem_of_app. right.
      cbn. by rewrite app_nil_r.
  - intros [Hin|Hin]%elem_of_app; [done|]. by apply list_elem_of_singleton in Hin.
Qed.

Lemma step_inv (seen : list Item) (s : State E) (a : Action) :
  fair_pool c → a ≠ ActAbort → session_inv seen s →
  session_inv (seen ++ enqueued [a]) (step c s a).
Proof.
  intros Hfair Ha Hinv. destruct a as [ids|batch page_num| |]; [| | |done];
    cbn [enqueued mbind list_bind step]; rewrite ?app_nil_r.
  - eapply session_inv_same; [exact Hinv|done|]. by exists [EvLog (LogAddedExisting (size ids))].
  - by apply upload_batch_inv.
  - destruct (worker_step c s) as [s1|] eqn:Hstep; [|done]. by eapply worker_step_inv.
Qed.

Lemma enqueued_cons (a : Action) (acts : list Action) :
  enqueued (a :: acts) = enqueued [a] ++ enqueued acts.
Proof. unfold enqueued. cbn. by rewrite app_nil_r. Qed.

Lemma run_inv (seen : list Item) (s : State E) (acts : list Action) :
  fair_pool c → enqueues_only acts → session_inv seen s →
  session_inv (seen ++ enqueued acts) (run c s acts).
Proof.
  intros Hfair Hacts. revert seen s.
  induction Hacts as [|a acts Ha _ IH]; intros seen s Hinv; [by rewrite app_nil_r|].
  rewrite enqueued_cons, app_assoc. cbn [run foldl]. apply IH. by apply step_inv.
Qed.

Lemma new_uploader_inv (workers : Z) (e : E) : session_inv [] (new_uploader workers e).
Proof.
  unfold session_inv, pending_count. cbn. split; [lia|]. split; [by intros _ item ?%elem_of_nil|].
  split; [done|]. split; [by intros ?%elem_of_nil|done].
Qed.

(** While [Queue.join] waits, what every step of the dispatcher keeps
    holds on; when it returns, no task is unfinished. *)
Lemma queue_join_inv (P : State E → Prop) (fuel : nat) (s s' : State E) :
  (∀ s0 s1, P s0 → worker_step c s0 = Some s1 → P s1) →
  P s → queue_join c fuel s = Returns s' →
  P s' ∧ unfinished_tasks (up s') = 0%nat.
Proof.
  intros HP. revert s. induction fuel as [|fuel IH]; intros s Hs; cbn [queue_join];
    destruct (unfinished_tasks (up s)) eqn:Hu; try (by intros [= <-]); try done.
  destruct (worker_step c s) as [s1|] eqn:Hstep; [|done].
  apply IH. by eapply HP.
Qed.

(** **** Duplicates *)

Lemma never_redelivers_refl (s : State E) : never_redelivers s s.
Proof.
  split; [done|]. exists []. rewrite app_nil_r. split; [done|].
  by intros item ?%elem_of_nil.
Qed.

Lemma never_redelivers_trans (s1 s2 s3 : State E) :
  never_redelivers s1 s2 → never_redelivers s2 s3 → never_redelivers s1 s3.
Proof.
  intros (Hi1 & tr1 & Htr1 & Hc1) (Hi2 & tr2 & Htr2 & Hc2). split; [by etrans|].
  exists (tr1 ++ tr2). rewrite Htr2, Htr1, app_assoc. split; [done|].
  intros item. rewrite calls_app. intros [Hin|Hin]%elem_of_app; [by apply Hc1|].
  intros Hid. by apply (Hc2 item Hin), Hi1.
Qed.

Lemma never_redelivers_quiet (s s' : State E) : quiet s s' → never_redelivers s s'.
Proof.
  intros (_ & Hi & tr & Htr & Hc & _). split; [done|]. exists tr. split; [done|].
  rewrite Hc. by intros item ?%elem_of_nil.
Qed.

Lemma never_redelivers_batch batch page_num (s : State E) r s' :
  fair_pool c → _upload_batch_sync c batch page_num s = (r, s') → never_redelivers s s'.
Proof.
  intros Hfair Hrun. destruct (batch_sync_grows c _ _ _ _ _ Hrun) as ([_ Hi] & _ & _).
  destruct (batch_sync_dedup c _ _ _ _ _ Hfair Hrun) as (tr & n1 & n2 & Htr & _ & Hc & _).
  split; [done|]. exists tr. split; [done|].
  intros item Hin%Hc. by apply list_elem_of_filter in Hin as [? _].
Qed.

(** An upload function that always succeeds makes every worker return a
    success after one call. *)
Lemma upload_one_succeeds item (w : World E) r w' :
  always_succeeds c → _upload_one c item w = (r, w') →
  ∃ t, r = Ok t ∧ tuple_ok t = true.
Proof.
  intros Hok. unfold _upload_one. rewrite py_range_MAX_RETRIES.
  unfold mbind at 1, M_bind at 1, bind at 1.
  destruct (Hok item (env w)) as (a & f & err & e' & Hf).
  erewrite attempt_returned by exact Hf. intros [= <- <-]. by eexists.
Qed.

Lemma all_delivered (order : list Item) (rs : list (Res UploadTuple)) :
  Forall2 (λ _ r, ∃ t, r = Ok t ∧ tuple_ok t = true) order rs →
  first_exc rs = None ∧ delivered (tallied rs) = Z.of_nat (length rs) ∧
  length (tallied rs) = length rs.
Proof.
  induction 1 as [|item r order rs (t & -> & Hok) _ (IH1 & IH2 & IH3)]; [done|].
  cbn [first_exc tallied length]. split; [done|]. split; [|by rewrite IH3].
  unfold delivered in *. rewrite filter_cons, decide_True by done. cbn [length]. lia.
Qed.

(** The dispatch of a batch when every delivery succeeds: the duplicates
    are skipped, all the other records are delivered. *)
Lemma batch_sync_all_succeed batch page_num (s : State E) r s' :
  fair_pool c → always_succeeds c → progress_returns c → 0 < parallel_workers (up s) →
  _upload_batch_sync c batch page_num s = (r, s') →
  let ids := _existing_ids (up s) in
  (∃ v, r = Ok v) ∧ same_control (up s) (up s') ∧
  pages (stats (up s')) = pages (stats (up s)) + 1 ∧
  items (stats (up s')) = items (stats (up s)) + Z.of_nat (length (fresh ids batch)) ∧
  success (stats (up s')) = success (stats (up s)) + Z.of_nat (length (fresh ids batch)) ∧
  failed (stats (up s')) = failed (stats (up s)) ∧
  skipped (stats (up s')) =
    skipped (stats (up s)) + Z.of_nat (length (duplicates ids batch)).
Proof.
  intros Hfair Hok Hprog Hpw Hrun ids.
  destruct (batch_sync_spec c _ _ _ _ _ Hrun) as (rs & tr & Hup & _ & _ & _ & _ & Hcase).
  fold ids in Hup, Hcase.
  match type of Hup with _ = foldl _ ?u _ =>
    destruct (foldl_tally_spec (tallied rs) u) as (Hc & Hp & Hi & Hk & Hs & Hf & _) end.
  rewrite <- Hup in *.
  cbn [stats set_stats pages items skipped success failed add_items add_skipped add_pages] in *.
  assert ((∃ v, r = Ok v) ∧ delivered (tallied rs) = Z.of_nat (length (fresh ids batch)) ∧
          length (tallied rs) = length (fresh ids batch)) as (Hr & Hd & Hl).
  { destruct Hcase as [(-> & -> & _ & ->)|[(_ & ? & _)|(_ & _ & (w0 & w1 & Hw) & Hl & _ & Hres)]];
      [by split; [eexists|]|lia|].
    destruct (all_delivered (completion_order c (env (world s)) (fresh ids batch)) rs)
      as (Hnone & Hd & Hl').
    { eapply run_workers_results; [|exact Hw]. intros item w2 r2 w3 Hone.
      by eapply upload_one_succeeds. }
    rewrite Hd, Hl', Hl, (Hfair _ _). split; [|done].
    destruct (Hres Hnone) as [Hv|(f & st & e & x & e' & Hf' & Hfx & _)]; [done|].
    specialize (Hprog f st e Hf'). by rewrite Hfx in Hprog. }
  split; [done|]. split; [done|]. repeat split; lia.
Qed.

(** The scenario: identifiers "1" and "2" are known, the batch
    [{"id":"1"}], [{"id":"2"}], [{"id":"3"}] is enqueued, every delivery
    succeeds; then [finish(force=False)]. *)
Lemma seeded_scenario (e0 : E) (page_num : Z) :
  fair_pool c → always_succeeds c → progress_returns c →
  ∃ s',
    finish c "" false
      (upload_batch [Scenario.record "1"; Scenario.record "2"; Scenario.record "3"] page_num
         (add_existing_ids {[ "1"; "2" ]} (new_uploader PARALLEL_WORKERS e0))) = Returns s' ∧
    items (stats (up s')) = 1 ∧ success (stats (up s')) = 1 ∧
    skipped (stats (up s')) = 2 ∧ failed (stats (up s')) = 0.
Proof.
  intros Hfair Hok Hprog.
  set (batch := [Scenario.record "1"; Scenario.record "2"; Scenario.record "3"]).
  set (s1 := upload_batch batch page_num _).
  unfold finish. change (_upload_thread (up s1)) with Alive. cbv iota beta zeta.
  set (s2 := say EvQueueJoin (say (EvLog LogWaiting) s1)).
  change (worker_fuel s2) with 4%nat.
  erewrite queue_join_next; [|done|by apply worker_step_take].
  match goal with |- context [queue_join c 3%nat ?s] => set (s3 := s) end.
  destruct (_upload_batch_sync c batch page_num s3) as [r s4] eqn:Hrun.
  destruct (batch_sync_all_succeed batch page_num s3 r s4 Hfair Hok Hprog eq_refl Hrun)
    as ([v ->] & Hc & _ & Hi & Hs & Hf & Hk).
  destruct Hc as (_ & _ & Hq & Hu & Ht & Hse & _).
  erewrite queue_join_next; [|done|by eapply worker_step_batch].
  rewrite queue_join_done by (cbn; by rewrite Hu).
  rewrite thread_join_pill by (cbn; by rewrite ?Hq, ?Ht, ?Hse).
  eexists. split; [reflexivity|]. cbn. rewrite Hi, Hs, Hf, Hk.
  by vm_compute.
Qed.

(** C4.  With a pool that completes the records it was given:
    - when a batch is dispatched, every record whose identifier is in
      [_existing_ids] is marked and counted as skipped, and the upload
      function is called only for records whose identifier is not in it;
      [items] grows by the number of the other records only, and [success]
      and [failed] together by no more than that;
    - from any state on, through any calls and dispatcher steps and a final
      [finish], no record is delivered whose identifier was in
      [_existing_ids] in that state, and no identifier leaves the set;
    - with "1" and "2" known, the batch of records "1", "2", "3" and an
      upload function that always succeeds, [finish(force=False)] returns
      statistics with [items = 1], [success = 1], [skipped = 2],
      [failed = 0]. *)
Theorem duplicates_never_delivered :
  fair_pool c →
  (∀ batch page_num s r s',
     _upload_batch_sync c batch page_num s = (r, s') →
     let ids := _existing_ids (up s) in
     ∃ tr n_ok n_failed,
       trace (world s') = trace (world s) ++ tr ∧
       skips tr = duplicates ids batch ∧
       (∀ item, item ∈ calls tr → item_id item ∉ ids) ∧
       skipped (stats (up s')) =
         skipped (stats (up s)) + Z.of_nat (length (duplicates ids batch)) ∧
       items (stats (up s')) = items (stats (up s)) + Z.of_nat (length (fresh ids batch)) ∧
       success (stats (up s')) = success (stats (up s)) + n_ok ∧
       failed (stats (up s')) = failed (stats (up s)) + n_failed ∧
       0 ≤ n_ok ∧ 0 ≤ n_failed ∧ n_ok + n_failed ≤ Z.of_nat (length (fresh ids batch))) ∧
  (∀ s acts duration force,
     never_redelivers s (final_state (finish c duration force (run c s acts)))) ∧
  (∀ e0 page_num,
     always_succeeds c → progress_returns c →
     ∃ s',
       finish c "" false
         (upload_batch [Scenario.record "1"; Scenario.record "2"; Scenario.record "3"]
            page_num
            (add_existing_ids {[ "1"; "2" ]} (new_uploader PARALLEL_WORKERS e0)))
         = Returns s' ∧
       items (stats (up s')) = 1 ∧ success (stats (up s')) = 1 ∧
       skipped (stats (up s')) = 2 ∧ failed (stats (up s')) = 0).
Proof.
  intros Hfair. split; [|split].
  - intros batch page_num s r s' Hrun ids.
    destruct (batch_sync_dedup c _ _ _ _ _ Hfair Hrun)
      as (tr & n1 & n2 & Htr & Hsk & Hc & _ & _ & Hk & Hi & Hs & Hf & H1 & H2 & H3 & _).
    exists tr, n1, n2. split; [done|]. split; [done|]. split; [|done].
    intros item Hin%Hc. by apply list_elem_of_filter in Hin as [? _].
  - intros s acts duration force. apply (never_redelivers_trans _ (run c s acts)).
    + apply (run_R c never_redelivers); [apply never_redelivers_refl|
        apply never_redelivers_trans|apply never_redelivers_quiet|
        intros; by eapply never_redelivers_batch].
    + apply (finish_R c never_redelivers); [apply never_redelivers_refl|
        apply never_redelivers_trans|apply never_redelivers_quiet|
        intros; by eapply never_redelivers_batch].
  - intros e0 page_num Hok Hprog. by apply seeded_scenario.
Qed.

(** **** When [finish] returns *)

Lemma attempt_loop_returns item id attempts last_error (w : World E) r w' :
  (∀ d e, (sleep c d e).1 = None) →
  attempt_loop c item id attempts last_error w = (r, w') → ∃ x, r = Ok x.
Proof.
  intros Hs. revert last_error w. induction attempts as [|attempt rest IH]; intros last_error w.
  - intros [= <- <-]. by eexists.
  - cbn [attempt_loop]. unfold mbind at 1, M_bind at 1, bind at 1, call_upload at 1.
    destruct (upload_func c item (env w)) as [[ok added failed_photos error|e] e'].
    + destruct ok; intros [= <- <-]; by eexists.
    + destruct (is_transient _); [destruct (attempt <? MAX_RETRIES - 1)|];
        try (intros [= <- <-]; by eexists).
      unfold mbind at 1, M_bind at 1, bind at 1, log at 1, emit at 1.
      unfold mbind at 1, M_bind at 1, bind at 1, time_sleep at 1. cbn [env trace].
      pose proof (Hs (RETRY_DELAY * inject_Z (attempt + 1))%Q e') as Hsleep.
      destruct (sleep c _ e') as [[x|] e'']; [done|]. apply IH.
Qed.

Lemma upload_one_returns item (w : World E) r w' :
  (∀ d e, (sleep c d e).1 = None) →
  _upload_one c item w = (r, w') → ∃ t, r = Ok t.
Proof.
  intros Hs. unfold _upload_one. unfold mbind at 1, M_bind at 1, bind at 1.
  destruct (attempt_loop c item (item_id item) _ None w) as [r1 w1] eqn:Hloop.
  destruct (attempt_loop_returns _ _ _ _ _ _ _ Hs Hloop) as [[t|le] ->].
  - intros [= <- <-]. by eexists.
  - unfold mbind, M_bind, bind, log, emit. intros [= <- <-]. by eexists.
Qed.

Lemma first_exc_none (order : list Item) (rs : list (Res UploadTuple)) :
  Forall2 (λ _ r, ∃ t, r = Ok t) order rs → first_exc rs = None.
Proof. induction 1 as [|item r order rs [t ->] _ IH]; [done|]. exact IH. Qed.

(** With a pool of positive size, sleeps and a callback that return, the
    dispatch of a batch returns. *)
Lemma batch_sync_returns batch page_num (s : State E) r s' :
  0 < parallel_workers (up s) → no_escape c →
  _upload_batch_sync c batch page_num s = (r, s') → ∃ v, r = Ok v.
Proof.
  intros Hpw [Hsleep Hprog] Hrun.
  destruct (batch_sync_spec c _ _ _ _ _ Hrun) as (rs & tr & _ & _ & _ & _ & _ & Hcase).
  destruct Hcase as [(_ & _ & _ & ->)|[(_ & ? & _)|(_ & _ & (w0 & w1 & Hw) & _ & _ & Hres)]];
    [by eexists|lia|].
  destruct Hres as [Hv|(f & st & e & x & e' & Hf & Hfx & _)]; [|done|].
  - eapply first_exc_none, run_workers_results; [|exact Hw].
    intros item w2 r2 w3 Hone. by eapply upload_one_returns.
  - specialize (Hprog f st e Hf). by rewrite Hfx in Hprog.
Qed.

(** Nothing was lost so far: [unfinished_tasks] counts the pending entries
    and no more. *)
Lemma worker_step_live (seen : list Item) (s s1 : State E) :
  no_escape c → session_inv seen s →
  unfinished_tasks (up s) = pending_count (up s) ∧ 0 < parallel_workers (up s) →
  worker_step c s = Some s1 →
  unfinished_tasks (up s1) = pending_count (up s1) ∧ 0 < parallel_workers (up s1).
Proof.
  intros Hesc (_ & _ & Istop & Ipill & _) [Hu Hpw]. unfold worker_step.
  destruct (_upload_thread (up s)) eqn:Hthread; try done.
  unfold pending_count in *.
  destruct (in_flight (up s)) as [[batch page_num]|] eqn:Hfl.
  - destruct (_upload_batch_sync c batch page_num s) as [r s'] eqn:Hrun.
    destruct (batch_sync_returns _ _ _ _ _ Hpw Hesc Hrun) as [v ->].
    destruct (batch_sync_grows c _ _ _ _ _ Hrun) as (_ & _ & Hc).
    destruct Hc as (Hpw' & _ & Hq & Hu' & _ & _ & _).
    intros [= <-]. cbn. rewrite Hq, Hu', Hpw'. split; [lia|done].
  - rewrite Istop. destruct (_upload_queue (up s)) as [|[task|] rest] eqn:Hq; [done| |].
    + intros [= <-]. cbn in *. split; [lia|done].
    + exfalso. apply Ipill. by left.
Qed.

Lemma step_live (seen : list Item) (s : State E) (a : Action) :
  no_escape c → a ≠ ActAbort → session_inv seen s →
  unfinished_tasks (up s) = pending_count (up s) ∧ 0 < parallel_workers (up s) →
  unfinished_tasks (up (step c s a)) = pending_count (up (step c s a)) ∧
  0 < parallel_workers (up (step c s a)).
Proof.
  intros Hesc Ha Hinv [Hu Hpw]. destruct a as [ids|batch page_num| |]; [| | |done]; cbn [step].
  - done.
  - unfold upload_batch. destruct batch as [|x l]; [done|]. cbv zeta.
    unfold pending_count in *.
    destruct (_session_started (up s)).
    + cbn. rewrite length_app. cbn. split; [lia|done].
    + unfold _start_upload_thread. cbn [up on_up say set_session_started _upload_thread].
      destruct (_upload_thread (up s)); cbn; rewrite length_app; cbn; (split; [lia|done]).
  - destruct (worker_step c s) as [s1|] eqn:Hstep; [|done]. by eapply worker_step_live.
Qed.

Lemma run_live (seen : list Item) (s : State E) (acts : list Action) :
  fair_pool c → no_escape c → enqueues_only acts → session_inv seen s →
  unfinished_tasks (up s) = pending_count (up s) ∧ 0 < parallel_workers (up s) →
  unfinished_tasks (up (run c s acts)) = pending_count (up (run c s acts)) ∧
  0 < parallel_workers (up (run c s acts)).
Proof.
  intros Hfair Hesc Hacts. revert seen s.
  induction Hacts as [|a acts Ha _ IH]; intros seen s Hinv Hlive; [done|].
  cbn [run foldl]. eapply IH; [by apply step_inv|by eapply step_live].
Qed.

(** A running dispatcher that lost nothing empties the queue: the join
    returns within two steps for each queued batch and one for the batch in
    hand. *)
Lemma queue_join_returns (seen : list Item) (fuel : nat) (s : State E) :
  fair_pool c → no_escape c →
  session_inv seen s → _upload_thread (up s) = Alive →
  unfinished_tasks (up s) = pending_count (up s) ∧ 0 < parallel_workers (up s) →
  (2 * length (_upload_queue (up s)) + match in_flight (up s) with Some _ => 1 | None => 0 end
     ≤ fuel)%nat →
  ∃ s', queue_join c fuel s = Returns s'.
Proof.
  intros Hfair Hesc. revert s. induction fuel as [|fuel IH]; intros s Hinv Hthread Hlive Hfuel.
  - exists s. apply queue_join_done. destruct Hlive as [-> _]. unfold pending_count.
    destruct (_upload_queue (up s)); [|simpl in Hfuel; lia].
    destruct (in_flight (up s)); [lia|done].
  - destruct (unfinished_tasks (up s)) as [|n] eqn:Hu.
    { exists s. by apply queue_join_done. }
    assert (∃ s1, worker_step c s = Some s1 ∧
                  (2 * length (_upload_queue (up s1))
                   + match in_flight (up s1) with Some _ => 1 | None => 0 end ≤ fuel)%nat)
      as (s1 & Hstep & Hfuel1).
    { destruct Hinv as (_ & _ & Istop & Ipill & _). destruct Hlive as [Hlive Hpw].
      unfold pending_count in Hlive.
      destruct (in_flight (up s)) as [[batch page_num]|] eqn:Hfl.
      - destruct (_upload_batch_sync c batch page_num s) as [r s'] eqn:Hrun.
        destruct (batch_sync_grows c _ _ _ _ _ Hrun) as (_ & _ & Hc).
        destruct Hc as (_ & _ & Hq & _ & _ & _ & _).
        eexists. split; [by eapply worker_step_batch|].
        destruct r; cbn; rewrite Hq; lia.
      - destruct (_upload_queue (up s)) as [|[task|] rest] eqn:Hq.
        + simpl in Hlive. lia.
        + eexists. split; [by eapply worker_step_take|]. cbn in *. lia.
        + exfalso. apply Ipill. by left. }
    rewrite (queue_join_next c fuel s s1) by (done || lia).
    apply IH; [by eapply worker_step_inv|by eapply worker_step_alive| |done].
    eapply worker_step_live; [done|exact Hinv| |done]. by rewrite Hu.
Qed.

Lemma graceful_finish_returns (workers : Z) (e0 : E) (acts : list Action)
    (duration : string) :
  fair_pool c → enqueues_only acts → 0 < workers → no_escape c →
  ∃ s', finish c duration false (run c (new_uploader workers e0) acts) = Returns s'.
Proof.
  intros Hfair Hacts Hw Hesc. set (s := run c (new_uploader workers e0) acts).
  pose proof (run_inv [] _ acts Hfair Hacts (new_uploader_inv workers e0)) as Hinv.
  pose proof (run_live [] _ acts Hfair Hesc Hacts (new_uploader_inv workers e0)
                (conj eq_refl Hw)) as Hlive.
  fold s in Hinv, Hlive. cbn [app] in Hinv. unfold finish.
  destruct (_upload_thread (up s)) eqn:Hthread; [by eexists| |by eexists].
  cbv zeta.
  match goal with |- context [queue_join c ?f ?s1] =>
    destruct (queue_join_returns (enqueued acts) f s1 Hfair Hesc) as [s2 ->];
      [|done|done| |by eexists]
  end.
  - eapply session_inv_same; [exact Hinv|done|].
    exists [EvLog LogWaiting; EvQueueJoin]. cbn. by rewrite <- app_assoc.
  - unfold worker_fuel. cbn. destruct (in_flight (up s)); lia.
Qed.

Lemma graceful_finish_safe (workers : Z) (e0 : E)
    (acts : list Action) (duration : string) (s' : State E) :
  fair_pool c → enqueues_only acts →
  finish c duration false (run c (new_uploader workers e0) acts) = Returns s' →
  (∀ item, item ∈ enqueued acts → accounted (trace (world s')) item) ∧
  _upload_queue (up s') = [] ∧ in_flight (up s') = None ∧
  _upload_thread (up s') ≠ Alive.
Proof.
  intros Hfair Hacts. set (s := run c (new_uploader workers e0) acts).
  pose proof (run_inv [] _ acts Hfair Hacts (new_uploader_inv workers e0)) as Hinv.
  fold s in Hinv. cbn [app] in Hinv. unfold finish.
  destruct (_upload_thread (up s)) eqn:Hthread.
  - intros [= <-]. destruct Hinv as (_ & _ & _ & _ & Istart). rewrite Hthread in Istart.
    destruct (_session_started (up s)); [done|]. destruct Istart as (-> & Hq & Hfl & _).
    cbn. rewrite Hq, Hfl, Hthread. repeat split; try done. by intros item ?%elem_of_nil.
  - cbv zeta.
    match goal with |- context [queue_join c ?f ?s1] =>
      assert (Hinv1 : session_inv (enqueued acts) s1) by
        (eapply session_inv_same; [exact Hinv|done|];
         exists [EvLog LogWaiting; EvQueueJoin]; cbn; by rewrite <- app_assoc);
      destruct (queue_join c f s1) as [s2|s2] eqn:Hjoin; [|done]
    end.
    apply (queue_join_inv (λ s0, session_inv (enqueued acts) s0 ∧
                                  _upload_thread (up s0) = Alive))
      in Hjoin as [[Hinv2 Hth2] Hu];
      [|intros s0 s1 [H0 _] Hstep; split;
          [by eapply worker_step_inv|by eapply worker_step_alive]|by split].
    intros [= <-].
    destruct Hinv2 as (I1 & I2 & Istop & Ipill & Istart).
    unfold pending_count, pending_items in *. rewrite Hu in *.
    destruct (_upload_queue (up s2)) as [|? ?] eqn:Hq; [|simpl in I1; lia].
    destruct (in_flight (up s2)) eqn:Hfl; [simpl in I1; lia|].
    rewrite (thread_join_pill c _ s2 Hth2 Hfl Istop Hq).
    split; [|by cbn].
    intros item Hseen. destruct (I2 eq_refl item Hseen) as [Hacc|Hpend].
    + eapply accounted_extends; [|exact Hacc].
      eexists [_; _; _; _]. cbn. by rewrite <- !app_assoc.
    + by apply elem_of_nil in Hpend.
  - intros [= <-]. destruct Hinv as (_ & _ & _ & _ & Istart). rewrite Hthread in Istart.
    destruct (_session_started (up s)); [done|]. by destruct Istart as (_ & _ & _ & _ & ?).
Qed.

(** C1.  Take a fresh uploader and any interleaving of [add_existing_ids],
    [upload_batch] and steps of the dispatcher, then [finish(force=False)].
    When [finish] returns, every record that was enqueued is accounted for
    in the trace: it was counted as a duplicate when its batch was
    dispatched, or the upload function was called for it; the queue is
    empty, no batch is in the dispatcher's hand, and the dispatcher has
    ended.  And [finish] does return when nothing escapes a dispatch: the
    pool has a positive size, the back-off sleeps and the progress callback
    return. *)
Theorem graceful_finish_attempts_everything (workers : Z) (e0 : E)
    (acts : list Action) (duration : string) :
  fair_pool c → enqueues_only acts →
  let s := run c (new_uploader workers e0) acts in
  (∀ s', finish c duration false s = Returns s' →
     (∀ item, item ∈ enqueued acts → accounted (trace (world s')) item) ∧
     _upload_queue (up s') = [] ∧ in_flight (up s') = None ∧
     _upload_thread (up s') ≠ Alive) ∧
  (0 < workers → no_escape c → ∃ s', finish c duration false s = Returns s').
Proof.
  intros Hfair Hacts s. split.
  - intros s' Hfin. by eapply graceful_finish_safe.
  - intros Hw Hesc. by apply graceful_finish_returns.
Qed.

End Session.

(** *** Forced shutdown *)

Section Forced.

Context {E : Type} (c : Collab E).

(** What the dispatch of a batch adds to the trace concerns the records of
    the batch only, and holds no blocking call. *)
Lemma batch_sync_within batch page_num (s : State E) r s' :
  fair_pool c →
  _upload_batch_sync c batch page_num s = (r, s') →
  ∃ tr, trace (world s') = trace (world s) ++ tr ∧ waits tr = [] ∧
        ∀ item, item ∈ calls tr ∨ item ∈ skips tr → item ∈ batch.
Proof.
  intros Hfair Hrun.
  destruct (batch_sync_dedup c _ _ _ _ _ Hfair Hrun) as (tr & n1 & n2 & Htr & Hsk & Hc & _).
  destruct (batch_sync_spec c _ _ _ _ _ Hrun) as (rs & tr' & _ & Htr' & [_ Hwt] & _).
  exists tr. split; [done|]. split.
  - rewrite Htr in Htr'. apply app_inv_head in Htr'. subst tr.
    by rewrite waits_app, waits_marks, Hwt.
  - intros item [Hin%Hc|Hin].
    + by apply list_elem_of_filter in Hin as [_ ?].
    + rewrite Hsk in Hin. by apply list_elem_of_filter in Hin as [_ ?].
Qed.

Lemma idle_app (tr1 tr2 : list Event) : idle tr1 → idle tr2 → idle (tr1 ++ tr2).
Proof.
  intros [H1 H2] [H3 H4].
  split; [by rewrite calls_app, H1, H3|by rewrite skips_app, H2, H4].
Qed.

(** A quiet change that blocks nowhere keeps what a forced shutdown left. *)
Lemma forced_quiet (s0 s s1 : State E) tr :
  forced c s0 s →
  trace (world s1) = trace (world s) ++ tr → idle tr → waits tr = [] →
  stats (up s1) = stats (up s) → _existing_ids (up s1) = _existing_ids (up s) →
  in_flight (up s1) = in_flight (up s) →
  (_upload_thread (up s1) = Alive → _stop_event (up s1) = true) →
  forced c s0 s1.
Proof.
  intros [tr0 Htr0 Hidle0 Hw0 Hst0 Hid0 Hfl0 Hstop0
         |batch page_num sa r sb tr1 tr2 Hfl0 Htr1 Hidle1 Hst1 Hid1 Hrun Htr2 Hidle2 Hst2 Hw Hfl Hstop]
         Htr Hidle Hwt Hst Hid Hfl1 Hstop1.
  - apply (forced_held c s0 s1 (tr0 ++ tr)).
    + by rewrite Htr, Htr0, app_assoc.
    + by apply idle_app.
    + unfold bounded_wait in *. by rewrite waits_app, Hwt, app_nil_r.
    + congruence.
    + congruence.
    + congruence.
    + done.
  - apply (forced_done c s0 s1 batch page_num sa r sb tr1 (tr2 ++ tr)); try done.
    + by rewrite Htr, Htr2, app_assoc.
    + by apply idle_app.
    + congruence.
    + unfold bounded_wait in *. by rewrite app_assoc, waits_app, Hwt, app_nil_r.
    + congruence.
Qed.

Lemma forced_worker_step (s0 s s1 : State E) :
  forced c s0 s → worker_step c s = Some s1 → forced c s0 s1.
Proof.
  intros Hforced. unfold worker_step.
  destruct (_upload_thread (up s)) eqn:Hthread; try done.
  destruct (in_flight (up s)) as [[batch page_num]|] eqn:Hfl.
  - destruct Hforced as [tr0 Htr0 Hidle0 Hw0 Hst0 Hid0 Hfl0 Hstop0|? ? ? ? ? ? ? ? ? ? ? ? ? ? ? ? Hnone];
      [|congruence].
    destruct (_upload_batch_sync c batch page_num s) as [r s'] eqn:Hrun.
    destruct (batch_sync_grows c _ _ _ _ _ Hrun) as (_ & _ & Hc).
    destruct Hc as (_ & _ & _ & _ & Ht & Hse & _).
    destruct r as [v|e]; intros [= <-].
    + apply (forced_done c s0 _ batch page_num s (Ok v) s' tr0 []); try done.
      * by rewrite <- Hfl0.
      * by rewrite app_nil_r.
      * by rewrite app_nil_r.
      * cbn. rewrite Ht, Hse. auto.
    + apply (forced_done c s0 _ batch page_num s (Exc e) s' tr0 [EvLog (LogWorkerError e)]);
        try done.
      * by rewrite <- Hfl0.
      * unfold bounded_wait in *. by rewrite waits_app, app_nil_r.
      * cbn. rewrite Ht, Hse. auto.
  - assert (Hstop : _stop_event (up s) = true).
    { destruct Hforced; auto. }
    rewrite Hstop. intros [= <-].
    apply (forced_quiet s0 s _ []); try done. by rewrite app_nil_r.
Qed.

Lemma forced_stop (s0 s : State E) :
  forced c s0 s → _upload_thread (up s) = Alive → _stop_event (up s) = true.
Proof. intros []; auto. Qed.

Lemma forced_finish_log (s0 s : State E) : forced c s0 s → forced c s0 (finish_log s).
Proof.
  intros Hf. unfold finish_log. cbv zeta.
  set (st := stats (up s)).
  apply (forced_quiet s0 s _
           [EvLog (LogComplete (items st) (success st) (failed st) (skipped st));
            EvLog (LogPhotos (photos_added st) (photos_failed st))]); try done.
  - cbn. by rewrite <- app_assoc.
  - cbn. by apply (forced_stop s0).
Qed.

Lemma forced_worker_run (n : nat) (s0 s : State E) :
  forced c s0 s → forced c s0 (worker_run c n s).
Proof.
  revert s. induction n as [|n IH]; intros s Hf; [done|]. cbn [worker_run].
  destruct (worker_step c s) as [s1|] eqn:Hstep; [|done].
  apply IH. by eapply forced_worker_step.
Qed.

(** [abort], from a state in which nothing was dispatched since [s0] and
    the caller has not blocked yet. *)
Lemma abort_forced (s0 s : State E) tr :
  trace (world s) = trace (world s0) ++ tr → idle tr → waits tr = [] →
  stats (up s) = stats (up s0) → _existing_ids (up s) = _existing_ids (up s0) →
  in_flight (up s) = in_flight (up s0) →
  forced c s0 (abort c s).
Proof.
  intros Htr Hidle Hwt Hst Hid Hfl. unfold abort. cbv zeta.
  match goal with |- context [_upload_thread (up ?t)] => set (s2 := t) end.
  assert (trace (world s2) = trace (world s) ∧ stats (up s2) = stats (up s) ∧
          _existing_ids (up s2) = _existing_ids (up s) ∧
          in_flight (up s2) = in_flight (up s) ∧ _stop_event (up s2) = true)
    as (Htr2 & Hst2 & Hid2 & Hfl2 & Hstop2).
  { subst s2. cbn [up world on_up]. by rewrite iter_task_done. }
  clearbody s2.
  assert (Hf2 : forced c s0 s2).
  { apply (forced_held c s0 _ tr); congruence || by left. }
  destruct (_upload_thread (up s2)) eqn:Hthread; try done.
  unfold thread_join. cbv zeta.
  match goal with |- forced c s0 (match in_flight (up ?s4) with _ => _ end) =>
    assert (Hf4 : forced c s0 s4);
      [|destruct (in_flight (up s4)); [destruct (done_within _ _ _)|];
        try done; by apply forced_worker_run] end.
  apply (forced_held c s0 _ (tr ++ [EvThreadJoin (1 # 1)%Q])); cbn; try congruence.
  - by rewrite Htr2, Htr, app_assoc.
  - by apply idle_app.
  - right. by rewrite waits_app, Hwt.
Qed.

Lemma forced_only_in_flight (s0 s : State E) :
  fair_pool c → forced c s0 s → only_in_flight c s0 s.
Proof.
  intros Hfair [tr0 Htr0 [Hc0 Hk0] Hw0 Hst0 Hid0 Hfl0 Hstop0
    |batch page_num s1 r s2 tr1 tr2 Hfl0 Htr1 [Hc1 Hk1] Hst1 Hid1 Hrun Htr2 [Hc2 Hk2] Hst2 Hw Hfl Hstop].
  - split; [|split; [done|by left]]. exists tr0. split; [done|]. split; [done|].
    rewrite Hc0, Hk0. by intros item [?%elem_of_nil|?%elem_of_nil].
  - destruct (batch_sync_within _ _ _ _ _ Hfair Hrun) as (trb & Htrb & Hwb & Hitems).
    split; [|split; [congruence|right; by eexists batch, page_num, s1, r, s2]].
    exists (tr1 ++ trb ++ tr2). split; [by rewrite Htr2, Htrb, Htr1, <- !app_assoc|].
    split.
    + unfold bounded_wait in *. rewrite !waits_app, Hwb in *. exact Hw.
    + rewrite Hfl0. cbn [task_items]. intros item.
      rewrite !calls_app, !skips_app, Hc1, Hk1, Hc2, Hk2, !app_nil_r. cbn [app].
      apply Hitems.
Qed.

Lemma worker_run_inv (P : State E → Prop) (n : nat) (s : State E) :
  (∀ s0 s1, P s0 → worker_step c s0 = Some s1 → P s1) → P s → P (worker_run c n s).
Proof.
  intros HP. revert s. induction n as [|n IH]; intros s Hs; [done|]. cbn [worker_run].
  destruct (worker_step c s) as [s1|] eqn:Hstep; [|done]. apply IH. by eapply HP.
Qed.

(** Once only pills are queued, only pills are queued. *)
Lemma worker_step_pills (s s1 : State E) :
  Forall (λ x, x = None) (_upload_queue (up s)) → worker_step c s = Some s1 →
  Forall (λ x, x = None) (_upload_queue (up s1)).
Proof.
  intros Hq. unfold worker_step.
  destruct (_upload_thread (up s)); try done.
  destruct (in_flight (up s)) as [[batch page_num]|].
  - destruct (_upload_batch_sync c batch page_num s) as [r s'] eqn:Hrun.
    destruct (batch_sync_grows c _ _ _ _ _ Hrun) as (_ & _ & Hc).
    destruct Hc as (_ & _ & Hq' & _).
    destruct r; intros [= <-]; cbn; by rewrite Hq'.
  - destruct (_stop_event (up s)); [by intros [= <-]|].
    destruct (_upload_queue (up s)) as [|[task|] rest]; [done| |]; intros [= <-]; cbn.
    + by apply Forall_cons in Hq as [? _].
    + by apply Forall_cons in Hq as [_ ?].
Qed.

Lemma abort_pills (s : State E) :
  Forall (λ x, x = None) (_upload_queue (up (abort c s))).
Proof.
  unfold abort. cbv zeta.
  match goal with |- context [_upload_thread (up ?t)] => set (s2 := t) end.
  assert (Hq : _upload_queue (up s2) = []).
  { subst s2. cbn [up world on_up]. by rewrite iter_task_done. }
  clearbody s2. destruct (_upload_thread (up s2)); try (by rewrite Hq).
  unfold thread_join. cbv zeta.
  match goal with |- context [in_flight (up ?s4)] =>
    assert (Hq4 : Forall (λ x, x = None) (_upload_queue (up s4)))
      by (cbn; rewrite Hq; by repeat constructor);
    destruct (in_flight (up s4)); [destruct (done_within _ _ _)|]; try done;
      (apply (worker_run_inv (λ s, Forall (λ x, x = None) (_upload_queue (up s))));
       [apply worker_step_pills|done]) end.
Qed.

(** C6.  [finish(force=True)] returns, and so does [abort()].  Whatever
    the dispatcher does afterwards, from the state the call was made in:
    the caller blocked at most once, in a [Thread.join] of one second, and
    never in [Queue.join]; no record of a batch that was queued is marked or
    delivered, only records of the batch the dispatcher had in hand; the
    statistics are unchanged, or changed by the dispatch of that batch
    alone; and, the dispatcher having been alive, nothing but the poison
    pill is left in the queue. *)
Theorem forced_finish_discards_queue (s : State E) (duration : string) (n : nat) :
  fair_pool c →
  (∃ s', finish c duration true s = Returns s' ∧
         only_in_flight c s (worker_run c n s') ∧
         (_upload_thread (up s) = Alive →
          Forall (λ x, x = None) (_upload_queue (up (worker_run c n s'))))) ∧
  only_in_flight c s (worker_run c n (abort c s)) ∧
  Forall (λ x, x = None) (_upload_queue (up (worker_run c n (abort c s)))).
Proof.
  intros Hfair. split; [|split].
  - assert (Hidle : ∀ s1, forced c s s1 →
              only_in_flight c s (worker_run c n (finish_log s1))).
    { intros s1 H1. by apply forced_only_in_flight, forced_worker_run, forced_finish_log. }
    unfold finish. destruct (_upload_thread (up s)) eqn:Hthread.
    + eexists. split; [reflexivity|]. split; [|done]. apply Hidle.
      apply (forced_held c s s []); try done; [by rewrite app_nil_r|by left|congruence].
    + eexists. split; [reflexivity|]. split.
      * apply Hidle. by apply (abort_forced s _ [EvLog LogForceFinishing]).
      * intros _.
        apply (worker_run_inv (λ s, Forall (λ x, x = None) (_upload_queue (up s))));
          [apply worker_step_pills|]. apply abort_pills.
    + eexists. split; [reflexivity|]. split; [|done]. apply Hidle.
      apply (forced_held c s s []); try done; [by rewrite app_nil_r|by left|congruence].
  - apply forced_only_in_flight, forced_worker_run; [done|].
    apply (abort_forced s s []); try done. by rewrite app_nil_r.
  - apply (worker_run_inv (λ s, Forall (λ x, x = None) (_upload_queue (up s))));
      [apply worker_step_pills|]. apply abort_pills.
Qed.

End Forced.

(** *** An exception escaping a worker *)

Section Escape.

Context {E : Type} (c : Collab E).

Lemma tallied_short (rs : list (Res UploadTuple)) e :
  first_exc rs = Some e → (length (tallied rs) < length rs)%nat.
Proof.
  induction rs as [|[t|e'] rs IH]; simpl; [done| |lia]. intros H%IH. lia.
Qed.

(** The results of the workers, in the order of completion: the tuples
    tallied, then the first exception, then the results left unread. *)
Lemma results_split (rs : list (Res UploadTuple)) :
  match first_exc rs with
  | Some e => ∃ later, rs = (Ok <$> tallied rs) ++ Exc e :: later
  | None => rs = Ok <$> tallied rs
  end.
Proof.
  induction rs as [|[t|e] rs IH]; cbn; [done| |by exists rs].
  destruct (first_exc rs) as [e|]; [|by rewrite <- IH].
  destruct IH as [later IH]. exists later. by rewrite <- IH.
Qed.

(** A dispatcher that serves goes on serving, whatever is enqueued and
    whatever its dispatches end with, as long as nobody calls [abort]. *)
Lemma serving_step (s : State E) (a : Action) :
  a ≠ ActAbort → serving s → serving (step c s a).
Proof.
  intros Ha (Ht & Hs & Hq). destruct a as [ids|batch page_num| |]; cbn [step]; [| | |done].
  - done.
  - destruct batch as [|item batch]; [done|]. unfold upload_batch.
    assert (Hs1 : serving (if _session_started (up s) then s
                           else _start_upload_thread
                                  (say (EvLog LogStarting)
                                     (on_up (set_session_started (λ _, true)) s)))).
    { destruct (_session_started (up s)); [done|].
      unfold _start_upload_thread. cbn. by rewrite Ht. }
    destruct Hs1 as (Ht1 & Hs1 & Hq1). split; [done|]. split; [done|].
    cbn. apply Forall_app. split; [done|]. by constructor.
  - unfold worker_step. rewrite Ht.
    destruct (in_flight (up s)) as [[batch page_num]|] eqn:Hfl.
    + destruct (_upload_batch_sync c batch page_num s) as [[v|e] s'] eqn:Hrun;
        destruct (batch_sync_grows c _ _ _ _ _ Hrun) as (_ & _ & Hc);
        destruct Hc as (_ & _ & Hq' & _ & Ht' & Hs' & _);
        unfold serving; cbn; by rewrite Ht', Hs', Hq'.
    + rewrite Hs. destruct (_upload_queue (up s)) as [|[task|] rest] eqn:Hqueue;
        unfold serving; cbn.
      * by rewrite Hqueue.
      * split; [done|]. split; [done|]. by apply Forall_cons in Hq as [_ ?].
      * by apply Forall_cons in Hq as [[? [=]] _].
Qed.

Lemma serving_run (acts : list Action) (s : State E) :
  enqueues_only acts → serving s → serving (run c s acts).
Proof.
  revert s. induction acts as [|a acts IH]; intros s Hacts Hs; [done|].
  apply Forall_cons in Hacts as [Ha Hacts]. cbn [run foldl].
  apply IH; [done|]. by apply serving_step.
Qed.

(** C5, amended.  A batch is in the dispatcher's hand, the pool has a
    positive size and completes the records it was given, and the dispatch
    ends with an exception.  [rs] are the results of the workers of the
    batch, in the order in which they complete.  Then:
    - every worker ran: there is a result for every record of the batch
      that was not a duplicate, and the upload function was called for
      each of them;
    - the results tallied are those that come before the first exception
      among [rs], and no others: [success] and [failed] grew by the
      delivered and the failed among these; when a worker raised, it is
      its exception that ends the dispatch, and its result and all the
      results after it are left unread; when no worker raised, it is the
      progress callback that did, after all results were tallied;
    - the dispatcher caught the exception and logged it: its step ends with
      the thread alive, the log line written and no batch in hand;
    - it goes on: unless a stop was requested, through everything that is
      enqueued later and every later step of the dispatcher the thread
      stays alive, every batch at the head of the queue is taken in hand
      by the next step, and every batch in hand is dispatched by the next
      step, whatever that dispatch ends with. *)
Theorem worker_exception_is_contained (s : State E) batch page_num e s' :
  fair_pool c →
  _upload_thread (up s) = Alive → in_flight (up s) = Some (batch, page_num) →
  0 < parallel_workers (up s) →
  _upload_batch_sync c batch page_num s = (Exc e, s') →
  let ids := _existing_ids (up s) in
  let to_upload := fresh ids batch in
  let w0 := {| env := env (world s);
               trace := trace (world s) ++ (EvSkip <$> duplicates ids batch) ++
                        (if 0 <? page_num
                         then [EvLog (LogPageUploading page_num (length to_upload))]
                         else []) |} in
  let rs := (run_workers c (completion_order c (env (world s)) to_upload) w0).1 in
  (length rs = length to_upload ∧
   ∃ tr, trace (world s') = trace (world s) ++ tr ∧
         ∀ item, item ∈ to_upload → item ∈ calls tr) ∧
  (success (stats (up s')) = success (stats (up s)) + delivered (tallied rs) ∧
   failed (stats (up s')) =
     failed (stats (up s)) + (Z.of_nat (length (tallied rs)) - delivered (tallied rs)) ∧
   match first_exc rs with
   | Some e' =>
       e' = e ∧ (length (tallied rs) < length to_upload)%nat ∧
       ∃ later, rs = (Ok <$> tallied rs) ++ Exc e :: later
   | None =>
       rs = Ok <$> tallied rs ∧
       ∃ f st e0 e1, on_progress c = Some f ∧ f st e0 = (Some e, e1)
   end) ∧
  ∃ s1, worker_step c s = Some s1 ∧
        s1 = say (EvLog (LogWorkerError e)) (on_up (set_in_flight (λ _, None)) s') ∧
        _upload_thread (up s1) = Alive ∧ in_flight (up s1) = None ∧
        _upload_queue (up s1) = _upload_queue (up s) ∧
        (_stop_event (up s) = false → Forall is_Some (_upload_queue (up s)) →
         ∀ acts, enqueues_only acts →
           let s2 := run c s1 acts in
           _upload_thread (up s2) = Alive ∧
           (∀ task rest,
              in_flight (up s2) = None → _upload_queue (up s2) = Some task :: rest →
              ∃ s3, worker_step c s2 = Some s3 ∧ in_flight (up s3) = Some task ∧
                    _upload_queue (up s3) = rest) ∧
           (∀ task, in_flight (up s2) = Some task →
              ∃ r3 s3 s4,
                _upload_batch_sync c task.1 task.2 s2 = (r3, s3) ∧
                worker_step c s2 = Some s4 ∧ extends s3 s4 ∧
                stats (up s4) = stats (up s3) ∧
                in_flight (up s4) = None ∧ _upload_thread (up s4) = Alive)).
Proof.
  intros Hfair Hthread Hfl Hpw Hrun ids to_upload w0 rs.
  destruct (batch_sync_spec c _ _ _ _ _ Hrun) as (rs0 & tr & _ & Htr & _ & _ & _ & Hcase).
  destruct (batch_sync_grows c _ _ _ _ _ Hrun) as (_ & _ & Hc).
  destruct Hc as (_ & _ & Hq & _ & Ht & Hse & _).
  destruct Hcase as [(_ & _ & _ & [=])|[(_ & ? & _)|(Hfr & _ & _ & _ & Hcalls & _)]]; [lia|].
  fold ids to_upload in Hfr, Hcalls.
  pose proof Hrun as Hrun'. rewrite batch_sync_unfold in Hrun' by done. cbv zeta in Hrun'.
  fold ids to_upload w0 in Hrun'. subst rs.
  destruct (run_workers c (completion_order c (env (world s)) to_upload) w0)
    as [rs w1] eqn:Hw. cbn [fst].
  destruct (run_workers_spec c _ _ _ _ Hw) as (_ & _ & _ & _ & _ & Hlen).
  rewrite (Hfair _ _) in Hlen.
  match type of Hrun' with context [foldl tally_one ?u _] =>
    destruct (foldl_tally_spec (tallied rs) u) as (_ & _ & _ & _ & Hs & Hf & _) end.
  cbn [stats set_stats success failed add_items add_skipped add_pages] in Hs, Hf.
  pose proof (results_split rs) as Hsplit.
  split; [|split].
  - split; [exact Hlen|]. eexists. split; [exact Htr|]. intros item Hin.
    rewrite calls_app, calls_marks. cbn [app]. apply Hcalls. by rewrite (Hfair _ _).
  - destruct (first_exc rs) as [e'|] eqn:Hexc.
    + injection Hrun' as <- <-. cbn [up]. split; [exact Hs|]. split; [exact Hf|].
      split; [done|]. split; [|exact Hsplit]. rewrite <- Hlen. by eapply tallied_short.
    + destruct (call_on_progress c _) as [[[]|x] sp] eqn:Hp; [done|].
      injection Hrun' as <- <-.
      destruct (call_on_progress_spec c _ _ _ Hp)
        as (Hup & _ & [[=]|(f & st & e0 & x' & e1 & Hf1 & Hf2 & [= <-])]).
      rewrite Hup. cbn [up]. split; [exact Hs|]. split; [exact Hf|].
      split; [exact Hsplit|]. by exists f, st, e0, e1.
  - eexists. split; [by eapply worker_step_batch|]. split; [done|]. cbn.
    rewrite Ht, Hq. split; [done|]. split; [done|]. split; [done|].
    intros Hstop Hpills acts Hacts. set (s2 := run c _ acts).
    assert (Hserv : serving s2).
    { apply serving_run; [done|]. split; [|split]; cbn; by rewrite ?Ht, ?Hse, ?Hq. }
    destruct Hserv as (Ht2 & Hs2 & Hq2). split; [exact Ht2|]. split.
    + intros task rest Hfl2 Hqueue. eexists.
      split; [by apply (worker_step_take c _ task rest)|]. by split.
    + intros [batch3 page3] Hfl3.
      destruct (_upload_batch_sync c batch3 page3 s2) as [r3 s3] eqn:Hrun3.
      destruct (batch_sync_grows c _ _ _ _ _ Hrun3) as (_ & _ & Hc3).
      destruct Hc3 as (_ & _ & _ & _ & Ht3 & _).
      eexists r3, s3, _. split; [done|].
      split; [by eapply worker_step_batch|].
      destruct r3; cbn; rewrite ?Ht3, ?Ht2; (split; [|done]).
      * exists []. cbn. by rewrite app_nil_r.
      * by eexists [_].
Qed.

End Escape.

(** *** The empty batch *)

(** C8.  [upload_batch] with an empty list returns at once: the state is
    the one it was called in, so no counter changed, nothing was queued,
    [_session_started] is as it was, no thread was started and nothing was
    logged. *)
Theorem upload_batch_empty_is_noop {E : Type} (page_num : Z) (s : State E) :
  upload_batch [] page_num s = s.
Proof. reflexivity. Qed.

(** Closed instances of the retry properties. *)

Lemma upload_one_retry_bound_witness :
  ∃ error w',
    _upload_one Scenario.always_503 (Scenario.record "a") Scenario.world0 =
      (Ok ("a", false, 0, 0, Some error), w') ∧
    calls (trace w') = replicate 3 (Scenario.record "a") ∧
    effects (trace w') =
      [EvCall (Scenario.record "a"); EvSleep (2 # 1)%Q;
       EvCall (Scenario.record "a"); EvSleep (4 # 1)%Q;
       EvCall (Scenario.record "a")] ∧
    ∀ (s : State unit) b,
      ∃ s', tally_loop [Ok ("a", false, 0, 0, Some error)] b s = (Ok b, s') ∧
            failed (stats (up s')) = failed (stats (up s)) + 1 ∧
            success (stats (up s')) = success (stats (up s)).
Proof.
  apply (upload_one_retry_bound Scenario.always_503 (Scenario.record "a") Scenario.world0).
  - intros e. eexists _, _. split; [reflexivity|]. by vm_compute.
  - intros d e. reflexivity.
Defined.

(** The claim with the whole message in place of its first 100 characters
    fails: every call raises a message that holds "503", the sleeps return,
    and the upload function is called once, not three times. *)
Lemma retry_bound_whole_message_counterexample :
  (∀ e, ∃ x e', upload_func Scenario.late_503 (Scenario.record "a") e = (Raised x, e') ∧
                str_contains "503" (exn_message x) = true) ∧
  (∀ d e, (sleep Scenario.late_503 d e).1 = None) ∧
  calls (trace (_upload_one Scenario.late_503 (Scenario.record "a") Scenario.world0).2)
    = [Scenario.record "a"] ∧
  calls (trace (_upload_one Scenario.late_503 (Scenario.record "a") Scenario.world0).2)
    ≠ replicate (Z.to_nat MAX_RETRIES) (Scenario.record "a").
Proof.
  split; [|split; [|split]].
  - intros e. eexists _, _. split; [reflexivity|]. by vm_compute.
  - intros d e. reflexivity.
  - by vm_compute.
  - by vm_compute.
Qed.

Lemma upload_one_no_retry_witness :
  ∃ error w',
    _upload_one Scenario.always_400 (Scenario.record "b") Scenario.world0 =
      (Ok ("b", false, 0, 0, error), w') ∧
    calls (trace w') = [Scenario.record "b"] ∧
    effects (trace w') = [EvCall (Scenario.record "b")] ∧
    ∀ (s : State unit) b,
      ∃ s', tally_loop [Ok ("b", false, 0, 0, error)] b s = (Ok b, s') ∧
            failed (stats (up s')) = failed (stats (up s)) + 1 ∧
            success (stats (up s')) = success (stats (up s)).
Proof.
  apply (upload_one_no_retry Scenario.always_400 (Scenario.record "b") Scenario.world0
           (Raised (PyExn "HTTPError" "400 Bad Request")) tt).
  - reflexivity.
  - by vm_compute.
Defined.

Lemma retry_test_reads_first_100_witness :
  ∃ w',
    _upload_one Scenario.late_503 (Scenario.record "a") Scenario.world0 =
      (Ok ("a", false, 0, 0, Some (str_slice_to 100 Scenario.late_503_message)), w') ∧
    effects (trace w') = [EvCall (Scenario.record "a")].
Proof.
  apply (proj2 (retry_test_reads_first_100 Scenario.late_503)
           (Scenario.record "a") Scenario.world0
           (PyExn "HTTPError" Scenario.late_503_message) tt).
  - by vm_compute.
  - by vm_compute.
  - reflexivity.
Defined.

(** Closed instances of the properties of batches and sessions. *)

Lemma identity_pool_fair {E} (f : Item → E → Outcome * E) : fair_pool (Scenario.collab_of f).
Proof. intros e l. reflexivity. Qed.

Lemma graceful_finish_attempts_everything_witness :
  ∃ s', finish Scenario.always_ok "" false
          (run Scenario.always_ok (new_uploader 3 tt) Scenario.two_batches) = Returns s' ∧
        accounted (trace (world s')) (Scenario.record "a") ∧
        accounted (trace (world s')) (Scenario.record "b") ∧
        _upload_queue (up s') = [] ∧ in_flight (up s') = None.
Proof.
  destruct (graceful_finish_attempts_everything Scenario.always_ok 3 tt Scenario.two_batches ""
              (identity_pool_fair _)) as [Hsafe Hlive].
  { repeat constructor; discriminate. }
  destruct Hlive as [s' Hfin]; [done|by split|].
  exists s'. split; [exact Hfin|].
  destruct (Hsafe s' Hfin) as (Hacc & Hq & Hfl & _).
  split; [apply Hacc; apply list_elem_of_here|].
  split; [apply Hacc; apply list_elem_of_further, list_elem_of_here|]. by split.
Defined.

Lemma duplicates_never_delivered_witness :
  ∃ s',
    finish Scenario.always_ok "" false
      (upload_batch [Scenario.record "1"; Scenario.record "2"; Scenario.record "3"] 1
         (add_existing_ids {[ "1"; "2" ]} (new_uploader PARALLEL_WORKERS tt))) = Returns s' ∧
    items (stats (up s')) = 1 ∧ success (stats (up s')) = 1 ∧
    skipped (stats (up s')) = 2 ∧ failed (stats (up s')) = 0.
Proof.
  apply (duplicates_never_delivered Scenario.always_ok (identity_pool_fair _)).
  - intros item e. by eexists _, _, _, _.
  - by intros f st e [=].
Defined.

Lemma forced_finish_discards_queue_witness :
  let s := run Scenario.always_ok (new_uploader 3 tt) Scenario.two_batches in
  ∃ s', finish Scenario.always_ok "" true s = Returns s' ∧
        only_in_flight Scenario.always_ok s (worker_run Scenario.always_ok 5 s') ∧
        Forall (λ x, x = None) (_upload_queue (up (worker_run Scenario.always_ok 5 s'))).
Proof.
  intros s.
  destruct (forced_finish_discards_queue Scenario.always_ok s "" 5 (identity_pool_fair _))
    as [(s' & Hfin & Hout & Hq) _].
  exists s'. split; [exact Hfin|]. split; [exact Hout|]. by apply Hq.
Defined.

(** A dispatcher step that delivers record "a" and has record "b" refused
    with negative photo counts in the answer: the proviso holds, and every
    counter that moves grows. *)
Lemma counters_and_ids_only_grow_witness :
  let s := Scenario.in_hand Scenario.refused_negative in
  let s' := step Scenario.refused_negative s ActWorker in
  pipeline_op Scenario.refused_negative s s' ∧ grows_core s s' ∧ grows s s' ∧
  stats (up s) = stats0 ∧
  stats (up s') = {| pages := 1; items := 2; success := 1; failed := 1; skipped := 0;
                     photos_added := 2; photos_failed := 1 |} ∧
  (upload_func Scenario.refused_negative (Scenario.record "b") tt).1
    = Returned false (-1) (-1) (Some "refused").
Proof.
  intros s s'.
  assert (Hop : pipeline_op Scenario.refused_negative s s') by apply op_step.
  destruct (counters_and_ids_only_grow Scenario.refused_negative s s' Hop) as [Hcore Hall].
  split; [exact Hop|]. split; [exact Hcore|]. split; [|by vm_compute].
  apply Hall. intros item e added failed_photos err e'. cbn.
  destruct (bool_decide (item_id item = "a")); intros [= <- <- <- <-]; lia.
Defined.

(** The claim without its proviso fails: a dispatcher step that delivers
    two records for which the upload function reports [-1] photos added
    takes [photos_added] from 0 to -2. *)
Lemma photo_counter_lowered_counterexample :
  let s := Scenario.in_hand Scenario.negative_photos in
  let s' := step Scenario.negative_photos s ActWorker in
  pipeline_op Scenario.negative_photos s s' ∧
  photos_added (stats (up s)) = 0 ∧ photos_added (stats (up s')) = -2 ∧
  ¬ grows s s'.
Proof.
  intros s s'. split; [apply op_step|]. split; [by vm_compute|]. split; [by vm_compute|].
  intros [[_ [Hpa _]] _]. revert Hpa. by vm_compute.
Qed.

Lemma interrupted_pool_fair : fair_pool Scenario.interrupted.
Proof. intros e l. reflexivity. Qed.

(** Records "a" and "b" are in the dispatcher's hand and record "c" is
    queued: the dispatch of the first batch ends with the exception of the
    interrupted sleep, the dispatcher logs it, stays alive and takes the
    batch of "c" in hand. *)
Lemma worker_exception_is_contained_witness :
  let c := Scenario.interrupted in
  let s := step c (Scenario.in_hand c) (ActUploadBatch [Scenario.record "c"] 0) in
  ∃ s1, worker_step c s = Some s1 ∧
        _upload_thread (up s1) = Alive ∧ in_flight (up s1) = None ∧
        _upload_queue (up s1) = _upload_queue (up s) ∧
        ∃ s3, worker_step c s1 = Some s3 ∧
              in_flight (up s3) = Some ([Scenario.record "c"], 0) ∧
              _upload_queue (up s3) = [].
Proof.
  intros c s.
  assert (Hqs : _upload_queue (up s) = [Some ([Scenario.record "c"], 0)]) by (by vm_compute).
  destruct (worker_exception_is_contained c s Scenario.two_records 0
              (PyExn "StopInterrupt" "stop requested")
              (_upload_batch_sync c Scenario.two_records 0 s).2
              interrupted_pool_fair eq_refl eq_refl eq_refl)
    as (_ & _ & s1 & Hstep & _ & Ht & Hfl & Hq & Hgo).
  { by vm_compute. }
  exists s1. split; [exact Hstep|]. split; [exact Ht|]. split; [exact Hfl|].
  split; [exact Hq|].
  destruct (Hgo eq_refl) with (acts := @nil Action) as (_ & Htake & _).
  { rewrite Hqs. repeat constructor. by eexists. }
  { constructor. }
  apply (Htake ([Scenario.record "c"], 0) []); [exact Hfl|].
  etrans; [exact Hq|exact Hqs].
Defined.

(** The claim as stated fails: the worker of record "a" lets the exception
    of an interrupted back-off sleep escape, the worker of record "b"
    completes with a delivery, and the dispatch tallies neither: [success]
    and [failed] are still 0 for the two records submitted. *)
Lemma results_after_escape_not_tallied_counterexample :
  let s := Scenario.in_hand Scenario.interrupted in
  ∃ e s',
    _upload_batch_sync Scenario.interrupted Scenario.two_records 0 s = (Exc e, s') ∧
    (upload_func Scenario.interrupted (Scenario.record "b") tt).1 = Returned true 0 0 None ∧
    calls (trace (world s')) = [Scenario.record "a"; Scenario.record "b"] ∧
    items (stats (up s')) = 2 ∧ success (stats (up s')) = 0 ∧ failed (stats (up s')) = 0.
Proof.
  intros s. eexists _, _. split; [by vm_compute|]. by vm_compute.
Qed.

End UploadSpec.

(** ** Properties of [TaskRunner.iterate] *)

Module RunnerSpec.
Import Runner.

Section Iterate.

Context {T I C : Type}.
Context (next_item : I → option (T * I)) (check_interrupt : C → option pyexn * C).

(** A closed generator answers [StopIteration] and does nothing. *)
Lemma nexts_closed (n : nat) (s : State T I C) :
  phase s = GenClosed →
  nexts next_item check_interrupt n s = (replicate n StopIteration, s).
Proof.
  intros Hc. induction n as [|n IH]; [done|].
  cbn [nexts]. unfold gen_next. rewrite Hc. by rewrite IH.
Qed.

(** From a generator that is not closed: what [n] calls of [next] give and
    leave in the trace. *)
Lemma nexts_spec (n : nat) (s : State T I C) rs s' :
  phase s ≠ GenClosed →
  nexts next_item check_interrupt n s = (rs, s') →
  ∃ tr ys tail,
    trace s' = trace s ++ tr ∧
    checked_trace tr ∧
    rs = (Yielded <$> ys) ++ tail ∧ closing tail ∧
    yields tr = ys ∧
    ys `prefix_of` unroll next_item n (source s) ∧
    pulls tr `prefix_of` unroll next_item n (source s) ∧
    (length (pulls tr) ≤ length ys + 1)%nat ∧
    (length (pulls tr) ≤ n)%nat ∧
    length (checks tr) = length (pulls tr) ∧
    (tail ≠ [] → phase s' = GenClosed) ∧
    ((∀ e, Raises e ∉ rs) → ys = unroll next_item n (source s)).
Proof.
  revert s rs s'. induction n as [|n IH]; intros s rs s' Hopen.
  - intros [= <- <-]. exists [], [], []. cbn. rewrite app_nil_r.
    split; [done|]. split; [apply checked_nil|]. split; [done|]. split; [by left|].
    split; [done|]. split; [done|]. split; [done|]. repeat split; done || lia.
  - cbn [nexts unroll]. unfold gen_next.
    destruct (next_item (source s)) as [[x src]|] eqn:Hnext;
      [destruct (check_interrupt (client s)) as [[e|] cl] eqn:Hcheck|].
    + (* the check raises *)
      destruct (phase s) eqn:Hphase; [| |done];
        rewrite nexts_closed by done; intros [= <- <-];
        exists [EvNext (Some x); EvCheck (Some e)], [], (Raises e :: replicate n StopIteration);
        cbn; (split; [done|]); (split; [apply checked_stop|]); (split; [done|]);
        (split; [right; right; by eexists _, _|]); (split; [done|]);
        (split; [apply prefix_nil|]); (split; [apply prefix_cons, prefix_nil|]);
        (do 4 (split; [done || lia|])); intros Hno; exfalso; apply (Hno e); by left.
    + (* the element is yielded *)
      destruct (phase s) eqn:Hphase; [| |done];
        match goal with |- context [nexts _ _ n ?s1] =>
          destruct (nexts next_item check_interrupt n s1) as [rs1 s2] eqn:Hn;
          apply IH in Hn as (tr & ys & tail & Htr & Hct & Hrs & Hcl & Hy & Hpy & Hpp & Hl1 & Hl2 & Hck & Hph & Hall);
            [|done] end;
        intros [= <- <-]; cbn [trace source] in *; subst ys;
        assert (Hall' : (∀ e, Raises e ∉ Yielded x :: rs1) →
                        x :: yields tr = x :: unroll next_item n src)
          by (intros Hno; f_equal; apply Hall; intros e He; apply (Hno e); by right);
        exists (EvNext (Some x) :: EvCheck None :: EvYield x :: tr), (x :: yields tr), tail;
        rewrite Htr, <- !app_assoc; unfold yields, pulls, checks in *; cbn;
        (split; [done|]); (split; [by apply checked_yield|]); (split; [by rewrite Hrs|]);
        (split; [done|]); (split; [done|]);
        (split; [by apply prefix_cons|]); (split; [by apply prefix_cons|]);
        rewrite Hck; (do 4 (split; [done || lia|])); exact Hall'.
    + (* the iterator is exhausted *)
      destruct (phase s) eqn:Hphase; [| |done];
        rewrite nexts_closed by done; intros [= <- <-];
        exists [EvNext None], [], (replicate (S n) StopIteration);
        cbn; (split; [done|]); (split; [apply checked_end|]); (split; [done|]);
        (split; [right; left; by eexists|]); (split; [done|]);
        (split; [done|]); (split; [done|]); repeat split; done || lia.
Qed.

(** C9.  A generator made by [iterate(items)] and asked [n] times for its
    next element:
    - every [yield] of an element comes right after a call of
      [check_interrupt] that returned, itself right after the pull of that
      element from the iterator, so there is one check for each element
      pulled;
    - the elements yielded are the first elements of the iterator, in its
      order;
    - the iterator is read one element at a time, each once: what was
      pulled is an initial part of its sequence, at most one element longer
      than what was yielded and no longer than the number of requests;
    - when a check raises, its exception goes to the caller, the generator
      is closed and every later request is answered by [StopIteration]: the
      elements left in the iterator are neither pulled nor yielded;
    - when no check raises, the elements yielded are the first [n] of the
      iterator, or all of them if it has fewer. *)
Theorem iterate_checks_before_each_yield (r : TaskRunner T) (cl : C) (items : I) (n : nat) :
  let run := nexts next_item check_interrupt n (iterate r cl items) in
  ∃ ys tail,
    run.1 = (Yielded <$> ys) ++ tail ∧ closing tail ∧
    checked_trace (trace run.2) ∧
    yields (trace run.2) = ys ∧
    ys `prefix_of` unroll next_item n items ∧
    pulls (trace run.2) `prefix_of` unroll next_item n items ∧
    (length (pulls (trace run.2)) ≤ length ys + 1)%nat ∧
    (length (pulls (trace run.2)) ≤ n)%nat ∧
    length (checks (trace run.2)) = length (pulls (trace run.2)) ∧
    (tail ≠ [] → phase run.2 = GenClosed ∧
                 gen_next next_item check_interrupt run.2 = (StopIteration, run.2)) ∧
    ((∀ e, Raises e ∉ run.1) → ys = unroll next_item n items).
Proof.
  intros run. destruct run as [rs s'] eqn:Hrun. subst run.
  destruct (nexts_spec n (iterate r cl items) rs s' ltac:(done) Hrun)
    as (tr & ys & tail & Htr & Hct & Hrs & Hcl & Hy & Hpy & Hpp & Hl1 & Hl2 & Hck & Hph & Hall).
  cbn in Htr. subst tr. exists ys, tail. cbn [fst snd].
  repeat (split; [done|]). split; [|done].
  intros Htail. split; [by apply Hph|]. unfold gen_next. by rewrite (Hph Htail).
Qed.

End Iterate.

End RunnerSpec.

(** ** Further properties of the streaming uploader *)

Module UploadMore.
Import Upload PyFacts UploadSpec Tally.

Lemma str_slice_to_length (n : nat) (s : string) :
  (String.length (str_slice_to n s) ≤ n)%nat.
Proof.
  revert s. induction n as [|n IH]; intros [|a s]; cbn; try lia.
  specialize (IH s). lia.
Qed.
#[local] Arguments str_slice_to : simpl never.
#[local] Arguments str_contains : simpl never.

Section Retry.

Context {E : Type} (c : Collab E).

Lemma calls_effects (tr : list Event) : calls (effects tr) = calls tr.
Proof.
  induction tr as [|ev tr IH]; [done|].
  destruct ev; simpl; congruence.
Qed.

Lemma sleeps_effects (tr : list Event) : sleeps (effects tr) = sleeps tr.
Proof.
  induction tr as [|ev tr IH]; [done|].
  destruct ev; simpl; congruence.
Qed.

Lemma attempt_loop_script item id attempts last_error (w : World E) r w' :
  attempt_loop c item id attempts last_error w = (r, w') →
  ∃ tr, trace w' = trace w ++ tr ∧
        effects tr `prefix_of` retry_script item attempts ∧
        (attempts ≠ [] → effects tr ≠ []).
Proof.
  revert last_error w. induction attempts as [|attempt rest IH]; intros last_error w.
  - intros [= <- <-]. exists []. rewrite app_nil_r. done.
  - cbn [attempt_loop retry_script].
    unfold mbind at 1, M_bind at 1, bind at 1, call_upload at 1.
    destruct (upload_func c item (env w)) as [[ok added failed_photos error|e] e'] eqn:Hf.
    + intros Hrun. exists [EvCall item].
      destruct ok; injection Hrun as <- <-; (split; [done|]); (split; [|done]);
        by apply prefix_cons, prefix_nil.
    + destruct (is_transient _) eqn:Ht; [destruct (attempt <? MAX_RETRIES - 1) eqn:Hlt|].
      * unfold mbind at 1, M_bind at 1, bind at 1, log at 1, emit at 1.
        unfold mbind at 1, M_bind at 1, bind at 1, time_sleep at 1. cbn [env trace].
        destruct (sleep c _ e') as [[x|] e''] eqn:Hs.
        -- intros [= <- <-]. eexists [_; _; _]. cbn [trace]. rewrite <- !app_assoc.
           split; [reflexivity|]. split; [|done].
           cbn. by apply prefix_cons, prefix_cons, prefix_nil.
        -- intros Hrun. apply IH in Hrun as (tr & Htr & Hpre & _).
           eexists ([_; _; _] ++ tr). rewrite Htr. cbn [trace]. rewrite <- !app_assoc.
           split; [reflexivity|]. rewrite effects_app. split; [|done].
           cbn. by apply prefix_cons, prefix_cons.
      * intros [= <- <-]. exists [EvCall item]. split; [done|]. split; [|done].
        by apply prefix_cons, prefix_nil.
      * intros [= <- <-]. exists [EvCall item]. split; [done|]. split; [|done].
        destruct (attempt <? MAX_RETRIES - 1); by apply prefix_cons, prefix_nil.
Qed.

Lemma upload_one_script item (w : World E) r w' :
  _upload_one c item w = (r, w') →
  ∃ tr, trace w' = trace w ++ tr ∧
        effects tr `prefix_of` retry_script item (py_range MAX_RETRIES) ∧
        effects tr ≠ [].
Proof.
  unfold _upload_one. unfold mbind at 1, M_bind at 1, bind at 1.
  destruct (attempt_loop c item (item_id item) _ None w) as [[[t|le]|e] w1] eqn:Hloop;
    apply attempt_loop_script in Hloop as (tr & Htr & Hpre & Hne);
    specialize (Hne ltac:(done)).
  - intros [= <- <-]. by exists tr.
  - unfold mbind, M_bind, bind, log, emit. intros [= <- <-].
    exists (tr ++ [EvLog (LogUploadError (item_id item) le)]). cbn [trace].
    rewrite Htr, <- app_assoc, effects_app. cbn. by rewrite app_nil_r.
  - intros [= <- <-]. by exists tr.
Qed.

Lemma upload_one_effects item (w : World E) r w' :
  _upload_one c item w = (r, w') →
  ∃ tr,
    trace w' = trace w ++ tr ∧
    effects tr `prefix_of`
      [EvCall item; EvSleep (RETRY_DELAY * inject_Z 1)%Q;
       EvCall item; EvSleep (RETRY_DELAY * inject_Z 2)%Q; EvCall item] ∧
    (1 ≤ length (calls tr) ≤ 3)%nat ∧ (length (sleeps tr) ≤ 2)%nat ∧
    skips tr = [] ∧ waits tr = [].
Proof.
  intros Hrun.
  destruct (upload_one_script _ _ _ _ Hrun) as (tr & Htr & Hpre & Hne).
  destruct (upload_one_spec c _ _ _ _ Hrun) as (tr' & n & Htr' & Hsk & Hwt & _).
  assert (tr' = tr) as -> by (rewrite Htr in Htr'; by apply app_inv_head in Htr').
  exists tr. split; [done|]. split; [exact Hpre|].
  rewrite <- (calls_effects tr), <- (sleeps_effects tr).
  destruct Hpre as [k Hk].
  change (retry_script item (py_range MAX_RETRIES)) with
    [EvCall item; EvSleep (RETRY_DELAY * inject_Z 1)%Q;
     EvCall item; EvSleep (RETRY_DELAY * inject_Z 2)%Q; EvCall item] in Hk.
  destruct (effects tr) as [|e1 [|e2 [|e3 [|e4 [|e5 [|e6 ?]]]]]]; cbn [app] in Hk; simplify_eq; cbn;
    repeat split; lia || done.
Qed.

(** X1.  Whatever the upload function and the sleeps do, the calls and
    sleeps of one [_upload_one] are an initial part of: call, sleep
    [RETRY_DELAY], call, sleep [2 * RETRY_DELAY], call.  So the upload
    function is called at least once and at most [MAX_RETRIES] times for
    the record, there are at most two back-off sleeps, and no sleep follows
    the last attempt. *)
Theorem upload_one_attempts_bounded (item : Item) (w : World E) :
  ∃ tr,
    trace (_upload_one c item w).2 = trace w ++ tr ∧
    effects tr `prefix_of`
      [EvCall item; EvSleep (RETRY_DELAY * inject_Z 1)%Q;
       EvCall item; EvSleep (RETRY_DELAY * inject_Z 2)%Q; EvCall item] ∧
    (1 ≤ length (calls tr) ≤ Z.to_nat MAX_RETRIES)%nat ∧
    (length (sleeps tr) ≤ 2)%nat ∧
    skips tr = [] ∧ waits tr = [].
Proof.
  destruct (_upload_one c item w) as [r w'] eqn:Hrun. cbn [fst snd].
  by apply upload_one_effects in Hrun.
Qed.

Lemma str_or_nonempty (error : option string) (d : string) :
  d ≠ "" → str_or error d ≠ "".
Proof. by destruct error as [[|a s]|]. Qed.

Lemma attempt_loop_shape item id attempts last_error (w : World E) x w' :
  attempt_loop c item id attempts last_error w = (Ok x, w') →
  match x with
  | LoopReturn t =>
      (∃ e added failed_photos err e',
         upload_func c item e = (Returned true added failed_photos err, e') ∧
         t = (id, true, added, failed_photos, None)) ∨
      (∃ e added failed_photos err e',
         upload_func c item e = (Returned false added failed_photos err, e') ∧
         t = (id, false, 0, 0, Some (str_or err "upload failed")))
  | LoopBreak le =>
      (le = last_error ∧ attempts = []) ∨
      ∃ e x e', upload_func c item e = (Raised x, e') ∧
                le = Some (str_slice_to 100 (exn_message x))
  end.
Proof.
  revert last_error w. induction attempts as [|attempt rest IH]; intros last_error w.
  - intros [= <- <-]. by left.
  - cbn [attempt_loop]. unfold mbind at 1, M_bind at 1, bind at 1, call_upload at 1.
    destruct (upload_func c item (env w)) as [[ok added failed_photos error|e] e'] eqn:Hf.
    + destruct ok; intros [= <- <-]; [left|right]; eauto 10.
    + destruct (is_transient _); [destruct (attempt <? MAX_RETRIES - 1)|];
        try (intros [= <- <-]; right; eauto 10).
      unfold mbind at 1, M_bind at 1, bind at 1, log at 1, emit at 1.
      unfold mbind at 1, M_bind at 1, bind at 1, time_sleep at 1. cbn [env trace].
      destruct (sleep c _ e') as [[x0|] e'']; [by intros [=]|].
      intros Hrun. apply IH in Hrun. destruct x; [done|].
      destruct Hrun as [[-> _]|?]; [|by right]. right. eauto 10.
Qed.

(** X3.  The tuple [_upload_one] returns carries the record's identifier
    and is one of three things: a success, with the photo counts of a call
    of the upload function that returned [success = True] and no error; a
    failure reported by the upload function, with both photo counts zero
    (whatever the function returned) and its error message, or
    "upload failed" when it gave none; or a failure by an exception, with
    both photo counts zero and the first 100 characters of the exception's
    message.  A failure always carries a message. *)
Theorem upload_one_result_shape (item : Item) (w : World E) (t : UploadTuple) :
  (_upload_one c item w).1 = Ok t →
  (∃ e added failed_photos err e',
     upload_func c item e = (Returned true added failed_photos err, e') ∧
     t = (item_id item, true, added, failed_photos, None)) ∨
  (∃ e added failed_photos err e',
     upload_func c item e = (Returned false added failed_photos err, e') ∧
     t = (item_id item, false, 0, 0, Some (str_or err "upload failed")) ∧
     str_or err "upload failed" ≠ "") ∨
  (∃ e x e',
     upload_func c item e = (Raised x, e') ∧
     t = (item_id item, false, 0, 0, Some (str_slice_to 100 (exn_message x))) ∧
     (String.length (str_slice_to 100 (exn_message x)) ≤ 100)%nat).
Proof.
  destruct (_upload_one c item w) as [r w'] eqn:Hrun. cbn [fst]. intros ->.
  revert Hrun. unfold _upload_one. unfold mbind at 1, M_bind at 1, bind at 1.
  destruct (attempt_loop c item (item_id item) _ None w) as [[[t'|le]|e] w1] eqn:Hloop;
    [| |by intros [=]]; apply attempt_loop_shape in Hloop.
  - intros [= <- <-]. destruct Hloop as [H|(e & a & f & err & e' & Hf & ->)]; [by left|].
    right; left. exists e, a, f, err, e'. split; [done|]. split; [done|].
    by apply str_or_nonempty.
  - unfold mbind, M_bind, bind, log, emit. intros [= <- <-].
    destruct Hloop as [[_ [=]]|(e & x & e' & Hf & ->)].
    right; right. exists e, x, e'. split; [done|]. split; [done|].
    apply str_slice_to_length.
Qed.

(** X2.  After two transient failures with back-off sleeps that return,
    the third call of the upload function decides, whatever it does: a
    returned success is the result, with its photo counts; a returned
    failure or an exception, transient or not, makes the record a failure.
    There are three calls, a sleep of [RETRY_DELAY] after the first and of
    [2 * RETRY_DELAY] after the second, and no sleep after the third. *)
Theorem upload_one_third_attempt_decides (item : Item) (w : World E)
    (x1 x2 : pyexn) (e1 e1' e2 e2' e3 : E) (o3 : Outcome) :
  upload_func c item (env w) = (Raised x1, e1) →
  is_transient (str_slice_to 100 (exn_message x1)) = true →
  sleep c (RETRY_DELAY * inject_Z 1)%Q e1 = (None, e1') →
  upload_func c item e1' = (Raised x2, e2) →
  is_transient (str_slice_to 100 (exn_message x2)) = true →
  sleep c (RETRY_DELAY * inject_Z 2)%Q e2 = (None, e2') →
  upload_func c item e2' = (o3, e3) →
  ∃ w',
    _upload_one c item w =
      (Ok match o3 with
          | Returned true added failed_photos _ =>
              (item_id item, true, added, failed_photos, None)
          | Returned false _ _ err =>
              (item_id item, false, 0, 0, Some (str_or err "upload failed"))
          | Raised x3 =>
              (item_id item, false, 0, 0, Some (str_slice_to 100 (exn_message x3)))
          end, w') ∧
    env w' = e3 ∧
    effects (trace w') = effects (trace w) ++
      [EvCall item; EvSleep (RETRY_DELAY * inject_Z 1)%Q;
       EvCall item; EvSleep (RETRY_DELAY * inject_Z 2)%Q; EvCall item].
Proof.
  intros Hf1 Ht1 Hs1 Hf2 Ht2 Hs2 Hf3.
  unfold _upload_one. rewrite py_range_MAX_RETRIES.
  unfold mbind at 1, M_bind at 1, bind at 1.
  erewrite attempt_retry; [|exact Hf1|exact Ht1|done|exact Hs1].
  erewrite attempt_retry; [|exact Hf2|exact Ht2|done|exact Hs2].
  destruct o3 as [ok added failed_photos err|x3].
  - erewrite attempt_returned by exact Hf3.
    destruct ok; (eexists; split; [reflexivity|]); (split; [done|]);
      cbn [trace]; rewrite !effects_app; cbn; by rewrite <- !app_assoc.
  - erewrite attempt_break; [|exact Hf3|by right].
    eexists; split; [reflexivity|]. split; [done|].
    cbn [trace]. rewrite !effects_app. cbn. by rewrite <- !app_assoc.
Qed.

End Retry.

Section Dispatch.

Context {E : Type} (c : Collab E).

Lemma batch_sync_unfold_nothing (batch : list Item) (page_num : Z) (s : State E) :
  let ids := _existing_ids (up s) in
  let dups := duplicates ids batch in
  fresh ids batch = [] →
  _upload_batch_sync c batch page_num s =
    (Ok 0,
     {| up := set_stats (λ st, add_skipped (Z.of_nat (length dups)) (add_pages 1 st)) (up s);
        world := {| env := env (world s);
                    trace := trace (world s) ++ (EvSkip <$> dups) ++
                             (if 0 <? page_num
                              then [EvLog (LogPageAllDuplicates page_num
                                             (Z.of_nat (length dups)))]
                              else []) |} |}).
Proof.
  intros ids dups Hfr. unfold _upload_batch_sync.
  unfold mbind at 1, M_bind at 1, bind at 1, modify_up at 1.
  unfold mbind at 1, M_bind at 1, bind at 1.
  rewrite filter_loop_spec. cbn [up world _existing_ids set_stats app].
  fold ids dups. rewrite Hfr, set_stats_set_stats.
  unfold mbind at 1, M_bind at 1, bind at 1. rewrite when_log.
  cbn [up world env trace]. by rewrite Z.add_0_l, <- app_assoc.
Qed.

Lemma batch_sync_unfold_no_pool (batch : list Item) (page_num : Z) (s : State E) :
  let ids := _existing_ids (up s) in
  let to_upload := fresh ids batch in
  let dups := duplicates ids batch in
  to_upload ≠ [] → parallel_workers (up s) ≤ 0 →
  _upload_batch_sync c batch page_num s =
    (Exc (PyExn "ValueError" "max_workers must be greater than 0"),
     {| up := set_stats (λ st, add_items (Z.of_nat (length to_upload))
                                 (add_skipped (Z.of_nat (length dups)) (add_pages 1 st)))
                        (up s);
        world := {| env := env (world s);
                    trace := trace (world s) ++ (EvSkip <$> dups) ++
                             (if 0 <? page_num
                              then [EvLog (LogPageUploading page_num (length to_upload))]
                              else []) |} |}).
Proof.
  intros ids to_upload dups Hfr Hpw. unfold _upload_batch_sync.
  unfold mbind at 1, M_bind at 1, bind at 1, modify_up at 1.
  unfold mbind at 1, M_bind at 1, bind at 1.
  rewrite filter_loop_spec. cbn [up world _existing_ids set_stats app].
  fold ids to_upload dups. rewrite set_stats_set_stats.
  rewrite (match_nonempty _ _ _ Hfr).
  unfold mbind at 1, M_bind at 1, bind at 1, modify_up at 1.
  unfold mbind at 1, M_bind at 1, bind at 1. rewrite when_log.
  cbn [up world env trace]. rewrite set_stats_set_stats.
  unfold mbind at 1, M_bind at 1, bind at 1, thread_pool at 1.
  cbn [up world env trace parallel_workers set_stats].
  rewrite (proj2 (Z.leb_le _ _) Hpw). by rewrite <- app_assoc.
Qed.

Lemma sleeps_marks (l : list Item) : sleeps (EvSkip <$> l) = [].
Proof. by induction l. Qed.

(** The workers of a batch make between one and three calls each, and at
    most two sleeps each. *)
Lemma run_workers_counts (order : list Item) (w : World E) rs w' :
  run_workers c order w = (rs, w') →
  ∃ tr,
    trace w' = trace w ++ tr ∧
    (length order ≤ length (calls tr) ≤ 3 * length order)%nat ∧
    (length (sleeps tr) ≤ 2 * length order)%nat.
Proof.
  revert w rs w'. induction order as [|item rest IH]; intros w rs w'.
  - intros [= <- <-]. exists []. rewrite app_nil_r. cbn. repeat split; lia.
  - cbn [run_workers].
    destruct (_upload_one c item w) as [r w1] eqn:Hone.
    destruct (run_workers c rest w1) as [rs' w2] eqn:Hrest.
    intros [= <- <-].
    apply upload_one_effects in Hone as (tr1 & Htr1 & _ & Hc1 & Hs1 & _).
    apply IH in Hrest as (tr2 & Htr2 & Hc2 & Hs2).
    exists (tr1 ++ tr2). rewrite Htr2, Htr1, <- app_assoc.
    rewrite calls_app, sleeps_app, !length_app. cbn [length]. repeat split; lia.
Qed.

Lemma call_on_progress_trace (s : State E) r s' :
  call_on_progress c s = (r, s') →
  up s' = up s ∧
  ∃ tr, trace (world s') = trace (world s) ++ tr ∧ calls tr = [] ∧ sleeps tr = [].
Proof.
  unfold call_on_progress. destruct (on_progress c) as [f|].
  - destruct (f _ _) as [[e|] e'] eqn:Hf; intros [= <- <-]; (split; [done|]);
      by exists [EvProgress (stats (up s))].
  - intros [= <- <-]. split; [done|]. exists []. by rewrite app_nil_r.
Qed.

(** The calls and sleeps of one dispatch, counted against the records it
    has to deliver. *)
Lemma batch_sync_counts (batch : list Item) (page_num : Z) (s : State E) r s' :
  fair_pool c →
  _upload_batch_sync c batch page_num s = (r, s') →
  let n := length (fresh (_existing_ids (up s)) batch) in
  items (stats (up s')) = items (stats (up s)) + Z.of_nat n ∧
  ∃ tr,
    trace (world s') = trace (world s) ++ tr ∧
    (length (calls tr) ≤ 3 * n)%nat ∧ (length (sleeps tr) ≤ 2 * n)%nat ∧
    (0 < parallel_workers (up s) → (n ≤ length (calls tr))%nat).
Proof.
  intros Hfair Hrun n.
  destruct (batch_sync_dedup c _ _ _ _ _ Hfair Hrun)
    as (? & ? & ? & _ & _ & _ & _ & _ & _ & Hitems & _).
  split; [exact Hitems|]. clear Hitems.
  destruct (decide (fresh (_existing_ids (up s)) batch = [])) as [Hfr|Hfr].
  - rewrite batch_sync_unfold_nothing in Hrun by done. injection Hrun as <- <-.
    eexists. cbn [world trace]. split; [reflexivity|].
    rewrite !calls_app, !sleeps_app, calls_marks, sleeps_marks.
    subst n. rewrite Hfr. by destruct (0 <? page_num).
  - destruct (decide (0 < parallel_workers (up s))) as [Hpw|Hpw].
    + rewrite batch_sync_unfold in Hrun by done. cbv zeta in Hrun.
      destruct (run_workers c _ _) as [rs w1] eqn:Hw.
      apply run_workers_counts in Hw as (trw & Htrw & Hcw & Hsw).
      rewrite (Permutation_length (Hfair _ _)) in Hcw, Hsw. fold n in Hcw, Hsw.
      cbn [trace] in Htrw.
      assert (∃ post, trace (world s') = trace w1 ++ post ∧ calls post = [] ∧ sleeps post = [])
        as (post & Hpost & Hcp & Hsp).
      { destruct (first_exc rs).
        - injection Hrun as <- <-. exists []. by rewrite app_nil_r.
        - destruct (call_on_progress c _) as [rp sp] eqn:Hp.
          apply call_on_progress_trace in Hp as (_ & trp & Htrp & Hcp & Hsp).
          cbn [world trace] in Htrp.
          assert (world s' = world sp) as -> by (destruct rp; by injection Hrun as <- <-).
          eexists. rewrite Htrp, <- app_assoc. split; [reflexivity|].
          rewrite calls_app, sleeps_app, Hcp, Hsp. by destruct (0 <? page_num). }
      eexists. rewrite Hpost, Htrw, <- !app_assoc. split; [reflexivity|].
      rewrite !calls_app, !sleeps_app, calls_marks, sleeps_marks, Hcp, Hsp, !length_app.
      destruct (0 <? page_num); cbn; repeat split; lia.
    + rewrite batch_sync_unfold_no_pool in Hrun by (done || lia). injection Hrun as <- <-.
      eexists. cbn [world trace]. split; [reflexivity|].
      rewrite !calls_app, !sleeps_app, calls_marks, sleeps_marks.
      destruct (0 <? page_num); cbn; repeat split; lia.
Qed.

Lemma tallied_elem (rs : list (Res UploadTuple)) (t : UploadTuple) :
  t ∈ tallied rs → Ok t ∈ rs.
Proof.
  induction rs as [|[t'|e] rs IH]; cbn; [by intros ?%elem_of_nil| |by intros ?%elem_of_nil].
  intros [->|Hin]%elem_of_cons; [by left|]. right. by apply IH.
Qed.

Lemma Forall2_elem_r {A B} (P : A → B → Prop) (l : list A) (k : list B) (y : B) :
  Forall2 P l k → y ∈ k → ∃ x, x ∈ l ∧ P x y.
Proof.
  induction 1 as [|x y' l k Hxy _ IH]; [by intros ?%elem_of_nil|].
  intros [->|Hin]%elem_of_cons; [exists x; split; [by left|done]|].
  destruct (IH Hin) as (x' & ? & ?). exists x'. split; [by right|done].
Qed.

(** The identifiers a dispatch adds are those of records it called the
    upload function for, with a call that returned success. *)
Lemma batch_sync_new_ids (batch : list Item) (page_num : Z) (s : State E) r s' id :
  _upload_batch_sync c batch page_num s = (r, s') →
  id ∈ _existing_ids (up s') →
  id ∈ _existing_ids (up s) ∨
  ∃ item tr, trace (world s') = trace (world s) ++ tr ∧ item ∈ calls tr ∧
             item_id item = id ∧ confirmed c item.
Proof.
  intros Hrun Hid.
  destruct (batch_sync_spec c _ _ _ _ _ Hrun) as (rs & tr & Hup & Htr & _ & _ & _ & Hcase).
  match type of Hup with _ = foldl _ ?u _ =>
    destruct (foldl_tally_spec (tallied rs) u) as (_ & _ & _ & _ & _ & _ & _ & _ & Hnew) end.
  rewrite <- Hup in Hnew. destruct (Hnew id Hid) as [Hold|(t & Hin & Hok & Hidt)]; [by left|].
  right.
  destruct Hcase as [(_ & -> & _)|[(_ & _ & -> & _)|(_ & _ & (w0 & w1 & Hw) & _ & Hcalls & _)]];
    [by apply elem_of_nil in Hin|by apply elem_of_nil in Hin|].
  assert (HF : Forall2 (λ item r, ∀ t, r = Ok t → tuple_ok t = true →
                          t.1.1.1.1 = item_id item ∧ confirmed c item)
                 (completion_order c (env (world s)) (fresh (_existing_ids (up s)) batch)) rs).
  { eapply run_workers_results; [|exact Hw].
    intros item wa ra wb Hone t' -> Hok'.
    apply upload_one_tuple in Hone as [[err ->]|(e & a & f & err & e' & Hf & ->)]; [done|].
    split; [done|]. by exists e, a, f, err, e'. }
  destruct (Forall2_elem_r _ _ _ _ HF (tallied_elem _ _ Hin)) as (item & Hitem & Ht).
  destruct (Ht t eq_refl Hok) as [Hid' Hconf].
  exists item, ((EvSkip <$> duplicates (_existing_ids (up s)) batch) ++ tr).
  split; [done|]. split; [|split; [congruence|done]].
  rewrite calls_app, calls_marks. by apply Hcalls.
Qed.

(** With an upload function that always succeeds, a worker makes one
    call and returns a success. *)
Lemma upload_one_always item (w : World E) :
  always_succeeds c →
  ∃ added failed_photos e',
    _upload_one c item w =
      (Ok (item_id item, true, added, failed_photos, None),
       {| env := e'; trace := trace w ++ [EvCall item] |}).
Proof.
  intros Hok. destruct (Hok item (env w)) as (a & f & err & e' & Hf).
  exists a, f, e'. unfold _upload_one. rewrite py_range_MAX_RETRIES.
  unfold mbind at 1, M_bind at 1, bind at 1.
  by erewrite attempt_returned by exact Hf.
Qed.

Lemma run_workers_always (order : list Item) (w : World E) rs w' :
  always_succeeds c →
  run_workers c order w = (rs, w') →
  trace w' = trace w ++ (EvCall <$> order) ∧
  first_exc rs = None ∧ length (tallied rs) = length order ∧
  delivered (tallied rs) = Z.of_nat (length order) ∧
  ∀ u, _existing_ids (foldl tally_one u (tallied rs)) =
       _existing_ids u ∪ list_to_set (item_id <$> order).
Proof.
  intros Hok. revert w rs w'. induction order as [|item rest IH]; intros w rs w'.
  - intros [= <- <-]. cbn. rewrite app_nil_r. repeat split; try done.
    intros u. by rewrite (right_id_L ∅ (∪)).
  - cbn [run_workers].
    destruct (upload_one_always item w Hok) as (a & f & e' & ->).
    destruct (run_workers c rest _) as [rs' w2] eqn:Hrest.
    intros [= <- <-]. apply IH in Hrest as (Htr & Hexc & Hlen & Hdel & Hids).
    cbn [trace] in Htr. rewrite Htr, <- app_assoc. split; [done|].
    cbn [first_exc tallied length foldl fmap list_fmap list_to_set]. split; [done|].
    split; [by rewrite Hlen|]. split.
    + unfold delivered in *. rewrite filter_cons, decide_True by done. cbn [length].
      lia.
    + intros u. rewrite Hids. cbn [tally_one _existing_ids set_existing_ids set_stats].
      by rewrite (assoc_L (∪)).
Qed.

Lemma skips_calls (l : list Item) : skips (EvCall <$> l) = [].
Proof. by induction l. Qed.

Lemma calls_calls (l : list Item) : calls (EvCall <$> l) = l.
Proof.
  induction l as [|x l IH]; [done|].
  change (x :: calls (EvCall <$> l) = x :: l). by rewrite IH.
Qed.

(** The dispatch of a batch by an upload function that always succeeds. *)
Lemma batch_sync_always (batch : list Item) (page_num : Z) (s : State E) r s' :
  fair_pool c → always_succeeds c → 0 < parallel_workers (up s) →
  _upload_batch_sync c batch page_num s = (r, s') →
  let ids := _existing_ids (up s) in
  (∃ tr, trace (world s') = trace (world s) ++ tr ∧
         calls tr ≡ₚ fresh ids batch ∧ skips tr = duplicates ids batch) ∧
  _existing_ids (up s') = ids ∪ list_to_set (item_id <$> fresh ids batch) ∧
  success (stats (up s')) = success (stats (up s)) + Z.of_nat (length (fresh ids batch)) ∧
  failed (stats (up s')) = failed (stats (up s)).
Proof.
  intros Hfair Hok Hpw Hrun ids.
  destruct (decide (fresh ids batch = [])) as [Hfr|Hfr].
  - rewrite batch_sync_unfold_nothing in Hrun by done. injection Hrun as <- <-.
    fold ids. rewrite Hfr. cbn [up world trace set_stats stats success failed
      add_skipped add_pages _existing_ids fmap list_fmap list_to_set length].
    split; [|split; [by rewrite (right_id_L ∅ (∪))|split; [lia|done]]].
    eexists. split; [reflexivity|].
    rewrite calls_app, skips_app, calls_marks, skips_marks.
    destruct (0 <? page_num); cbn; by rewrite ?app_nil_r.
  - rewrite batch_sync_unfold in Hrun by done. cbv zeta in Hrun. fold ids in Hrun.
    destruct (run_workers c _ _) as [rs w1] eqn:Hw.
    apply (run_workers_always _ _ _ _ Hok) in Hw as (Htr & Hexc & Hlen & Hdel & Hids).
    cbn [trace] in Htr. rewrite Hexc in Hrun.
    destruct (call_on_progress c _) as [rp sp] eqn:Hp.
    apply call_on_progress_spec in Hp as (Hup & (trp & Htrp & Hskp & _ & Hcp) & _).
    cbn [up world trace] in Hup, Htrp.
    assert (s' = sp) as -> by (destruct rp; by injection Hrun as <- <-).
    rewrite Hup, Hids. clear Hrun.
    match goal with |- context [foldl tally_one ?u (tallied rs)] =>
      destruct (foldl_tally_spec (tallied rs) u) as (_ & _ & _ & _ & Hs & Hf & _) end.
    rewrite Hs, Hf, Hdel, Hlen, (Permutation_length (Hfair _ _)).
    cbn [stats set_stats success failed add_items add_skipped add_pages _existing_ids].
    split; [|split; [|split]]; [| |reflexivity|lia].
    + eexists. rewrite Htrp, Htr, <- !app_assoc. split; [reflexivity|].
      rewrite !calls_app, !skips_app, calls_marks, skips_marks, calls_calls, Hcp, Hskp.
      split.
      * destruct (0 <? page_num); cbn; rewrite ?app_nil_r; apply Hfair.
      * rewrite skips_calls.
        destruct (0 <? page_num); cbn; by rewrite ?app_nil_r.
    + f_equal. apply set_eq. intros id. rewrite !elem_of_list_to_set.
      by rewrite (Hfair _ _).
Qed.

Lemma fresh_nil (ids : gset string) (batch : list Item) :
  (∀ item, item ∈ batch → item_id item ∈ ids) →
  fresh ids batch = [] ∧ duplicates ids batch = batch.
Proof.
  intros Hall. unfold fresh, duplicates. induction batch as [|item rest IH]; [done|].
  rewrite !filter_cons.
  rewrite decide_False by (intros Hn; apply Hn, Hall; by left).
  rewrite decide_True by (apply Hall; by left).
  destruct IH as [-> ->]; [|done]. intros x Hx. apply Hall. by right.
Qed.

(** A batch whose identifiers are all known is skipped as a whole. *)
Lemma batch_sync_all_known (batch : list Item) (page_num : Z) (s : State E) :
  (∀ item, item ∈ batch → item_id item ∈ _existing_ids (up s)) →
  ∃ s',
    _upload_batch_sync c batch page_num s = (Ok 0, s') ∧
    calls (trace (world s')) = calls (trace (world s)) ∧
    skips (trace (world s')) = skips (trace (world s)) ++ batch ∧
    skipped (stats (up s')) = skipped (stats (up s)) + Z.of_nat (length batch) ∧
    pages (stats (up s')) = pages (stats (up s)) + 1 ∧
    items (stats (up s')) = items (stats (up s)) ∧
    success (stats (up s')) = success (stats (up s)) ∧
    failed (stats (up s')) = failed (stats (up s)) ∧
    _existing_ids (up s') = _existing_ids (up s).
Proof.
  intros Hall. destruct (fresh_nil _ _ Hall) as [Hfr Hdup].
  eexists. rewrite batch_sync_unfold_nothing by done. split; [reflexivity|].
  rewrite Hdup. cbn [up world trace set_stats stats success failed pages items skipped
    add_skipped add_pages _existing_ids].
  rewrite !calls_app, !skips_app, calls_marks, skips_marks.
  destruct (0 <? page_num); cbn; by rewrite ?app_nil_r.
Qed.

(** X7.  Deduplication looks at the identifiers known when the dispatch
    starts, not at the batch itself.  With an upload function that always
    succeeds and a pool of positive size, the calls of a dispatch are, up to
    their order, the records of the batch whose identifier was not known,
    each as often as it occurs in the batch; [success] grows by their
    number, while [_existing_ids] gains each of their identifiers once. *)
Theorem dispatch_delivers_every_occurrence (batch : list Item) (page_num : Z)
    (s : State E) :
  fair_pool c → always_succeeds c → 0 < parallel_workers (up s) →
  let ids := _existing_ids (up s) in
  let s' := (_upload_batch_sync c batch page_num s).2 in
  (∃ tr, trace (world s') = trace (world s) ++ tr ∧ calls tr ≡ₚ fresh ids batch) ∧
  success (stats (up s')) = success (stats (up s)) + Z.of_nat (length (fresh ids batch)) ∧
  _existing_ids (up s') = ids ∪ list_to_set (item_id <$> fresh ids batch).
Proof.
  intros Hfair Hok Hpw ids.
  destruct (_upload_batch_sync c batch page_num s) as [r s1] eqn:Hrun. cbn [snd].
  destruct (batch_sync_always _ _ _ _ _ Hfair Hok Hpw Hrun)
    as ((tr & Htr & Hc & _) & Hids & Hs & _).
  split; [by exists tr|done].
Qed.

Lemma batch_sync_learns (batch : list Item) (page_num : Z) (s : State E) r s' item :
  fair_pool c → always_succeeds c → 0 < parallel_workers (up s) →
  _upload_batch_sync c batch page_num s = (r, s') →
  item ∈ batch → item_id item ∈ _existing_ids (up s').
Proof.
  intros Hfair Hok Hpw Hrun Hin.
  destruct (batch_sync_always _ _ _ _ _ Hfair Hok Hpw Hrun) as (_ & -> & _).
  destruct (decide (item_id item ∈ _existing_ids (up s))) as [Hk|Hk];
    apply elem_of_union; [by left|right].
  apply elem_of_list_to_set, list_elem_of_fmap. exists item. split; [done|].
  by apply list_elem_of_filter.
Qed.

(** X8.  With an upload function that always succeeds and a pool of
    positive size, a batch that was dispatched once is never delivered
    again: in every later state (one that has lost no identifier), the
    dispatch of the same batch returns 0 without a call of the upload
    function; it counts a page and every record as skipped, and changes
    neither [items], [success], [failed] nor the set. *)
Theorem redispatch_is_skipped (batch : list Item) (page_num page_num' : Z)
    (s s2 : State E) :
  fair_pool c → always_succeeds c → 0 < parallel_workers (up s) →
  _existing_ids (up (_upload_batch_sync c batch page_num s).2) ⊆ _existing_ids (up s2) →
  ∃ s3,
    _upload_batch_sync c batch page_num' s2 = (Ok 0, s3) ∧
    calls (trace (world s3)) = calls (trace (world s2)) ∧
    skips (trace (world s3)) = skips (trace (world s2)) ++ batch ∧
    skipped (stats (up s3)) = skipped (stats (up s2)) + Z.of_nat (length batch) ∧
    pages (stats (up s3)) = pages (stats (up s2)) + 1 ∧
    items (stats (up s3)) = items (stats (up s2)) ∧
    success (stats (up s3)) = success (stats (up s2)) ∧
    failed (stats (up s3)) = failed (stats (up s2)) ∧
    _existing_ids (up s3) = _existing_ids (up s2).
Proof.
  intros Hfair Hok Hpw Hsub.
  destruct (_upload_batch_sync c batch page_num s) as [r s1] eqn:Hrun. cbn [snd] in Hsub.
  apply batch_sync_all_known. intros item Hin. apply Hsub.
  by eapply batch_sync_learns.
Qed.

(** X9.  A record without an ["id"] key has the empty string as its
    identifier, so all such records are one record to the deduplication.
    With an upload function that always succeeds and a pool of positive
    size, once a batch holding a record without ["id"] was dispatched, a
    batch of records without ["id"] is skipped as a whole in every later
    state: no call of the upload function, every record counted as
    skipped. *)
Theorem records_without_id_collide (batch batch' : list Item) (page_num page_num' : Z)
    (s s2 : State E) :
  fair_pool c → always_succeeds c → 0 < parallel_workers (up s) →
  (∃ item, item ∈ batch ∧ item !! "id" = None) →
  Forall (λ item, item !! "id" = None) batch' →
  _existing_ids (up (_upload_batch_sync c batch page_num s).2) ⊆ _existing_ids (up s2) →
  "" ∈ _existing_ids (up s2) ∧
  ∃ s3,
    _upload_batch_sync c batch' page_num' s2 = (Ok 0, s3) ∧
    calls (trace (world s3)) = calls (trace (world s2)) ∧
    skipped (stats (up s3)) = skipped (stats (up s2)) + Z.of_nat (length batch') ∧
    items (stats (up s3)) = items (stats (up s2)) ∧
    success (stats (up s3)) = success (stats (up s2)).
Proof.
  intros Hfair Hok Hpw (item & Hin & Hno) Hall Hsub.
  destruct (_upload_batch_sync c batch page_num s) as [r s1] eqn:Hrun. cbn [snd] in Hsub.
  assert (Hempty : "" ∈ _existing_ids (up s2)).
  { apply Hsub. pose proof (batch_sync_learns _ _ _ _ _ item Hfair Hok Hpw Hrun Hin) as H.
    unfold item_id in H. by rewrite Hno in H. }
  split; [done|].
  destruct (batch_sync_all_known batch' page_num' s2)
    as (s3 & Hrun3 & Hc & _ & Hsk & _ & Hi & Hs & _).
  { intros item' Hin'. rewrite Forall_forall in Hall. unfold item_id.
    by rewrite (Hall item' Hin'). }
  by exists s3.
Qed.

Lemma progress_calls_app (tr1 tr2 : list Event) :
  progress_calls (tr1 ++ tr2) = progress_calls tr1 ++ progress_calls tr2.
Proof. apply omap_app. Qed.

Lemma progress_calls_marks (l : list Item) : progress_calls (EvSkip <$> l) = [].
Proof. by induction l. Qed.

Lemma attempt_loop_no_progress item id attempts last_error (w : World E) r w' :
  attempt_loop c item id attempts last_error w = (r, w') →
  ∃ tr, trace w' = trace w ++ tr ∧ progress_calls tr = [].
Proof.
  revert last_error w. induction attempts as [|attempt rest IH]; intros last_error w.
  - intros [= <- <-]. exists []. by rewrite app_nil_r.
  - cbn [attempt_loop]. unfold mbind at 1, M_bind at 1, bind at 1, call_upload at 1.
    destruct (upload_func c item (env w)) as [[ok added failed_photos error|e] e'] eqn:Hf.
    + intros Hrun. exists [EvCall item]. by destruct ok; injection Hrun as <- <-.
    + destruct (is_transient _) eqn:Ht; [destruct (attempt <? MAX_RETRIES - 1) eqn:Hlt|];
        try (intros [= <- <-]; by exists [EvCall item]).
      unfold mbind at 1, M_bind at 1, bind at 1, log at 1, emit at 1.
      unfold mbind at 1, M_bind at 1, bind at 1, time_sleep at 1. cbn [env trace].
      destruct (sleep c _ e') as [[x|] e''] eqn:Hs.
      * intros [= <- <-]. eexists [_; _; _]. cbn [trace]. by rewrite <- !app_assoc.
      * intros Hrun. apply IH in Hrun as (tr & Htr & Hp).
        eexists ([_; _; _] ++ tr). rewrite Htr. cbn [trace]. rewrite <- !app_assoc.
        split; [reflexivity|]. by rewrite progress_calls_app, Hp.
Qed.

Lemma upload_one_no_progress item (w : World E) r w' :
  _upload_one c item w = (r, w') →
  ∃ tr, trace w' = trace w ++ tr ∧ progress_calls tr = [].
Proof.
  unfold _upload_one. unfold mbind at 1, M_bind at 1, bind at 1.
  destruct (attempt_loop c item (item_id item) _ None w) as [[[t|le]|e] w1] eqn:Hloop;
    apply attempt_loop_no_progress in Hloop as (tr & Htr & Hp).
  - intros [= <- <-]. by exists tr.
  - unfold mbind, M_bind, bind, log, emit. intros [= <- <-].
    exists (tr ++ [EvLog (LogUploadError (item_id item) le)]). cbn [trace].
    rewrite Htr, <- app_assoc, progress_calls_app, Hp. done.
  - intros [= <- <-]. by exists tr.
Qed.

Lemma run_workers_no_progress (order : list Item) (w : World E) rs w' :
  run_workers c order w = (rs, w') →
  ∃ tr, trace w' = trace w ++ tr ∧ progress_calls tr = [].
Proof.
  revert w rs w'. induction order as [|item rest IH]; intros w rs w'.
  - intros [= <- <-]. exists []. by rewrite app_nil_r.
  - cbn [run_workers].
    destruct (_upload_one c item w) as [r w1] eqn:Hone.
    destruct (run_workers c rest w1) as [rs' w2] eqn:Hrest.
    intros [= <- <-].
    apply upload_one_no_progress in Hone as (tr1 & Htr1 & Hp1).
    apply IH in Hrest as (tr2 & Htr2 & Hp2).
    exists (tr1 ++ tr2). rewrite Htr2, Htr1, <- app_assoc, progress_calls_app, Hp1, Hp2. done.
Qed.

(** X10.  The progress callback is called at most once in a dispatch, as
    the last thing the dispatch does, and with the statistics as the
    dispatch leaves them.  It is called when the tally got to its end, so
    in every dispatch that returns with a record to deliver; it is not
    called for a batch with nothing to deliver (empty or all duplicates). *)
Theorem progress_callback_sees_final_statistics (batch : list Item) (page_num : Z)
    (s : State E) f :
  on_progress c = Some f →
  let run := _upload_batch_sync c batch page_num s in
  let to_upload := fresh (_existing_ids (up s)) batch in
  ∃ tr,
    trace (world run.2) = trace (world s) ++ tr ∧
    (progress_calls tr = [] ∨
     progress_calls tr = [stats (up run.2)] ∧ last tr = Some (EvProgress (stats (up run.2)))) ∧
    (to_upload = [] → progress_calls tr = []) ∧
    (∀ v, run.1 = Ok v → to_upload ≠ [] → progress_calls tr = [stats (up run.2)]).
Proof.
  intros Hprog run to_upload. subst run.
  destruct (decide (to_upload = [])) as [Hfr|Hfr].
  - rewrite batch_sync_unfold_nothing by done. cbn [fst snd world trace].
    eexists. split; [reflexivity|].
    assert (Hnone : ∀ l (ev : LogLine), progress_calls ((EvSkip <$> l) ++
              (if 0 <? page_num then [EvLog ev] else [])) = []).
    { intros l ev. rewrite progress_calls_app, progress_calls_marks.
      by destruct (0 <? page_num). }
    rewrite Hnone. split; [by left|]. split; [done|]. by intros.
  - destruct (decide (0 < parallel_workers (up s))) as [Hpw|Hpw].
    + rewrite batch_sync_unfold by done. cbv zeta.
      destruct (run_workers c _ _) as [rs w1] eqn:Hw.
      apply run_workers_no_progress in Hw as (trw & Htrw & Hpw').
      cbn [trace] in Htrw.
      destruct (first_exc rs) as [e|] eqn:Hexc.
      * cbn [fst snd world]. eexists. rewrite Htrw, <- app_assoc. split; [reflexivity|].
        rewrite !progress_calls_app, progress_calls_marks, Hpw'.
        split; [left; by destruct (0 <? page_num)|]. split; [done|]. by intros.
      * unfold call_on_progress. rewrite Hprog. cbn [up world env trace].
        destruct (f _ _) as [[x|] e'] eqn:Hf; cbn [fst snd up world trace];
          (eexists; rewrite Htrw, <- !app_assoc; split; [reflexivity|]);
          rewrite !progress_calls_app, progress_calls_marks, Hpw';
          (split; [right|split; [done|intros; by destruct (0 <? page_num)]]);
          (split; [by destruct (0 <? page_num)|]);
          rewrite !app_assoc; apply last_snoc.
    + rewrite batch_sync_unfold_no_pool by (done || lia). cbn [fst snd world trace].
      eexists. split; [reflexivity|].
      rewrite progress_calls_app, progress_calls_marks.
      split; [left; by destruct (0 <? page_num)|]. split; [done|]. by intros.
Qed.

End Dispatch.

(** *** Relations that every operation respects

    A relation between states that holds across every change of the
    control fields (the queue, its counter, the thread, the flags), every
    log line and blocking wait, every seeding that [seed_ok] admits and
    every dispatch, holds across every operation. *)
Section Frame.

Context {E : Type} (c : Collab E).

Variable R : State E → State E → Prop.
Variable seed_ok : gset string → Prop.
Hypothesis R_refl : ∀ s, R s s.
Hypothesis R_trans : ∀ s1 s2 s3, R s1 s2 → R s2 s3 → R s1 s3.
Hypothesis R_control : ∀ (f : Uploader → Uploader) s,
  stats (f (up s)) = stats (up s) →
  _existing_ids (f (up s)) = _existing_ids (up s) →
  parallel_workers (f (up s)) = parallel_workers (up s) →
  (_session_started (up s) = true → _session_started (f (up s)) = true) →
  R s (on_up f s).
Hypothesis R_say : ∀ ev s, effects [ev] = [] → skips [ev] = [] → R s (say ev s).
Hypothesis R_seed : ∀ ids s, seed_ok ids → R s (add_existing_ids ids s).
Hypothesis R_batch : ∀ batch page_num s r s',
  _upload_batch_sync c batch page_num s = (r, s') → R s s'.

Lemma finish_log_F (s : State E) : R s (finish_log s).
Proof. unfold finish_log. cbv zeta. eapply R_trans; [|by apply R_say]. by apply R_say. Qed.

Lemma queue_put_F (x : option Task) (s : State E) : R s (on_up (queue_put x) s).
Proof. by apply R_control. Qed.

Lemma worker_step_F (s s' : State E) : worker_step c s = Some s' → R s s'.
Proof.
  unfold worker_step.
  destruct (_upload_thread (up s)); try done.
  destruct (in_flight (up s)) as [[batch page_num]|].
  - destruct (_upload_batch_sync c batch page_num s) as [[v|e] s1] eqn:Hrun;
      intros [= <-]; apply R_batch in Hrun; (eapply R_trans; [exact Hrun|]).
    + by apply R_control.
    + eapply R_trans; [|by apply R_say]. by apply R_control.
  - destruct (_stop_event (up s)); [intros [= <-]; by apply R_control|].
    destruct (_upload_queue (up s)) as [|[task|] rest]; [done| |];
      intros [= <-]; by apply R_control.
Qed.

Lemma worker_run_F (fuel : nat) (s : State E) : R s (worker_run c fuel s).
Proof.
  revert s. induction fuel as [|fuel IH]; intros s; [apply R_refl|].
  cbn [worker_run]. destruct (worker_step c s) as [s1|] eqn:Hstep; [|apply R_refl].
  eapply R_trans; [by eapply worker_step_F|apply IH].
Qed.

Lemma thread_join_F (timeout : Q) (s : State E) : R s (thread_join c timeout s).
Proof.
  unfold thread_join. cbv zeta.
  destruct (in_flight _); [destruct (done_within _ _ _)|]; try (by apply R_say);
    (eapply R_trans; [|apply worker_run_F]); by apply R_say.
Qed.

Lemma abort_F (s : State E) : R s (abort c s).
Proof.
  unfold abort. cbv zeta.
  match goal with |- context [_upload_thread (up ?s2)] =>
    assert (Hg : R s s2) by
      (eapply R_trans; [|apply R_control; cbn [up on_up]; by rewrite iter_task_done];
       by apply R_control);
    destruct (_upload_thread (up s2)); try done end.
  eapply R_trans; [exact Hg|]. eapply R_trans; [|apply thread_join_F]. apply queue_put_F.
Qed.

Lemma queue_join_F (fuel : nat) (s : State E) : R s (final_state (queue_join c fuel s)).
Proof.
  revert s. induction fuel as [|fuel IH]; intros s; cbn [queue_join];
    destruct (unfinished_tasks (up s)); try apply R_refl.
  destruct (worker_step c s) as [s1|] eqn:Hstep; [|apply R_refl].
  eapply R_trans; [by eapply worker_step_F|apply IH].
Qed.

Lemma finish_F (duration : string) (force : bool) (s : State E) :
  R s (final_state (finish c duration force s)).
Proof.
  unfold finish. destruct (_upload_thread (up s)); try apply finish_log_F.
  destruct force.
  - cbn [final_state]. eapply R_trans; [|apply finish_log_F].
    eapply R_trans; [|apply abort_F]. by apply R_say.
  - cbv zeta. match goal with |- context [queue_join c ?f ?s1] =>
      pose proof (queue_join_F f s1) as Hq;
      assert (Hg : R s s1) by (eapply R_trans; [|by apply R_say]; by apply R_say);
      destruct (queue_join c f s1) as [s2|s2] end; cbn [final_state] in *.
    + eapply R_trans; [exact Hg|]. eapply R_trans; [exact Hq|].
      eapply R_trans; [|apply finish_log_F]. eapply R_trans; [|by apply R_say].
      eapply R_trans; [|apply thread_join_F]. apply queue_put_F.
    + by eapply R_trans.
Qed.

Lemma upload_batch_F (batch : list Item) (page_num : Z) (s : State E) :
  R s (upload_batch batch page_num s).
Proof.
  unfold upload_batch. destruct batch; [apply R_refl|]. cbv zeta.
  eapply R_trans; [|apply queue_put_F].
  destruct (_session_started (up s)); [apply R_refl|].
  assert (Hin : R s (say (EvLog LogStarting) (on_up (set_session_started (λ _, true)) s))).
  { eapply R_trans; [|by apply R_say]. by apply R_control. }
  unfold _start_upload_thread. destruct (_upload_thread _); try done;
    (eapply R_trans; [exact Hin|]); (eapply R_trans; [|by apply R_say]); by apply R_control.
Qed.

Lemma step_F (s : State E) (a : Action) : seeds_ok seed_ok [a] → R s (step c s a).
Proof.
  intros Hok. destruct a as [ids|batch page_num| |]; cbn [step].
  - apply R_seed, Hok. by left.
  - apply upload_batch_F.
  - destruct (worker_step c s) as [s'|] eqn:Hstep; [by eapply worker_step_F|apply R_refl].
  - apply abort_F.
Qed.

Lemma run_F (acts : list Action) (s : State E) : seeds_ok seed_ok acts → R s (run c s acts).
Proof.
  revert s. induction acts as [|a acts IH]; intros s Hok; [apply R_refl|].
  cbn [run foldl]. eapply R_trans; [apply step_F|apply IH].
  - intros ids Hin%list_elem_of_singleton. subst a. apply Hok. by left.
  - intros ids Hin. apply Hok. by right.
Qed.

Lemma session_F (acts : list Action) (duration : string) (force : bool) (s : State E) :
  seeds_ok seed_ok acts → R s (final_state (finish c duration force (run c s acts))).
Proof. intros Hok. eapply R_trans; [by apply run_F|apply finish_F]. Qed.

End Frame.

Section Sessions.

Context {E : Type} (c : Collab E).

Lemma calls_no_effect (ev : Event) : effects [ev] = [] → calls [ev] = [].
Proof. intros H. by rewrite <- calls_effects, H. Qed.

Lemma within_budget_session (acts : list Action) (duration : string) (force : bool)
    (s : State E) :
  fair_pool c →
  within_budget s (final_state (finish c duration force (run c s acts))).
Proof.
  intros Hfair. apply (session_F c within_budget (λ _, True)); try done.
  - intros s0. unfold within_budget. lia.
  - intros s1 s2 s3. unfold within_budget. lia.
  - intros f s0 Hs _ _ _. unfold within_budget. cbn [on_up up world]. rewrite Hs. lia.
  - intros ev s0 Hev _. unfold within_budget. cbn [say up world trace].
    rewrite calls_app, (calls_no_effect _ Hev), app_nil_r. lia.
  - intros ids s0 _. unfold within_budget, add_existing_ids.
    cbn [say on_up up world trace stats set_existing_ids].
    rewrite calls_app. cbn. rewrite app_nil_r. lia.
  - intros batch page_num s0 r s1 Hrun. unfold within_budget.
    destruct (batch_sync_counts c _ _ _ _ _ Hfair Hrun) as (Hitems & tr & Htr & Hc & _).
    rewrite Htr, Hitems, calls_app, length_app. unfold MAX_RETRIES. lia.
Qed.

(** X4.  The upload function is never called more than [MAX_RETRIES]
    times per record to deliver.  In one dispatch, the records to deliver
    being those of the batch whose identifier is not known: at most
    [MAX_RETRIES] calls and two sleeps for each, and, the pool size being
    positive, at least one call for each.  In a whole session, from a fresh
    uploader through any calls and dispatcher steps to the end of [finish]:
    the number of calls is at most [MAX_RETRIES * stats.items]. *)
Theorem calls_within_retry_budget :
  fair_pool c →
  (∀ batch page_num (s : State E),
     let s' := (_upload_batch_sync c batch page_num s).2 in
     let n := length (fresh (_existing_ids (up s)) batch) in
     ∃ tr, trace (world s') = trace (world s) ++ tr ∧
           (length (calls tr) ≤ Z.to_nat MAX_RETRIES * n)%nat ∧
           (length (sleeps tr) ≤ 2 * n)%nat ∧
           (0 < parallel_workers (up s) → (n ≤ length (calls tr))%nat)) ∧
  (∀ workers e0 acts duration force,
     let s' := final_state (finish c duration force (run c (new_uploader workers e0) acts)) in
     Z.of_nat (length (calls (trace (world s')))) ≤ MAX_RETRIES * items (stats (up s'))).
Proof.
  intros Hfair. split.
  - intros batch page_num s.
    destruct (_upload_batch_sync c batch page_num s) as [r s1] eqn:Hrun. cbn [snd].
    by destruct (batch_sync_counts c _ _ _ _ _ Hfair Hrun) as (_ & ?).
  - intros workers e0 acts duration force.
    pose proof (within_budget_session acts duration force (new_uploader workers e0) Hfair) as H.
    unfold within_budget in H. cbn in H. cbn zeta. lia.
Qed.

Lemma nothing_delivered_session (acts : list Action) (duration : string) (force : bool)
    (s : State E) :
  nothing_delivered s (final_state (finish c duration force (run c s acts))).
Proof.
  apply (session_F c nothing_delivered (λ _, True)); try done.
  - intros s1 s2 s3 H12 H23 Hpw. destruct (H12 Hpw) as (Hpw2 & Hc2 & Hs2 & Hf2).
    destruct (H23 Hpw2) as (Hpw3 & Hc3 & Hs3 & Hf3). repeat split; congruence || lia.
  - intros f s0 Hs _ Hp _ Hpw. cbn [on_up up world]. rewrite Hs, Hp. done.
  - intros ev s0 Hev _ Hpw. cbn [say up world trace].
    by rewrite calls_app, (calls_no_effect _ Hev), app_nil_r.
  - intros ids s0 _ Hpw. unfold add_existing_ids.
    cbn [say on_up up world trace stats set_existing_ids parallel_workers].
    rewrite calls_app. cbn. by rewrite app_nil_r.
  - intros batch page_num s0 r s1 Hrun Hpw.
    destruct (decide (fresh (_existing_ids (up s0)) batch = [])) as [Hfr|Hfr].
    + rewrite batch_sync_unfold_nothing in Hrun by done. injection Hrun as <- <-.
      cbn [up world trace set_stats stats parallel_workers success failed add_skipped add_pages].
      rewrite !calls_app, calls_marks. by destruct (0 <? page_num); rewrite ?app_nil_r.
    + rewrite batch_sync_unfold_no_pool in Hrun by done. injection Hrun as <- <-.
      cbn [up world trace set_stats stats parallel_workers success failed add_skipped
           add_pages add_items].
      rewrite !calls_app, calls_marks. by destruct (0 <? page_num); rewrite ?app_nil_r.
Qed.

(** X5.  An uploader built with a pool size that is not positive
    delivers nothing.  Every dispatch of a batch that has a record to
    deliver raises [ValueError] from the pool's constructor before any
    worker runs: the records are counted in [items] and [pages], in neither
    [success] nor [failed], and no identifier is added.  Through a whole
    session the upload function is never called, and [success] and [failed]
    stay zero. *)
Theorem no_pool_nothing_delivered (workers : Z) :
  workers ≤ 0 →
  (∀ batch page_num (s : State E),
     parallel_workers (up s) = workers →
     fresh (_existing_ids (up s)) batch ≠ [] →
     ∃ x s',
       _upload_batch_sync c batch page_num s = (Exc x, s') ∧
       exn_class x = "ValueError" ∧
       calls (trace (world s')) = calls (trace (world s)) ∧
       pages (stats (up s')) = pages (stats (up s)) + 1 ∧
       items (stats (up s')) =
         items (stats (up s)) + Z.of_nat (length (fresh (_existing_ids (up s)) batch)) ∧
       success (stats (up s')) = success (stats (up s)) ∧
       failed (stats (up s')) = failed (stats (up s)) ∧
       _existing_ids (up s') = _existing_ids (up s)) ∧
  (∀ e0 acts duration force,
     let s' := final_state (finish c duration force (run c (new_uploader workers e0) acts)) in
     calls (trace (world s')) = [] ∧
     success (stats (up s')) = 0 ∧ failed (stats (up s')) = 0).
Proof.
  intros Hw. split.
  - intros batch page_num s Hpw Hfr. eexists _, _.
    rewrite batch_sync_unfold_no_pool by (done || lia). split; [reflexivity|].
    cbn [up world trace set_stats stats parallel_workers success failed pages items
         add_skipped add_pages add_items _existing_ids exn_class].
    rewrite !calls_app, calls_marks. by destruct (0 <? page_num); rewrite ?app_nil_r.
  - intros e0 acts duration force.
    destruct (nothing_delivered_session acts duration force (new_uploader workers e0))
      as (_ & Hc & Hs & Hf); [done|].
    done.
Qed.

Lemma ids_justified_session (seed : gset string) (acts : list Action) (duration : string)
    (force : bool) (s : State E) :
  seeds_ok (λ ids, ids ⊆ seed) acts →
  ids_justified c seed s →
  ids_justified c seed (final_state (finish c duration force (run c s acts))).
Proof.
  intros Hok.
  apply (session_F c (λ s s', ids_justified c seed s → ids_justified c seed s')
           (λ ids, ids ⊆ seed)); try done.
  - intros s1 s2 s3 H12 H23 H1. by apply H23, H12.
  - intros f s0 _ Hi _ _ H0 id. cbn [on_up up world]. rewrite Hi. apply H0.
  - intros ev s0 _ _ H0 id Hid. destruct (H0 id Hid) as [?|(item & ? & Hin & ?)]; [by left|].
    right. exists item. split; [done|]. split; [|done].
    cbn [say world trace]. rewrite calls_app. apply elem_of_app. by left.
  - intros ids s0 Hsub H0 id. unfold add_existing_ids.
    cbn [say on_up up world trace _existing_ids set_existing_ids].
    intros [Hid|Hid]%elem_of_union; [|left; by apply Hsub].
    destruct (H0 id Hid) as [?|(item & ? & Hin & ?)]; [by left|].
    right. exists item. split; [done|]. split; [|done].
    rewrite calls_app. apply elem_of_app. by left.
  - intros batch page_num s0 r s1 Hrun H0 id Hid.
    destruct (batch_sync_new_ids c _ _ _ _ _ _ Hrun Hid)
      as [Hold|(item & tr & Htr & Hin & Hitem & Hconf)].
    + destruct (H0 id Hold) as [?|(item & ? & Hin & ?)]; [by left|].
      right. exists item. split; [done|]. split; [|done].
      destruct (extends_batch c _ _ _ _ _ Hrun) as [tr ->].
      rewrite calls_app. apply elem_of_app. by left.
    + right. exists item. split; [done|]. split; [|done].
      rewrite Htr, calls_app. apply elem_of_app. by right.
Qed.

Lemma seeded_cover (acts : list Action) : seeds_ok (λ ids, ids ⊆ seeded acts) acts.
Proof.
  intros ids Hin. unfold seeded. intros id Hid.
  apply elem_of_union_list. exists ids. split; [|done].
  apply list_elem_of_fmap. by exists (ActAddExistingIds ids).
Qed.

(** X6.  Where the identifiers of the deduplication set come from.  From
    a fresh uploader, through any calls and dispatcher steps to the end of
    [finish], every identifier in [_existing_ids] was handed to
    [add_existing_ids], or is the identifier of a record for which the
    upload function was called and returned success.  The identifier of a
    record whose delivery failed is not added. *)
Theorem existing_ids_are_seeded_or_confirmed (workers : Z) (e0 : E) (acts : list Action)
    (duration : string) (force : bool) (id : string) :
  let s' := final_state (finish c duration force (run c (new_uploader workers e0) acts)) in
  id ∈ _existing_ids (up s') →
  id ∈ seeded acts ∨
  ∃ item, item_id item = id ∧ item ∈ calls (trace (world s')) ∧ confirmed c item.
Proof.
  intros s' Hid.
  apply (ids_justified_session (seeded acts) acts duration force (new_uploader workers e0));
    [apply seeded_cover| |done].
  intros id' Hin. by apply elem_of_empty in Hin.
Qed.

(** **** A spent uploader *)

Lemma abort_idle (s : State E) :
  _upload_thread (up s) ≠ Alive →
  abort c s =
    on_up (λ u, Nat.iter (length (_upload_queue u)) task_done
                  (set_upload_queue (λ _, []) u))
          (on_up (set_stop_event (λ _, true)) s).
Proof.
  intros Hth. unfold abort. cbv zeta. cbn [on_up up world]. rewrite iter_task_done.
  cbn [_upload_thread set_unfinished_tasks set_upload_queue set_stop_event].
  by destruct (_upload_thread (up s)).
Qed.

Lemma spent_step (s : State E) (a : Action) :
  spent s →
  spent (step c s a) ∧
  calls (trace (world (step c s a))) = calls (trace (world s)) ∧
  skips (trace (world (step c s a))) = skips (trace (world s)) ∧
  stats (up (step c s a)) = stats (up s).
Proof.
  intros [Hss Hth]. destruct a as [ids|batch page_num| |]; cbn [step].
  - unfold add_existing_ids, spent. cbn [say on_up up world trace].
    rewrite calls_app, skips_app. cbn. by rewrite !app_nil_r.
  - unfold upload_batch. destruct batch as [|x l]; [done|]. rewrite Hss. by cbn.
  - by rewrite worker_step_not_alive.
  - rewrite abort_idle by done. unfold spent. cbn [on_up up world].
    rewrite iter_task_done. by cbn.
Qed.

Lemma spent_run (s : State E) (acts : list Action) :
  spent s →
  spent (run c s acts) ∧
  calls (trace (world (run c s acts))) = calls (trace (world s)) ∧
  skips (trace (world (run c s acts))) = skips (trace (world s)) ∧
  stats (up (run c s acts)) = stats (up s).
Proof.
  revert s. induction acts as [|a acts IH]; intros s Hs; [done|].
  cbn [run foldl]. destruct (spent_step s a Hs) as (Hs1 & Hc1 & Hk1 & Hst1).
  destruct (IH _ Hs1) as (Hs2 & Hc2 & Hk2 & Hst2). fold (run c (step c s a) acts).
  repeat split; [apply Hs2|apply Hs2|congruence..].
Qed.

Lemma started_stays (acts : list Action) (duration : string) (force : bool) (s : State E) :
  _session_started (up s) = true →
  _session_started (up (final_state (finish c duration force (run c s acts)))) = true.
Proof.
  apply (session_F c (λ s s', _session_started (up s) = true →
                              _session_started (up s') = true) (λ _, True)); try done.
  - intros s1 s2 s3 H12 H23 H1. by apply H23, H12.
  - intros batch page_num s0 r s1 Hrun.
    destruct (batch_sync_grows c _ _ _ _ _ Hrun) as (_ & _ & Hc).
    destruct Hc as (_ & -> & _). done.
Qed.

Lemma upload_batch_started (x : Item) (l : list Item) (page_num : Z) (s : State E) :
  _session_started (up (upload_batch (x :: l) page_num s)) = true.
Proof.
  unfold upload_batch. cbv zeta. destruct (_session_started (up s)) eqn:Hss; [done|].
  unfold _start_upload_thread. cbn [say on_up up set_session_started _upload_thread].
  by destruct (_upload_thread (up s)).
Qed.

Lemma session_started_after (acts : list Action) (duration : string) (force : bool)
    (s : State E) :
  enqueued acts ≠ [] →
  _session_started (up (final_state (finish c duration force (run c s acts)))) = true.
Proof.
  revert s. induction acts as [|a acts IH]; intros s; [done|].
  rewrite enqueued_cons. cbn [run foldl]. fold (run c (step c s a) acts).
  destruct a as [ids|[|x l] page_num| |]; cbn [enqueued mbind list_bind app];
    try (by apply IH).
  intros _. apply started_stays. cbn [step]. apply upload_batch_started.
Qed.

(** X11.  An uploader serves one session.  Once its session has started
    and its dispatcher is not running (as after a [finish] that waited for
    the dispatcher to end), [upload_batch] still queues what it is given,
    but the dispatcher is not started again: whatever is called afterwards,
    no record is delivered or marked, the statistics stay as they are, and
    [finish], forced or not, returns at once with these statistics.  A
    graceful [finish] that returns from a session in which a record was
    enqueued leaves the uploader in that state. *)
Theorem uploader_serves_one_session :
  (∀ (s : State E) acts duration force,
     spent s →
     let s' := run c s acts in
     spent s' ∧
     calls (trace (world s')) = calls (trace (world s)) ∧
     skips (trace (world s')) = skips (trace (world s)) ∧
     stats (up s') = stats (up s) ∧
     finish c duration force s' = Returns (finish_log s')) ∧
  (fair_pool c →
   ∀ workers e0 acts duration s',
     enqueues_only acts → enqueued acts ≠ [] →
     finish c duration false (run c (new_uploader workers e0) acts) = Returns s' →
     spent s').
Proof.
  split.
  - intros s acts duration force Hs s'.
    destruct (spent_run s acts Hs) as (Hs' & Hc & Hk & Hst). fold s' in Hs', Hc, Hk, Hst.
    repeat split; try done; try apply Hs'.
    unfold finish. destruct Hs' as [_ Hth]. by destruct (_upload_thread (up s')).
  - intros Hfair workers e0 acts duration s' Hacts Hne Hfin. split.
    + pose proof (session_started_after acts duration false (new_uploader workers e0) Hne) as H.
      by rewrite Hfin in H.
    + by destruct (graceful_finish_safe c _ _ _ _ _ Hfair Hacts Hfin) as (_ & _ & _ & ?).
Qed.

(** **** Calls of [task_done] that are owed *)

Lemma slack_worker_step (k : nat) (s s1 : State E) :
  slack k s → worker_step c s = Some s1 → slack k s1.
Proof.
  unfold slack, pending_count, worker_step. intros Hk.
  destruct (_upload_thread (up s)); try done.
  destruct (in_flight (up s)) as [[batch page_num]|] eqn:Hfl.
  - destruct (_upload_batch_sync c batch page_num s) as [r s'] eqn:Hrun.
    destruct (batch_sync_grows c _ _ _ _ _ Hrun) as (_ & _ & Hc).
    destruct Hc as (_ & _ & Hq & Hu & _).
    destruct r; intros [= <-];
      cbn [up on_up say set_in_flight task_done set_unfinished_tasks in_flight
           _upload_queue unfinished_tasks]; rewrite Hq, Hu; lia.
  - destruct (_stop_event (up s)); [intros [= <-]; cbn; rewrite Hfl; lia|].
    destruct (_upload_queue (up s)) as [|[task|] rest]; [done| |];
      intros [= <-]; cbn [up on_up set_in_flight set_upload_queue set_upload_thread
        in_flight _upload_queue unfinished_tasks length] in *; rewrite ?Hfl; lia.
Qed.

Lemma slack_escape (k : nat) (s : State E) batch page_num e s' :
  _upload_thread (up s) = Alive → in_flight (up s) = Some (batch, page_num) →
  _upload_batch_sync c batch page_num s = (Exc e, s') →
  slack k s → slack (S k) (step c s ActWorker).
Proof.
  intros Hth Hfl Hrun Hk. cbn [step].
  rewrite (worker_step_batch c s _ _ _ _ Hth Hfl Hrun). cbn [default].
  destruct (batch_sync_grows c _ _ _ _ _ Hrun) as (_ & _ & Hc).
  destruct Hc as (_ & _ & Hq & Hu & _).
  unfold slack, pending_count in *.
  cbv [id]. cbn [up on_up say set_in_flight in_flight _upload_queue unfinished_tasks].
  rewrite Hq, Hu. rewrite Hfl in Hk. lia.
Qed.

Lemma slack_worker_run (k fuel : nat) (s : State E) :
  slack k s → slack k (worker_run c fuel s).
Proof. apply (worker_run_inv c (slack k)). intros s0 s1. apply slack_worker_step. Qed.

Lemma slack_thread_join (k : nat) (timeout : Q) (s : State E) :
  slack k s → slack k (thread_join c timeout s).
Proof.
  intros Hk. unfold thread_join. cbv zeta.
  destruct (in_flight _); [destruct (done_within _ _ _)|]; try done;
    by apply slack_worker_run.
Qed.

Lemma slack_put (k : nat) (x : option Task) (s : State E) :
  slack k s → slack k (on_up (queue_put x) s).
Proof.
  unfold slack, pending_count.
  cbn [up on_up queue_put set_unfinished_tasks set_upload_queue in_flight _upload_queue
       unfinished_tasks].
  rewrite length_app. cbn [length]. lia.
Qed.

Lemma slack_abort (k : nat) (s : State E) : slack k s → slack k (abort c s).
Proof.
  intros Hk. unfold abort. cbv zeta.
  match goal with |- context [_upload_thread (up ?s2)] =>
    assert (Hk2 : slack k s2); [|destruct (_upload_thread (up s2)); try apply Hk2] end.
  { unfold slack, pending_count in *. cbn [up on_up]. rewrite iter_task_done. cbn.
    destruct (in_flight (up s)); lia. }
  by apply slack_thread_join, slack_put.
Qed.

Lemma slack_upload_batch (k : nat) batch page_num (s : State E) :
  slack k s → slack k (upload_batch batch page_num s).
Proof.
  intros Hk. unfold upload_batch. destruct batch as [|x l]; [done|]. cbv zeta.
  apply slack_put.
  destruct (_session_started (up s)); [done|].
  unfold _start_upload_thread. cbn [say on_up up set_session_started _upload_thread].
  by destruct (_upload_thread (up s)).
Qed.

Lemma slack_step (k : nat) (s : State E) (a : Action) : slack k s → slack k (step c s a).
Proof.
  intros Hk. destruct a as [ids|batch page_num| |]; cbn [step].
  - done.
  - by apply slack_upload_batch.
  - destruct (worker_step c s) as [s1|] eqn:Hstep; [by eapply slack_worker_step|done].
  - by apply slack_abort.
Qed.

Lemma slack_run (k : nat) (s : State E) (acts : list Action) :
  slack k s → slack k (run c s acts).
Proof.
  revert s. induction acts as [|a acts IH]; intros s Hk; [done|].
  cbn [run foldl]. by apply IH, slack_step.
Qed.

Lemma queue_join_owed (fuel : nat) (s : State E) :
  slack 1 s → ∃ s', queue_join c fuel s = Hangs s'.
Proof.
  revert s. induction fuel as [|fuel IH]; intros s Hk; cbn [queue_join];
    (destruct (unfinished_tasks (up s)) eqn:Hu; [unfold slack in Hk; lia|]).
  - by eexists.
  - destruct (worker_step c s) as [s1|] eqn:Hstep; [|by eexists].
    apply IH. by eapply slack_worker_step.
Qed.

(** X12.  A dispatch that ends with an exception is never marked as done:
    the dispatcher logs the exception and skips [task_done()].  From then
    on, whatever is called, [unfinished_tasks] stays above the number of
    entries the queue and the dispatcher hold, so it never gets to zero:
    [Queue.join] does not return however long the dispatcher runs, and
    [finish(force=False)], called while the dispatcher is alive, does not
    return. *)
Theorem graceful_finish_hangs_after_escape (workers : Z) (e0 : E)
    (acts1 acts2 : list Action) batch page_num e s_exc (duration : string) :
  let s := run c (new_uploader workers e0) acts1 in
  _upload_thread (up s) = Alive → in_flight (up s) = Some (batch, page_num) →
  _upload_batch_sync c batch page_num s = (Exc e, s_exc) →
  let s2 := run c s (ActWorker :: acts2) in
  (pending_count (up s2) < unfinished_tasks (up s2))%nat ∧
  (∀ fuel, ∃ s3, queue_join c fuel s2 = Hangs s3) ∧
  (_upload_thread (up s2) = Alive → ∃ s3, finish c duration false s2 = Hangs s3).
Proof.
  intros s Hth Hfl Hrun s2.
  assert (H0 : slack 0 s).
  { apply slack_run. unfold slack, pending_count. cbn. lia. }
  assert (H2 : slack 1 s2).
  { unfold s2. cbn [run foldl]. apply slack_run. by eapply slack_escape. }
  split; [unfold slack in H2; lia|]. split; [intros fuel; by apply queue_join_owed|].
  intros Hth2. unfold finish. rewrite Hth2. cbv zeta.
  match goal with |- context [queue_join c ?f ?s1] =>
    destruct (queue_join_owed f s1) as [s3 ->]; [done|] end.
  by eexists.
Qed.

(** **** The statistics against what was enqueued *)

Lemma batch_parts_length (ids : gset string) (batch : list Item) :
  (length (duplicates ids batch) + length (fresh ids batch) = length batch)%nat.
Proof.
  unfold duplicates, fresh. induction batch as [|item rest IH]; [done|].
  rewrite !filter_cons. destruct (decide (item_id item ∈ ids)).
  - rewrite decide_False by (intros Hn; by apply Hn). cbn [length]. lia.
  - rewrite decide_True by done. cbn [length]. lia.
Qed.

Lemma ledger_worker_step (seen : list Item) (nb nr : nat) (s s1 : State E) :
  fair_pool c → session_inv seen s → ledger nb nr s →
  worker_step c s = Some s1 → ledger nb nr s1.
Proof.
  intros Hfair (I1 & _ & Istop & Ipill & _) (L1 & L2 & L3 & L4 & L5 & L6).
  unfold worker_step.
  destruct (_upload_thread (up s)) eqn:Hthread; try done.
  destruct (in_flight (up s)) as [[batch page_num]|] eqn:Hfl.
  - destruct (_upload_batch_sync c batch page_num s) as [r s'] eqn:Hrun.
    destruct (batch_sync_grows c _ _ _ _ _ Hrun) as (_ & _ & Hc).
    destruct Hc as (_ & _ & Hq & Hu & _).
    destruct (batch_sync_dedup c _ _ _ _ _ Hfair Hrun)
      as (tr & n1 & n2 & _ & _ & _ & _ & Hp & Hk & Hi & Hs & Hf & Hn1 & Hn2 & Hle & Hok).
    pose proof (batch_parts_length (_existing_ids (up s)) batch) as Hparts.
    unfold ledger, pending_count, pending_items in *. rewrite Hfl in *.
    cbn [task_items] in L2. rewrite length_app in L2.
    destruct r as [v|e]; intros [= <-];
      cbn [up world on_up say set_in_flight task_done set_unfinished_tasks in_flight
           _upload_queue unfinished_tasks stats task_items app];
      rewrite ?Hq, ?Hu, Hp, Hk, Hi, Hs, Hf.
    + destruct (Hok v eq_refl) as [_ Hsum].
      repeat split; lia.
    + repeat split; lia.
  - rewrite Istop. destruct (_upload_queue (up s)) as [|[task|] rest] eqn:Hq; [done| |].
    + intros [= <-]. unfold ledger, pending_count, pending_items in *.
      cbn [up world on_up set_in_flight set_upload_queue in_flight _upload_queue
           unfinished_tasks stats].
      rewrite Hfl, Hq in *. cbn [length task_items app mbind list_bind] in *.
      rewrite ?length_app in *. repeat split; lia.
    + exfalso. apply Ipill. by left.
Qed.

Lemma ledger_same (nb nr : nat) (s s' : State E) :
  ledger nb nr s → same_control (up s) (up s') → stats (up s') = stats (up s) →
  ledger nb nr s'.
Proof.
  intros L (_ & _ & Hq & Hu & _ & _ & Hif) Hst.
  unfold ledger, pending_count, pending_items in *. by rewrite Hq, Hu, Hif, Hst.
Qed.

Lemma ledger_upload_batch (nb nr : nat) (s : State E) (x : Item) (l : list Item) page_num :
  ledger nb nr s → ledger (S nb) (nr + length (x :: l)) (upload_batch (x :: l) page_num s).
Proof.
  intros (L1 & L2 & L3 & L4 & L5 & L6). unfold upload_batch. cbv zeta.
  match goal with |- ledger _ _ (on_up _ ?t) => remember t as s1 eqn:Hs1 end.
  assert (stats (up s1) = stats (up s) ∧ _upload_queue (up s1) = _upload_queue (up s) ∧
          unfinished_tasks (up s1) = unfinished_tasks (up s) ∧
          in_flight (up s1) = in_flight (up s)) as (Hst & Hq & Hu & Hif).
  { subst s1. destruct (_session_started (up s)); [done|].
    unfold _start_upload_thread. cbn [up on_up say set_session_started _upload_thread].
    by destruct (_upload_thread (up s)). }
  clear Hs1. unfold ledger, pending_count, pending_items in *.
  cbn [up world on_up queue_put set_unfinished_tasks set_upload_queue in_flight
       _upload_queue unfinished_tasks stats].
  rewrite Hst, Hq, Hu, Hif, bind_app, !length_app. cbn [length mbind list_bind task_items app].
  rewrite app_nil_r, ?length_app in *. cbn [length].
  repeat split; lia.
Qed.

Lemma batches_enqueued_cons (a : Action) (acts : list Action) :
  batches (a :: acts) = batches [a] ++ batches acts.
Proof. unfold batches. cbn. by destruct a as [|[|]| |]. Qed.

Lemma ledger_step (seen : list Item) (nb nr : nat) (s : State E) (a : Action) :
  fair_pool c → a ≠ ActAbort → session_inv seen s → ledger nb nr s →
  ledger (nb + length (batches [a])) (nr + length (enqueued [a])) (step c s a).
Proof.
  intros Hfair Ha Hinv L. destruct a as [ids|[|x l] page_num| |]; [| | | |done];
    cbn [batches omap enqueued mbind list_bind step length app];
    rewrite ?app_nil_r, ?Nat.add_0_r; cbn [length]; rewrite ?Nat.add_0_r.
  - eapply ledger_same; [exact L|done|done].
  - done.
  - rewrite Nat.add_1_r. by apply ledger_upload_batch.
  - destruct (worker_step c s) as [s1|] eqn:Hstep; [|done]. by eapply ledger_worker_step.
Qed.

Lemma ledger_run (seen : list Item) (nb nr : nat) (s : State E) (acts : list Action) :
  fair_pool c → enqueues_only acts → session_inv seen s → ledger nb nr s →
  ledger (nb + length (batches acts)) (nr + length (enqueued acts)) (run c s acts).
Proof.
  intros Hfair Hacts. revert seen nb nr s.
  induction Hacts as [|a acts Ha _ IH]; intros seen nb nr s Hinv L.
  - cbn. by rewrite !Nat.add_0_r.
  - rewrite enqueued_cons, batches_enqueued_cons, !length_app, !Nat.add_assoc.
    cbn [run foldl]. eapply IH; [by apply step_inv|by eapply ledger_step].
Qed.

Lemma new_uploader_ledger (workers : Z) (e : E) : ledger 0 0 (new_uploader workers e).
Proof. unfold ledger, pending_count, pending_items. cbn. repeat split; lia. Qed.

(** X13.  The statistics account for everything that was enqueued.  Take a
    fresh uploader and any interleaving of [add_existing_ids],
    [upload_batch] and steps of the dispatcher.  At every moment each
    non-empty batch enqueued is counted in [pages] or still pending (queued
    or in the dispatcher's hand), each record enqueued is counted in [items]
    or in [skipped] or still pending, and [success + failed] is at most
    [items].  When [finish(force=False)] returns, nothing is pending:
    [pages] is the number of non-empty batches enqueued, [items + skipped]
    the number of records enqueued, and [success + failed = items]. *)
Theorem statistics_account_for_every_record (workers : Z) (e0 : E) (acts : list Action) :
  fair_pool c → enqueues_only acts →
  let s := run c (new_uploader workers e0) acts in
  let st := stats (up s) in
  (pages st + Z.of_nat (pending_count (up s)) = Z.of_nat (length (batches acts)) ∧
   items st + skipped st + Z.of_nat (length (pending_items (up s)))
     = Z.of_nat (length (enqueued acts)) ∧
   success st + failed st ≤ items st) ∧
  ∀ duration s',
    finish c duration false s = Returns s' →
    let st' := stats (up s') in
    pages st' = Z.of_nat (length (batches acts)) ∧
    items st' + skipped st' = Z.of_nat (length (enqueued acts)) ∧
    success st' + failed st' = items st'.
Proof.
  intros Hfair Hacts s st.
  pose proof (run_inv c [] _ acts Hfair Hacts (new_uploader_inv workers e0)) as Hinv.
  pose proof (ledger_run [] 0 0 _ acts Hfair Hacts (new_uploader_inv workers e0)
                (new_uploader_ledger workers e0)) as L.
  fold s in Hinv, L. cbn [app Nat.add] in Hinv, L.
  split; [destruct L as (L1 & L2 & _ & _ & L5 & _); by fold st in L1, L2, L5|].
  intros duration s'. unfold finish.
  destruct (_upload_thread (up s)) eqn:Hthread.
  - intros [= <-]. destruct Hinv as (I1 & _ & _ & _ & Istart). rewrite Hthread in Istart.
    destruct (_session_started (up s)); [done|]. destruct Istart as (_ & Hq & Hfl & Hu & _).
    destruct L as (L1 & L2 & _ & _ & _ & L6).
    unfold pending_count, pending_items in *. rewrite Hq, Hfl, Hu in *.
    cbn in *. specialize (L6 eq_refl). lia.
  - cbv zeta.
    match goal with |- context [queue_join c ?f ?s1] =>
      assert (Hinv1 : session_inv (enqueued acts) s1) by
        (eapply session_inv_same; [exact Hinv|done|];
         exists [EvLog LogWaiting; EvQueueJoin]; cbn; by rewrite <- app_assoc);
      assert (L1 : ledger (length (batches acts)) (length (enqueued acts)) s1) by
        (by eapply ledger_same);
      destruct (queue_join c f s1) as [s2|s2] eqn:Hjoin; [|done]
    end.
    apply (queue_join_inv c (λ s0, (session_inv (enqueued acts) s0 ∧
                                     ledger (length (batches acts)) (length (enqueued acts)) s0) ∧
                                    _upload_thread (up s0) = Alive))
      in Hjoin as [[[Hinv2 L2] Hth2] Hu];
      [|intros s0 s1 [[H0 H1] _] Hstep; split;
          [split; [by eapply worker_step_inv|by eapply ledger_worker_step]
          |by eapply worker_step_alive]|by split].
    intros [= <-].
    destruct Hinv2 as (I1 & I2 & Istop & Ipill & Istart).
    destruct L2 as (K1 & K2 & _ & _ & _ & K6).
    unfold pending_count, pending_items in *. rewrite Hu in *.
    destruct (_upload_queue (up s2)) as [|? ?] eqn:Hq; [|simpl in I1; lia].
    destruct (in_flight (up s2)) eqn:Hfl; [simpl in I1; lia|].
    rewrite (thread_join_pill c _ s2 Hth2 Hfl Istop Hq).
    cbn in *. specialize (K6 eq_refl). lia.
  - intros [= <-]. destruct Hinv as (_ & _ & _ & _ & Istart). rewrite Hthread in Istart.
    destruct (_session_started (up s)); [done|]. by destruct Istart as (_ & _ & _ & _ & ?).
Qed.

End Sessions.

(** *** Closed instances *)

Lemma upload_one_result_shape_witness :
  ∃ x, (_upload_one Scenario.always_400 (Scenario.record "a") Scenario.world0).1
         = Ok ("a", false, 0, 0, Some (str_slice_to 100 (exn_message x))) ∧
       exn_message x = "400 Bad Request".
Proof.
  destruct (upload_one_result_shape Scenario.always_400 (Scenario.record "a")
              Scenario.world0 ("a", false, 0, 0, Some "400 Bad Request") eq_refl)
    as [(e & a & f & err & e' & [=] & _)|[(e & a & f & err & e' & [=] & _)
       |(e & x & e' & [= <-] & Ht & _)]].
  by eexists.
Defined.

Lemma upload_one_third_attempt_decides_witness :
  ∃ w', _upload_one Examples.flaky (Scenario.record "a") {| env := 0%nat; trace := [] |}
          = (Ok ("a", true, 4, 1, None), w') ∧
        env w' = 3%nat ∧
        effects (trace w') =
          [EvCall (Scenario.record "a"); EvSleep (RETRY_DELAY * inject_Z 1)%Q;
           EvCall (Scenario.record "a"); EvSleep (RETRY_DELAY * inject_Z 2)%Q;
           EvCall (Scenario.record "a")].
Proof.
  apply (upload_one_third_attempt_decides Examples.flaky (Scenario.record "a")
           {| env := 0%nat; trace := [] |}
           (PyExn "HTTPError" "503 Service Unavailable")
           (PyExn "HTTPError" "503 Service Unavailable")
           1%nat 1%nat 2%nat 2%nat 3%nat (Returned true 4 1 None));
    reflexivity.
Defined.

Lemma calls_within_retry_budget_witness :
  let s' := final_state (finish Scenario.always_503 "" false
              (run Scenario.always_503 (new_uploader 3 tt)
                 [ActUploadBatch Scenario.two_records 1; ActWorker; ActWorker])) in
  Z.of_nat (length (calls (trace (world s')))) ≤ MAX_RETRIES * items (stats (up s')) ∧
  items (stats (up s')) = 2.
Proof.
  intros s'. split; [|by vm_compute].
  apply (proj2 (calls_within_retry_budget Scenario.always_503 (identity_pool_fair _))).
Defined.

Lemma no_pool_nothing_delivered_witness :
  let s' := final_state (finish Scenario.always_ok "" true
              (run Scenario.always_ok (new_uploader 0 tt)
                 [ActUploadBatch Scenario.two_records 1; ActWorker; ActWorker])) in
  calls (trace (world s')) = [] ∧ success (stats (up s')) = 0 ∧ failed (stats (up s')) = 0.
Proof.
  intros s'.
  apply (proj2 (no_pool_nothing_delivered Scenario.always_ok 0 ltac:(lia))).
Defined.

Lemma existing_ids_are_seeded_or_confirmed_witness :
  let s' := final_state (finish Scenario.always_ok "" false
              (run Scenario.always_ok (new_uploader 3 tt) Examples.seeded_session)) in
  "a" ∈ seeded Examples.seeded_session ∨
  ∃ item, item_id item = "a" ∧ item ∈ calls (trace (world s')) ∧
          confirmed Scenario.always_ok item.
Proof.
  intros s'.
  apply (existing_ids_are_seeded_or_confirmed Scenario.always_ok 3 tt
           Examples.seeded_session "" false "a").
  apply (bool_decide_unpack _). by vm_compute.
Defined.

Lemma dispatch_delivers_every_occurrence_witness :
  let s := new_uploader 3 tt in
  let batch := [Scenario.record "a"; Scenario.record "a"] in
  let s' := (_upload_batch_sync Scenario.always_ok batch 1 s).2 in
  (∃ tr, trace (world s') = trace (world s) ++ tr ∧ calls tr ≡ₚ batch) ∧
  success (stats (up s')) = 2 ∧
  _existing_ids (up s') = ∅ ∪ list_to_set (item_id <$> batch).
Proof.
  intros s batch s'.
  apply (dispatch_delivers_every_occurrence Scenario.always_ok batch 1 s
           (identity_pool_fair _)).
  - intros item e. by eexists _, _, _, _.
  - reflexivity.
Defined.

Lemma redispatch_is_skipped_witness :
  let s1 := (_upload_batch_sync Scenario.always_ok Scenario.two_records 1
               (new_uploader 3 tt)).2 in
  ∃ s3, _upload_batch_sync Scenario.always_ok Scenario.two_records 2 s1 = (Ok 0, s3) ∧
        calls (trace (world s3)) = calls (trace (world s1)) ∧
        skipped (stats (up s3)) = skipped (stats (up s1)) + 2.
Proof.
  intros s1.
  destruct (redispatch_is_skipped Scenario.always_ok Scenario.two_records 1 2
              (new_uploader 3 tt) s1 (identity_pool_fair _))
    as (s3 & Hrun & Hc & _ & Hsk & _).
  - intros item e. by eexists _, _, _, _.
  - reflexivity.
  - done.
  - by exists s3.
Defined.

Lemma records_without_id_collide_witness :
  let s1 := (_upload_batch_sync Scenario.always_ok [Examples.anonymous "u1"] 1
               (new_uploader 3 tt)).2 in
  "" ∈ _existing_ids (up s1) ∧
  ∃ s3, _upload_batch_sync Scenario.always_ok
          [Examples.anonymous "u2"; Examples.anonymous "u3"] 2 s1 = (Ok 0, s3) ∧
        calls (trace (world s3)) = calls (trace (world s1)).
Proof.
  intros s1.
  destruct (records_without_id_collide Scenario.always_ok [Examples.anonymous "u1"]
              [Examples.anonymous "u2"; Examples.anonymous "u3"] 1 2
              (new_uploader 3 tt) s1 (identity_pool_fair _))
    as (Hempty & s3 & Hrun & Hc & _).
  - intros item e. by eexists _, _, _, _.
  - reflexivity.
  - exists (Examples.anonymous "u1"). split; [apply list_elem_of_here|reflexivity].
  - repeat constructor.
  - done.
  - split; [exact Hempty|]. by exists s3.
Defined.

Lemma graceful_finish_hangs_after_escape_witness :
  let s := run Scenario.interrupted (new_uploader 3 tt)
             [ActUploadBatch Scenario.two_records 0; ActWorker] in
  let s2 := run Scenario.interrupted s [ActWorker] in
  (pending_count (up s2) < unfinished_tasks (up s2))%nat ∧
  (∀ fuel, ∃ s3, queue_join Scenario.interrupted fuel s2 = Hangs s3) ∧
  ∃ s3, finish Scenario.interrupted "" false s2 = Hangs s3.
Proof.
  intros s s2.
  destruct (graceful_finish_hangs_after_escape Scenario.interrupted 3 tt
              [ActUploadBatch Scenario.two_records 0; ActWorker] []
              Scenario.two_records 0 (PyExn "StopInterrupt" "stop requested")
              (_upload_batch_sync Scenario.interrupted Scenario.two_records 0 s).2 "")
    as (Hs & Hq & Hf); [by vm_compute|by vm_compute|by vm_compute|].
  split; [exact Hs|]. split; [exact Hq|]. apply Hf. by vm_compute.
Defined.

Lemma statistics_account_for_every_record_witness :
  ∃ s', finish Scenario.always_ok "" false
          (run Scenario.always_ok (new_uploader 3 tt) Examples.seeded_session) = Returns s' ∧
        pages (stats (up s')) = 2 ∧
        items (stats (up s')) + skipped (stats (up s')) = 3 ∧
        success (stats (up s')) + failed (stats (up s')) = items (stats (up s')).
Proof.
  destruct (statistics_account_for_every_record Scenario.always_ok 3 tt
              Examples.seeded_session (identity_pool_fair _)) as [_ Hfin].
  { repeat constructor; discriminate. }
  eexists. split; [by vm_compute|]. apply (Hfin ""). by vm_compute.
Defined.

Lemma progress_callback_sees_final_statistics_witness :
  let run := _upload_batch_sync Examples.with_progress Scenario.two_records 1
               (new_uploader 3 tt) in
  ∃ tr, trace (world run.2) = trace (world (new_uploader 3 tt)) ++ tr ∧
        progress_calls tr = [stats (up run.2)].
Proof.
  intros run.
  destruct (progress_callback_sees_final_statistics Examples.with_progress
              Scenario.two_records 1 (new_uploader 3 tt) (λ _ e, (None, e)) eq_refl)
    as (tr & Htr & _ & _ & Hp).
  exists tr. split; [exact Htr|]. apply (Hp 2); [by vm_compute|by vm_compute].
Defined.

End UploadMore.

(** ** Further properties of the task runner *)

Module RunnerMore.
Import Runner.

Section Iterate.

Context {T I C : Type}.
Context (next_item : I → option (T * I)) (check_interrupt : C → option pyexn * C).

Lemma yielded_cons (r : NextResult T) (rs : list (NextResult T)) :
  yielded (r :: rs) = match r with Yielded x => x :: yielded rs | _ => yielded rs end.
Proof. by destruct r. Qed.

(** One [next(gen)]: the counter, with the element the consumer holds
    counted in, grows by one exactly when an element is yielded. *)
Lemma gen_next_processed (s : State T I C) :
  let held (s : State T I C) : Z := match phase s with GenSuspended => 1 | _ => 0 end in
  let run := gen_next next_item check_interrupt s in
  _items_processed (runner run.2) + held run.2 =
    _items_processed (runner s) + held s + Z.of_nat (length (yielded [run.1])) ∧
  _current_item (runner run.2) =
    match run.1 with Yielded x => Some x | _ => _current_item (runner s) end ∧
  (phase run.2 = GenSuspended ↔ ∃ x, run.1 = Yielded x).
Proof.
  unfold gen_next.
  destruct (phase s) eqn:Hphase;
    [| |cbn; rewrite Hphase; repeat split; try lia; [done|by intros [x [=]]]];
    (destruct (next_item (source s)) as [[x src]|];
      [destruct (check_interrupt (client s)) as [[e|] cl]|]); cbn;
    (repeat split; try lia; try done; try by intros [? [=]]); by eexists.
Qed.

Lemma nexts_processed (n : nat) (s : State T I C) :
  let held (s : State T I C) : Z := match phase s with GenSuspended => 1 | _ => 0 end in
  let run := nexts next_item check_interrupt n s in
  _items_processed (runner run.2) + held run.2 =
    _items_processed (runner s) + held s + Z.of_nat (length (yielded run.1)) ∧
  _current_item (runner run.2) =
    match last (yielded run.1) with Some x => Some x | None => _current_item (runner s) end ∧
  (phase run.2 = GenSuspended ↔
     match last run.1 with
     | Some r => ∃ x, r = Yielded x
     | None => phase s = GenSuspended
     end).
Proof.
  revert s. induction n as [|n IH]; intros s; cbv zeta;
    [cbn; repeat split; try lia; done|].
  cbn [nexts].
  destruct (gen_next_processed s) as (Hp1 & Hc1 & Hph1).
  destruct (gen_next next_item check_interrupt s) as [r s1] eqn:Hnext. cbn [fst snd] in *.
  destruct (IH s1) as (Hp2 & Hc2 & Hph2).
  destruct (nexts next_item check_interrupt n s1) as [rs s2] eqn:Hn. cbn [fst snd] in *.
  rewrite yielded_cons.
  assert (Hy1 : Z.of_nat (length (yielded [r])) = match r with Yielded _ => 1 | _ => 0 end)
    by (by destruct r).
  split; [|split].
  - rewrite Hp2, Hp1. destruct r; cbn [yielded omap length]; lia.
  - rewrite Hc2, Hc1. destruct r as [x| |e]; try done.
    destruct (yielded rs) as [|y ys] eqn:Hy; [done|]. rewrite last_cons_cons.
    destruct (last (y :: ys)) eqn:Hl; [done|]. by apply last_None in Hl.
  - rewrite Hph2. destruct rs as [|r' rs']; [cbn; exact Hph1|]. rewrite last_cons_cons.
    destruct (last (r' :: rs')) eqn:Hl; [done|]. by apply last_None in Hl.
Qed.

(** X14.  [items_processed] counts the elements whose processing is over.
    After any number of requests to a generator made by [iterate(items)],
    the counter has grown by the number of elements yielded, less one while
    the generator is suspended at its [yield], that is while the consumer
    still holds the last element: the increment is made when the consumer
    asks for the next element.  So after the iterator is exhausted or an
    interrupt check has raised, it has grown by the number of elements
    yielded, and a consumer that leaves its loop early has one element
    less counted.  [_current_item] is the last element yielded. *)
Theorem items_processed_counts_completed (r : TaskRunner T) (cl : C) (items : I) (n : nat) :
  let run := nexts next_item check_interrupt n (iterate r cl items) in
  let ys := yielded run.1 in
  _items_processed (runner run.2) =
    _items_processed r + Z.of_nat (length ys)
    - (match phase run.2 with GenSuspended => 1 | _ => 0 end) ∧
  _current_item (runner run.2) =
    (match last ys with Some x => Some x | None => _current_item r end) ∧
  (phase run.2 = GenSuspended ↔ ∃ x, last run.1 = Some (Yielded x)).
Proof.
  intros run ys. destruct (nexts_processed n (iterate r cl items)) as (Hp & Hc & Hph).
  fold run in Hp, Hc, Hph. fold ys in Hp, Hc. cbn [iterate runner phase] in Hp, Hc, Hph.
  split; [lia|]. split; [done|]. rewrite Hph.
  destruct (last run.1) as [r'|]; split.
  - intros [x ->]. by exists x.
  - intros [x [= ->]]. by exists x.
  - done.
  - by intros [x [=]].
Qed.

End Iterate.

End RunnerMore.

(** ** Properties of the interruptible sleep *)

Module CliSpec.
Import Cli.
Import PyFacts.

Section Sleep.

Context {E : Type} (_original_sleep : Q → E → E).

Lemma chunk_of_spec (remaining : Q) :
  (0 < remaining)%Q →
  (0 < chunk_of remaining)%Q ∧ (chunk_of remaining <= 1 # 2)%Q ∧
  (chunk_of remaining <= remaining)%Q ∧
  ((chunk_of remaining == 1 # 2)%Q ∨ (remaining - chunk_of remaining == 0)%Q).
Proof.
  intros Hpos. unfold chunk_of. destruct (Qle_bool (1 # 2) remaining) eqn:Hle.
  - apply Qle_bool_iff in Hle. repeat split; lra.
  - assert (remaining < 1 # 2)%Q.
    { apply Qnot_le_lt. intros H. apply Qle_bool_iff in H. congruence. }
    repeat split; lra.
Qed.

Lemma Qceiling_unique (x : Q) (n : Z) :
  (inject_Z (n - 1) < x)%Q → (x <= inject_Z n)%Q → Qceiling x = n.
Proof.
  intros Hlo Hhi. apply Z.le_antisymm.
  - rewrite <- (Qceiling_Z n). by apply Qceiling_resp_le.
  - pose proof (Qle_ceiling x) as Hc.
    assert (inject_Z (n - 1) < inject_Z (Qceiling x))%Q as Hlt by lra.
    rewrite <- Zlt_Qlt in Hlt. lia.
Qed.

Lemma Qceiling_pred (x : Q) : Qceiling (x - 1) = Qceiling x - 1.
Proof.
  apply Qceiling_unique.
  - pose proof (Qceiling_lt x) as H.
    replace (Qceiling x - 1 - 1) with ((Qceiling x - 1) + - 1) by lia.
    rewrite inject_Z_plus. change (inject_Z (-1)) with (- 1)%Q. lra.
  - pose proof (Qle_ceiling x) as H.
    replace (Qceiling x - 1) with (Qceiling x + - 1) by lia.
    rewrite inject_Z_plus. change (inject_Z (-1)) with (- 1)%Q. lra.
Qed.

Lemma Qceiling_pos (x : Q) : (0 < x)%Q → 1 ≤ Qceiling x.
Proof.
  intros Hpos. pose proof (Qle_ceiling x) as H.
  assert (inject_Z 0 < inject_Z (Qceiling x))%Q as Hlt by (change (inject_Z 0) with 0%Q; lra).
  rewrite <- Zlt_Qlt in Hlt. lia.
Qed.

Lemma Qceiling_nonpos (x : Q) : (x <= 0)%Q → Qceiling x ≤ 0.
Proof. intros H. rewrite <- (Qceiling_Z 0). by apply Qceiling_resp_le. Qed.

(** One turn of the loop uses up one of the turns counted for the time
    that remains. *)
Lemma sleep_turns_step (remaining : Q) :
  (0 < remaining)%Q →
  sleep_turns remaining = S (sleep_turns (remaining - chunk_of remaining)).
Proof.
  intros Hpos. unfold sleep_turns.
  destruct (chunk_of_spec remaining Hpos) as (Hc0 & Hc1 & Hc2 & [Hhalf|Hend]).
  - assert (Heq : ((remaining - chunk_of remaining) * (2 # 1) == remaining * (2 # 1) - 1)%Q)
      by lra.
    rewrite (Qceiling_comp _ _ Heq), Qceiling_pred.
    assert (1 ≤ Qceiling (remaining * (2 # 1))) by (apply Qceiling_pos; lra).
    assert (0 ≤ Qceiling (remaining * (2 # 1)) - 1 ∨ True) by (by right). lia.
  - assert (Heq : ((remaining - chunk_of remaining) * (2 # 1) == inject_Z 0)%Q)
      by (change (inject_Z 0) with 0%Q; lra).
    rewrite (Qceiling_comp _ _ Heq), Qceiling_Z.
    assert (Qceiling (remaining * (2 # 1)) = 1) as ->; [|done].
    apply Qceiling_unique; change (inject_Z (1 - 1)) with 0%Q;
      change (inject_Z 1) with 1%Q; lra.
Qed.

Lemma total_cons (d : Q) (l : list Q) : total (d :: l) = (d + total l)%Q.
Proof. reflexivity. Qed.

(** The loop with the turns it needs: it ends, having slept in chunks of
    at most half a second with a check before each; if it returns, the
    chunks add up to the time asked for; if a check raised, to less. *)
Lemma sleep_loop_spec (check : E → option pyexn * E) (fuel : nat) (remaining : Q)
    (w : World E) :
  (sleep_turns remaining ≤ fuel)%nat →
  ∃ r w' chunks,
    sleep_loop _original_sleep check fuel remaining w = Some (r, w') ∧
    trace w' = trace w ++ polled chunks r ∧
    Forall (λ d, (0 < d)%Q ∧ (d <= 1 # 2)%Q) chunks ∧
    (length chunks ≤ sleep_turns remaining)%nat ∧
    match r with
    | None =>
        length chunks = sleep_turns remaining ∧
        ((0 < remaining)%Q → (total chunks == remaining)%Q) ∧
        ((remaining <= 0)%Q → chunks = [])
    | Some e => (total chunks < remaining)%Q
    end.
Proof.
  revert remaining w. induction fuel as [|fuel IH]; intros remaining w Hfuel.
  - cbn [sleep_loop]. destruct (Qle_bool remaining 0) eqn:Hle.
    + apply Qle_bool_iff in Hle. exists None, w, []. unfold polled. cbn. rewrite app_nil_r.
      assert (sleep_turns remaining = 0%nat) as ->.
      { unfold sleep_turns. pose proof (Qceiling_nonpos (remaining * (2 # 1))) as H.
        assert (remaining * (2 # 1) <= 0)%Q by lra. specialize (H ltac:(done)). lia. }
      repeat split; try done. intros. lra.
    + assert (0 < remaining)%Q as Hpos.
      { apply Qnot_le_lt. intros H. apply Qle_bool_iff in H. congruence. }
      rewrite (sleep_turns_step _ Hpos) in Hfuel. lia.
  - cbn [sleep_loop]. destruct (Qle_bool remaining 0) eqn:Hle.
    + apply Qle_bool_iff in Hle. exists None, w, []. unfold polled. cbn. rewrite app_nil_r.
      assert (sleep_turns remaining = 0%nat) as ->.
      { unfold sleep_turns. pose proof (Qceiling_nonpos (remaining * (2 # 1))) as H.
        assert (remaining * (2 # 1) <= 0)%Q by lra. specialize (H ltac:(done)). lia. }
      repeat split; try done; try lia. intros. lra.
    + assert (0 < remaining)%Q as Hpos.
      { apply Qnot_le_lt. intros H. apply Qle_bool_iff in H. congruence. }
      rewrite (sleep_turns_step _ Hpos) in Hfuel |- *.
      destruct (chunk_of_spec remaining Hpos) as (Hc0 & Hc1 & Hc2 & Hcase).
      destruct (check (env w)) as [[e|] e1] eqn:Hcheck.
      * exists (Some e), {| env := e1; trace := trace w ++ [EvCheck (Some e)] |}, [].
        unfold polled. cbn. repeat split; try done; lia.
      * destruct (IH (remaining - chunk_of remaining)%Q
                    {| env := _original_sleep (chunk_of remaining) e1;
                       trace := trace w ++ [EvCheck None; EvSleep (chunk_of remaining)] |})
          as (r & w' & chunks & Hrun & Htr & Hall & Hlen & Hr); [lia|].
        exists r, w', (chunk_of remaining :: chunks). split; [exact Hrun|].
        cbn [trace] in Htr. split; [rewrite Htr; unfold polled; cbn; by rewrite <- !app_assoc|].
        split; [by constructor|]. split; [cbn [length]; lia|].
        rewrite total_cons. destruct r as [e|].
        -- lra.
        -- destruct Hr as (Hn & Hsum & Hnil). split; [cbn [length]; lia|]. split; [|intros; lra].
           intros _.
           destruct (Qlt_le_dec 0 (remaining - chunk_of remaining)) as [Hrest|Hrest].
           ++ rewrite (Hsum Hrest). lra.
           ++ rewrite (Hnil Hrest). cbn. lra.
Qed.

(** X15.  With a monitor set and for a duration below 2^52 seconds (where
    no subtraction of the loop rounds, so that the rationals of the model
    are the floats of the code), [_interruptible_sleep(seconds)] ends.
    It sleeps in chunks of at most half a second and calls
    [check_interrupt] before each chunk, at most once for each half second
    begun.  If every check returns, it returns after chunks that add up to
    [seconds], exactly one for each half second begun; for [seconds <= 0]
    without a check or a sleep (where the original [time.sleep] raises
    [ValueError] for a negative duration).  If a check raises, its
    exception ends the sleep at once, after less than [seconds] of sleep. *)
Theorem interruptible_sleep_polls (check : E → option pyexn * E) (seconds : Q)
    (w : World E) :
  (seconds < inject_Z (2 ^ 52))%Q →
  ∃ r w' chunks,
    _interruptible_sleep _original_sleep (Some check) seconds w = Some (r, w') ∧
    trace w' = trace w ++ polled chunks r ∧
    Forall (λ d, (0 < d)%Q ∧ (d <= 1 # 2)%Q) chunks ∧
    (length chunks ≤ sleep_turns seconds)%nat ∧
    match r with
    | None =>
        length chunks = sleep_turns seconds ∧
        ((0 < seconds)%Q → (total chunks == seconds)%Q) ∧
        ((seconds <= 0)%Q → chunks = [])
    | Some e => (total chunks < seconds)%Q
    end.
Proof. intros _. unfold _interruptible_sleep. apply sleep_loop_spec. lia. Qed.

(** The retry loop of the uploader under the patched sleep, when the
    check raises. *)
Lemma patched_sleep_stopped (check : E → option pyexn * E) (seconds : Q) (w : World E) x e' :
  (0 < seconds)%Q → check (env w) = (Some x, e') →
  patched_sleep _original_sleep check seconds w =
    (Some x, {| env := e'; trace := trace w ++ [EvCheck (Some x)] |}).
Proof.
  intros Hpos Hcheck. unfold patched_sleep, _interruptible_sleep.
  assert (Hle : Qle_bool seconds 0 = false).
  { apply not_true_is_false. intros H. apply Qle_bool_iff in H. lra. }
  rewrite (sleep_turns_step _ Hpos). cbn [sleep_loop]. by rewrite Hle, Hcheck.
Qed.

(** X16.  A stop request reaches the workers of the uploader through
    [time.sleep].  With [time.sleep] patched, when a delivery meets a
    transient error and the interrupt check of the back-off sleep raises,
    [_upload_one] does not return a failure: the exception of the check
    leaves it, after one call of the upload function and one call of
    [time.sleep] in which the original sleep is never reached. *)
Theorem stop_request_escapes_upload_one (check : E → option pyexn * E)
    (upload_func : Upload.Item → E → Upload.Outcome * E)
    (item : Upload.Item) (w : Upload.World (World E)) x e1 xs e2 :
  upload_func item (env (Upload.env w)) = (Upload.Raised x, e1) →
  Upload.is_transient (str_slice_to 100 (exn_message x)) = true →
  check e1 = (Some xs, e2) →
  let c := patched _original_sleep check upload_func in
  ∃ w',
    Upload._upload_one c item w = (Upload.Exc xs, w') ∧
    Upload.calls (Upload.trace w') = Upload.calls (Upload.trace w) ++ [item] ∧
    Upload.sleeps (Upload.trace w') =
      Upload.sleeps (Upload.trace w) ++ [(Upload.RETRY_DELAY * inject_Z 1)%Q] ∧
    env (Upload.env w') = e2 ∧
    trace (Upload.env w') = trace (Upload.env w) ++ [EvCheck (Some xs)].
Proof.
  intros Hf Ht Hcheck c.
  unfold Upload._upload_one. rewrite UploadSpec.py_range_MAX_RETRIES.
  unfold mbind at 1, Upload.M_bind at 1, Upload.bind at 1.
  erewrite (UploadSpec.attempt_interrupted c item _ 0 _ _ w x _ xs _);
    [|by cbn; rewrite Hf|exact Ht|done|by apply patched_sleep_stopped].
  eexists. split; [reflexivity|]. cbn [Upload.trace Upload.env env trace].
  rewrite UploadSpec.calls_app, UploadSpec.sleeps_app. by cbn.
Qed.

End Sleep.

(** *** Closed instances *)

(** A sleep of 1.25 seconds under a monitor whose checks return. *)
Lemma interruptible_sleep_polls_witness :
  ∃ r w' chunks,
    _interruptible_sleep (λ _ e, e) (Some (λ e : unit, (None, e))) (5 # 4)
      {| env := tt; trace := [] |} = Some (r, w') ∧
    trace w' = [] ++ polled chunks r ∧
    Forall (λ d, (0 < d)%Q ∧ (d <= 1 # 2)%Q) chunks ∧
    (length chunks ≤ sleep_turns (5 # 4))%nat ∧
    match r with
    | None =>
        length chunks = sleep_turns (5 # 4) ∧
        ((0 < 5 # 4)%Q → (total chunks == 5 # 4)%Q) ∧
        ((5 # 4 <= 0)%Q → chunks = [])
    | Some e => (total chunks < 5 # 4)%Q
    end.
Proof.
  apply (interruptible_sleep_polls (λ _ e, e) (λ e : unit, (None, e)) (5 # 4)
           {| env := tt; trace := [] |}).
  reflexivity.
Defined.

Lemma stop_request_escapes_upload_one_witness :
  let c := patched (λ _ e, e) stop_requested (Upload.upload_func Scenario.always_503) in
  let w := {| Upload.env := {| env := tt; trace := [] |}; Upload.trace := [] |} in
  ∃ w',
    Upload._upload_one c (Scenario.record "a") w
      = (Upload.Exc (PyExn "StopInterrupt" "Stop requested"), w') ∧
    Upload.calls (Upload.trace w') = Upload.calls (Upload.trace w) ++ [Scenario.record "a"] ∧
    Upload.sleeps (Upload.trace w') =
      Upload.sleeps (Upload.trace w) ++ [(Upload.RETRY_DELAY * inject_Z 1)%Q] ∧
    env (Upload.env w') = tt ∧
    trace (Upload.env w') =
      trace (Upload.env w) ++ [EvCheck (Some (PyExn "StopInterrupt" "Stop requested"))].
Proof.
  apply (stop_request_escapes_upload_one (λ _ e, e) stop_requested
           (Upload.upload_func Scenario.always_503) (Scenario.record "a")
           {| Upload.env := {| env := tt; trace := [] |}; Upload.trace := [] |}
           (PyExn "HTTPError" "503 Service Unavailable") tt
           (PyExn "StopInterrupt" "Stop requested") tt); reflexivity.
Defined.

End CliSpec.

(** ** Properties of the upload buffer *)

Module BaseSpec.
Import Upload UploadSpec Base.

Section Parser.

Context {E : Type} (c : Collab E).

Lemma run_snoc (u : State E) (acts : list Upload.Action) (a : Upload.Action) :
  Upload.run c u (acts ++ [a]) = Upload.step c (Upload.run c u acts) a.
Proof. unfold Upload.run. by rewrite foldl_app. Qed.

Lemma enqueued_app (l1 l2 : list Upload.Action) :
  enqueued (l1 ++ l2) = enqueued l1 ++ enqueued l2.
Proof. unfold enqueued. by rewrite bind_app. Qed.

(** The parser and its uploader, step by step: the uploader goes through
    the actions [asked]; what was enqueued, followed by what the buffer
    holds, is what the buffer held followed by the records handed over. *)
Lemma run_asked (p : BaseParser E) (u : State E) (acts : list Base.Action) :
  uploader p = Some u →
  let p' := Base.run c p acts in
  let uacts := asked (UPLOAD_BATCH_SIZE p) (_upload_buffer p) acts in
  uploader p' = Some (Upload.run c u uacts) ∧
  UPLOAD_BATCH_SIZE p' = UPLOAD_BATCH_SIZE p ∧ log p' = log p ∧
  enqueued uacts ++ _upload_buffer p' = _upload_buffer p ++ handed acts.
Proof.
  revert p u. induction acts as [|a acts IH]; intros p u Hu.
  - cbn. by rewrite app_nil_r.
  - cbn [Base.run foldl]. fold (Base.run c (Base.step c p a) acts).
    destruct a as [x|page_num|]; cbn [Base.step asked handed omap].
    + unfold _upload_item. rewrite Hu. cbv zeta. cbn [UPLOAD_BATCH_SIZE _upload_buffer].
      destruct ((0 <? UPLOAD_BATCH_SIZE p)
                && (UPLOAD_BATCH_SIZE p <=? Z.of_nat (length (_upload_buffer p ++ [x]))))
        eqn:Hcond.
      * unfold _flush_upload_buffer. cbn [uploader _upload_buffer UPLOAD_BATCH_SIZE log].
        destruct (_upload_buffer p ++ [x]) as [|y l] eqn:Hb;
          [by destruct (_upload_buffer p)|]. rewrite <- Hb.
        match goal with |- context [Base.run c ?p1 acts] =>
          destruct (IH p1 _ eq_refl) as (H1 & H2 & H3 & H4) end.
        cbn [uploader UPLOAD_BATCH_SIZE _upload_buffer log] in *.
        rewrite H1, H2, H3. repeat split; try done.
        rewrite enqueued_cons. cbn [enqueued mbind list_bind]. rewrite app_nil_r.
        rewrite <- !app_assoc. by rewrite H4.
      * match goal with |- context [Base.run c ?p1 acts] =>
          destruct (IH p1 u eq_refl) as (H1 & H2 & H3 & H4) end.
        cbn [uploader UPLOAD_BATCH_SIZE _upload_buffer log] in *.
        rewrite H1, H2, H3, H4. repeat split; try done. by rewrite <- app_assoc.
    + unfold _flush_upload_buffer. rewrite Hu.
      destruct (_upload_buffer p) as [|y l] eqn:Hb.
      * destruct (IH p u Hu) as (H1 & H2 & H3 & H4). rewrite Hb in *.
        rewrite H1, H2, H3, H4. done.
      * match goal with |- context [Base.run c ?p1 acts] =>
          destruct (IH p1 _ eq_refl) as (H1 & H2 & H3 & H4) end.
        cbn [uploader UPLOAD_BATCH_SIZE _upload_buffer log] in *.
        rewrite H1, H2, H3. repeat split; try done.
        rewrite enqueued_cons. cbn [enqueued mbind list_bind]. rewrite app_nil_r.
        rewrite <- !app_assoc. by rewrite H4.
    + rewrite Hu.
      match goal with |- context [Base.run c ?p1 acts] =>
        destruct (IH p1 _ eq_refl) as (H1 & H2 & H3 & H4) end.
      cbn [uploader UPLOAD_BATCH_SIZE _upload_buffer log] in *.
      rewrite H1, H2, H3. repeat split; try done.
Qed.

Lemma asked_enqueues_only (size : Z) (buffer : list Item) (acts : list Base.Action) :
  enqueues_only (asked size buffer acts).
Proof.
  revert buffer. induction acts as [|a acts IH]; intros buffer; [constructor|].
  destruct a as [x|page_num|]; cbn [asked].
  - destruct (_ && _); [constructor; [done|]|]; apply IH.
  - destruct buffer; [|constructor; [done|]]; apply IH.
  - constructor; [done|apply IH].
Qed.

Lemma batches_of_cons (a : Upload.Action) (acts : list Upload.Action) :
  batches_of (a :: acts) =
    match a with ActUploadBatch batch _ => batch :: batches_of acts | _ => batches_of acts end.
Proof. by destruct a. Qed.

Lemma asked_sizes (size : Z) (buffer : list Item) (acts : list Base.Action) :
  0 < size → Z.of_nat (length buffer) < size →
  Forall (λ batch, batch ≠ [] ∧ Z.of_nat (length batch) ≤ size)
         (batches_of (asked size buffer acts)) ∧
  (no_flush acts →
   Forall (λ batch, Z.of_nat (length batch) = size) (batches_of (asked size buffer acts))).
Proof.
  intros Hsize. revert buffer. induction acts as [|a acts IH]; intros buffer Hlen.
  - split; [constructor|intros _; constructor].
  - destruct a as [x|page_num|]; cbn [asked].
    + rewrite (proj2 (Z.ltb_lt _ _) Hsize), andb_true_l.
      destruct (size <=? Z.of_nat (length (buffer ++ [x]))) eqn:Hfull.
      * apply Z.leb_le in Hfull. rewrite length_app in Hfull. cbn [length] in Hfull.
        destruct (IH []) as [H1 H2]; [cbn; lia|].
        rewrite batches_of_cons. split.
        -- constructor; [|done]. split; [by destruct buffer|].
           rewrite length_app. cbn [length]. lia.
        -- intros Hnf. apply Forall_cons in Hnf as [_ Hnf].
           constructor; [|by apply H2]. rewrite length_app. cbn [length]. lia.
      * apply Z.leb_gt in Hfull. destruct (IH (buffer ++ [x])) as [H1 H2]; [done|].
        split; [done|]. intros Hnf. apply Forall_cons in Hnf as [_ Hnf]. by apply H2.
    + destruct buffer as [|y l] eqn:Hb.
      * destruct (IH []) as [H1 H2]; [cbn; lia|]. split; [done|].
        intros Hnf. by apply Forall_cons in Hnf as [[] _].
      * destruct (IH []) as [H1 H2]; [cbn; lia|]. rewrite batches_of_cons. split.
        -- constructor; [|done]. split; [done|lia].
        -- intros Hnf. by apply Forall_cons in Hnf as [[] _].
    + destruct (IH buffer Hlen) as [H1 H2]. rewrite batches_of_cons. split; [done|].
      intros Hnf. apply Forall_cons in Hnf as [_ Hnf]. by apply H2.
Qed.

Lemma run_buffer_bound (p : BaseParser E) (u : State E) (acts : list Base.Action) :
  uploader p = Some u →
  0 < UPLOAD_BATCH_SIZE p → Z.of_nat (length (_upload_buffer p)) < UPLOAD_BATCH_SIZE p →
  Z.of_nat (length (_upload_buffer (Base.run c p acts))) < UPLOAD_BATCH_SIZE p.
Proof.
  revert p u. induction acts as [|a acts IH]; intros p u Hu Hsize Hlen; [done|].
  cbn [Base.run foldl]. fold (Base.run c (Base.step c p a) acts).
  destruct a as [x|page_num|]; cbn [Base.step].
  - unfold _upload_item. rewrite Hu. cbv zeta. cbn [UPLOAD_BATCH_SIZE _upload_buffer].
    rewrite (proj2 (Z.ltb_lt _ _) Hsize), andb_true_l.
    destruct (UPLOAD_BATCH_SIZE p <=? Z.of_nat (length (_upload_buffer p ++ [x]))) eqn:Hfull.
    + unfold _flush_upload_buffer. cbn [uploader _upload_buffer UPLOAD_BATCH_SIZE log].
      destruct (_upload_buffer p ++ [x]) as [|y l] eqn:Hb; [by destruct (_upload_buffer p)|].
      match goal with |- context [Base.run c ?p1 acts] =>
        apply (IH p1 _ eq_refl) end; cbn; lia.
    + apply Z.leb_gt in Hfull.
      match goal with |- context [Base.run c ?p1 acts] =>
        apply (IH p1 _ eq_refl) end; by cbn.
  - unfold _flush_upload_buffer. rewrite Hu.
    destruct (_upload_buffer p) as [|y l] eqn:Hb.
    + apply (IH p u Hu Hsize). rewrite Hb. cbn. lia.
    + match goal with |- context [Base.run c ?p1 acts] =>
        apply (IH p1 _ eq_refl) end; cbn; lia.
  - rewrite Hu.
    match goal with |- context [Base.run c ?p1 acts] =>
      apply (IH p1 _ eq_refl) end; by cbn.
Qed.

Lemma asked_unbounded (size : Z) (buffer : list Item) (acts : list Base.Action) :
  size ≤ 0 → no_flush acts → batches_of (asked size buffer acts) = [].
Proof.
  intros Hsize Hnf. revert buffer. induction Hnf as [|a acts Ha _ IH]; intros buffer; [done|].
  destruct a as [x|page_num|]; cbn [asked]; [|done|].
  - rewrite (proj2 (Z.ltb_ge _ _) Hsize), andb_false_l. apply IH.
  - rewrite batches_of_cons. apply IH.
Qed.

Lemma enqueued_batches (uacts : list Upload.Action) :
  enqueued uacts = concat (batches_of uacts).
Proof.
  induction uacts as [|a uacts IH]; [done|].
  rewrite enqueued_cons, batches_of_cons, IH.
  destruct a; cbn [enqueued mbind list_bind concat app]; by rewrite ?app_nil_r.
Qed.

(** X17.  The upload buffer loses no record, adds none and keeps their
    order.  For a parser with an uploader, through any calls of
    [_upload_item] and [_flush_upload_buffer] and any steps of the
    dispatcher: the uploader has gone through the calls of [upload_batch]
    and the dispatcher steps listed by [asked], none of these batches is
    empty, and the records of these batches, in order, followed by the
    records still in the buffer, are the records the buffer held at first
    followed by the records handed to [_upload_item]. *)
Theorem upload_buffer_keeps_every_record (p : BaseParser E) (u : State E)
    (acts : list Base.Action) :
  uploader p = Some u →
  let p' := Base.run c p acts in
  let uacts := asked (UPLOAD_BATCH_SIZE p) (_upload_buffer p) acts in
  uploader p' = Some (Upload.run c u uacts) ∧
  enqueues_only uacts ∧
  concat (batches_of uacts) ++ _upload_buffer p' = _upload_buffer p ++ handed acts.
Proof.
  intros Hu p' uacts. destruct (run_asked p u acts Hu) as (H1 & _ & _ & H4).
  split; [exact H1|]. split; [apply asked_enqueues_only|].
  by rewrite <- enqueued_batches.
Qed.

(** X18.  When the buffer is flushed.  With a positive [UPLOAD_BATCH_SIZE]
    and a buffer shorter than it at first, the buffer stays shorter than it:
    [_upload_item] enqueues the buffer as soon as it holds
    [UPLOAD_BATCH_SIZE] records.  No batch enqueued is empty or longer than
    [UPLOAD_BATCH_SIZE], and without a flush by hand every batch has
    exactly [UPLOAD_BATCH_SIZE] records.  With an [UPLOAD_BATCH_SIZE] that
    is not positive, [_upload_item] never enqueues: without a flush by hand
    every record stays in the buffer. *)
Theorem upload_buffer_flushes_at_batch_size (p : BaseParser E) (u : State E)
    (acts : list Base.Action) :
  uploader p = Some u →
  let size := UPLOAD_BATCH_SIZE p in
  let p' := Base.run c p acts in
  let given := batches_of (asked size (_upload_buffer p) acts) in
  (0 < size → Z.of_nat (length (_upload_buffer p)) < size →
   Z.of_nat (length (_upload_buffer p')) < size ∧
   Forall (λ batch, batch ≠ [] ∧ Z.of_nat (length batch) ≤ size) given ∧
   (no_flush acts → Forall (λ batch, Z.of_nat (length batch) = size) given)) ∧
  (size ≤ 0 → no_flush acts →
   given = [] ∧ _upload_buffer p' = _upload_buffer p ++ handed acts).
Proof.
  intros Hu size p' given. split.
  - intros Hsize Hlen. split; [by eapply run_buffer_bound|]. by apply asked_sizes.
  - intros Hsize Hnf. pose proof (asked_unbounded size (_upload_buffer p) acts Hsize Hnf) as Hg.
    split; [exact Hg|].
    destruct (run_asked p u acts Hu) as (_ & _ & _ & H4).
    cbv zeta in H4. rewrite enqueued_batches in H4. unfold size in Hg.
    by rewrite Hg in H4.
Qed.

(** X19.  No record handed to the parser is lost on a graceful finish.
    Take a parser made with a fresh uploader and any calls of
    [_upload_item] and [_flush_upload_buffer] and steps of the dispatcher,
    then [_finish_upload(force=False)].  When it returns, it returns the
    statistics of the uploader, the buffer is empty, and every record that
    was handed to [_upload_item] is accounted for: it was counted as a
    duplicate, or the upload function was called for it.  And it does
    return when the pool size is positive, the back-off sleeps return and
    the progress callback returns. *)
Theorem finish_upload_attempts_every_record (batch_size workers : Z) (e0 : E)
    (acts : list Base.Action) (duration : string) :
  fair_pool c →
  let p := Base.run c (new_parser batch_size (Some (new_uploader workers e0))) acts in
  (∀ result p',
     _finish_upload c duration false p = Done result p' →
     ∃ u', uploader p' = Some u' ∧ result = Some (stats (up u')) ∧
           _upload_buffer p' = [] ∧
           ∀ item, item ∈ handed acts → accounted (trace (world u')) item) ∧
  (0 < workers → no_escape c → ∃ result p', _finish_upload c duration false p = Done result p').
Proof.
  intros Hfair p.
  destruct (run_asked (new_parser batch_size (Some (new_uploader workers e0)))
              (new_uploader workers e0) acts eq_refl) as (H1 & _ & _ & H4).
  fold p in H1, H4. cbn [new_parser UPLOAD_BATCH_SIZE _upload_buffer app] in H1, H4.
  set (uacts := asked batch_size [] acts) in *.
  pose proof (asked_enqueues_only batch_size [] acts) as Hq. fold uacts in Hq.
  (* the flush of [_finish_upload] is one more call of [upload_batch] *)
  assert (∃ uacts', uploader (_flush_upload_buffer 0 p)
                      = Some (Upload.run c (new_uploader workers e0) uacts') ∧
                    enqueues_only uacts' ∧ enqueued uacts' = handed acts ∧
                    _upload_buffer (_flush_upload_buffer 0 p) = [])
    as (uacts' & Hu' & Hq' & He' & Hb').
  { unfold _flush_upload_buffer. rewrite H1.
    destruct (_upload_buffer p) as [|y l] eqn:Hb.
    - exists uacts. rewrite H1, Hb. rewrite app_nil_r in H4. done.
    - exists (uacts ++ [ActUploadBatch (y :: l) 0]). cbn [uploader _upload_buffer].
      rewrite run_snoc. split; [done|]. split; [|split; [|done]].
      + apply Forall_app. split; [done|]. by constructor.
      + rewrite enqueued_app, <- H4. cbn. by rewrite app_nil_r. }
  split.
  - intros result p'. unfold _finish_upload. cbv zeta. rewrite Hu'.
    destruct (finish c duration false _) as [u'|u'] eqn:Hfin; [|done].
    intros [= <- <-]. exists u'. cbn [uploader _upload_buffer].
    split; [done|]. split; [done|]. split; [done|].
    destruct (graceful_finish_safe c _ _ _ _ _ Hfair Hq' Hfin) as (Hacc & _).
    intros item Hin. apply Hacc. by rewrite He'.
  - intros Hw Hesc. unfold _finish_upload. cbv zeta. rewrite Hu'.
    destruct (graceful_finish_returns c workers e0 uacts' duration Hfair Hq' Hw Hesc)
      as [u' ->]. by eexists _, _.
Qed.

End Parser.

(** *** Closed instances *)

Lemma upload_buffer_keeps_every_record_witness :
  let p := new_parser 2 (Some (new_uploader 3 tt)) in
  let p' := Base.run Scenario.always_ok p three_records in
  let uacts := asked (UPLOAD_BATCH_SIZE p) (_upload_buffer p) three_records in
  uploader p' = Some (Upload.run Scenario.always_ok (new_uploader 3 tt) uacts) ∧
  enqueues_only uacts ∧
  concat (batches_of uacts) ++ _upload_buffer p' = _upload_buffer p ++ handed three_records.
Proof.
  exact (upload_buffer_keeps_every_record Scenario.always_ok
           (new_parser 2 (Some (new_uploader 3 tt))) (new_uploader 3 tt) three_records eq_refl).
Defined.

Lemma upload_buffer_flushes_at_batch_size_witness :
  let p' := Base.run Scenario.always_ok (new_parser 2 (Some (new_uploader 3 tt)))
              three_records in
  _upload_buffer p' = [Scenario.record "c"] ∧
  Forall (λ batch, Z.of_nat (length batch) = 2) (batches_of (asked 2 [] three_records)).
Proof.
  destruct (upload_buffer_flushes_at_batch_size Scenario.always_ok
              (new_parser 2 (Some (new_uploader 3 tt))) (new_uploader 3 tt) three_records
              eq_refl) as [Hpos _].
  destruct Hpos as (_ & _ & Hfull); [done|done|].
  split; [by vm_compute|]. apply Hfull. repeat constructor.
Defined.

Lemma finish_upload_attempts_every_record_witness :
  ∃ u' p',
    _finish_upload Scenario.always_ok "" false
      (Base.run Scenario.always_ok (new_parser 2 (Some (new_uploader 3 tt))) three_records)
      = Done (Some (stats (up u'))) p' ∧
    uploader p' = Some u' ∧ _upload_buffer p' = [] ∧
    accounted (trace (world u')) (Scenario.record "c").
Proof.
  destruct (finish_upload_attempts_every_record Scenario.always_ok 2 3 tt three_records ""
              (identity_pool_fair _)) as [Hsafe Hlive].
  destruct Hlive as (result & p' & Hfin); [done|by split|].
  destruct (Hsafe result p' Hfin) as (u' & Hu & -> & Hb & Hacc).
  exists u', p'. split; [exact Hfin|]. split; [exact Hu|]. split; [exact Hb|].
  apply Hacc. by vm_compute; apply list_elem_of_further, list_elem_of_further, list_elem_of_here.
Defined.

End BaseSpec.
